(** * dom-to-semantic-markdown: a shallow embedding and its properties

    The development follows the layout of the TypeScript sources:

    - [Js], [Js_Array], [Uri]: the primitives of the host language that the
      code relies on ([trim], [startsWith], [split], [sort], [encodeURI],
      ...);
    - [Dom]: the part of the DOM that the code reads;
    - core/domUtils.ts: [escapeMarkdownCharacters], [calculateScore],
      [collectCandidates], [detectMainContent], [findMainContent];
    - types/markdownTypes.ts: [SemanticMarkdownAST] and [ConversionOptions];
    - core/urlUtils.ts: [addRefPrefix], [processUrl], [refifyUrls];
    - core/htmlToMarkdownAST.ts: the table of [translators] and
      [htmlToMarkdownAST].  Of the two versions of this file in the
      sources, the one with the table of translators is embedded;
    - core/astUtils.ts: [findInAST];
    - core/markdownASTToString.ts: [markdownContentASTToString] and the
      front matter;
    - index.ts: [convertElementToMarkdown], [convertHtmlToMarkdown].

    Conventions.  A string is a sequence of code units, and a character of
    [string] stands for a UTF-16 code unit below 256.  Lengths, indexes and
    scores are in [nat] or [Z]; the numbers that come from [parseInt] are
    in [Js.number], doubles with their rounding.  An element is a value of
    a tree; where the code compares elements by identity ([contains]) they
    come as references, an element with its path.  Arrays and objects that
    the code updates in place are passed in and given back.  A call that
    may throw gives an exception or a value ([Throws]).  The metadata
    extractor, the serialisation of elements and of JSON values and the
    parser are collaborators of the core, and come as the fields of
    [Collaborators]. *)

From Stdlib Require Import ZArith String Ascii List Lia DecimalString Bool Sorted.
From Stdlib Require DecimalNat DecimalFacts.
From stdpp Require Import gmap strings list fin_maps.

Set Warnings "-register-all".

Open Scope string_scope.
Open Scope list_scope.

(* ===================================================================== *)
(** ** Host string primitives *)
(* ===================================================================== *)

Module Js.

(** [\s] of regular expressions and the white space of [trim]: TAB, LF,
    VT, FF, CR, SPACE and NBSP are the ones below 256. *)
Definition isWhiteSpace (c : ascii) : bool :=
  let n := nat_of_ascii c in
  (Nat.leb 9 n && Nat.leb n 13) || Nat.eqb n 32 || Nat.eqb n 160.

Fixpoint trimStart (s : string) : string :=
  match s with
  | EmptyString => EmptyString
  | String c r => if isWhiteSpace c then trimStart r else s
  end.

Fixpoint trimEnd (s : string) : string :=
  match s with
  | EmptyString => EmptyString
  | String c r =>
      match trimEnd r with
      | EmptyString => if isWhiteSpace c then EmptyString else String c EmptyString
      | r' => String c r'
      end
  end.

Definition trim (s : string) : string := trimEnd (trimStart s).

(** Truthiness of a string: the empty string is falsy. *)
Definition truthy (s : string) : bool :=
  match s with EmptyString => false | _ => true end.

Definition startsWith (s p : string) : bool := String.prefix p s.

Fixpoint includes (s sub : string) : bool :=
  String.prefix sub s ||
  match s with
  | EmptyString => false
  | String _ r => includes r sub
  end.

(** [s.split(sep)] for a one-character separator. *)
Fixpoint split (sep : ascii) (s : string) : list string :=
  match s with
  | EmptyString => [EmptyString]
  | String c r =>
      if Ascii.eqb c sep then EmptyString :: split sep r
      else match split sep r with
           | h :: t => String c h :: t
           | [] => [String c EmptyString]
           end
  end.

Fixpoint join (sep : string) (l : list string) : string :=
  match l with
  | [] => EmptyString
  | [x] => x
  | x :: t => x +:+ sep +:+ join sep t
  end.

(** [s.substring(n)] *)
Fixpoint substringFrom (n : nat) (s : string) : string :=
  match n, s with
  | O, _ => s
  | S n', String _ r => substringFrom n' r
  | S _, EmptyString => EmptyString
  end.

(** [s.charAt(0)] and [s.slice(-1)]: a string of length at most one. *)
Definition charAt0 (s : string) : string :=
  match s with
  | EmptyString => EmptyString
  | String c _ => String c EmptyString
  end.

Fixpoint sliceLast (s : string) : string :=
  match s with
  | EmptyString => EmptyString
  | String c EmptyString => s
  | String _ r => sliceLast r
  end.

(** [/\s/.test(s)] on a string of length at most one. *)
Definition testWhiteSpace (s : string) : bool :=
  match s with
  | EmptyString => false
  | String c _ => isWhiteSpace c
  end.

Fixpoint repeat (s : string) (n : nat) : string :=
  match n with
  | O => EmptyString
  | S n' => s +:+ repeat s n'
  end.

Definition lowerChar (c : ascii) : ascii :=
  let n := nat_of_ascii c in
  if (Nat.leb 65 n && Nat.leb n 90)
     || (Nat.leb 192 n && Nat.leb n 222 && negb (Nat.eqb n 215))
  then ascii_of_nat (n + 32) else c.

Fixpoint toLowerCase (s : string) : string :=
  match s with
  | EmptyString => EmptyString
  | String c r => String (lowerChar c) (toLowerCase r)
  end.

(** [s.replace(/c/g, by)] for a one-character pattern. *)
Fixpoint replaceAll (c : ascii) (by_ : string) (s : string) : string :=
  match s with
  | EmptyString => EmptyString
  | String x r =>
      if Ascii.eqb x c then by_ +:+ replaceAll c by_ r
      else String x (replaceAll c by_ r)
  end.

(** [s.replace(first, '')]: only the first occurrence goes. *)
Fixpoint removeFirst (pat s : string) : string :=
  if String.prefix pat s then substringFrom (String.length pat) s
  else match s with
       | EmptyString => EmptyString
       | String c r => String c (removeFirst pat r)
       end.

(** Template-literal printing of array indexes and booleans. *)
Definition ofNat (n : nat) : string := NilZero.string_of_uint (Nat.to_uint n).
Definition ofBool (b : bool) : string := if b then "true" else "false".

(** [array.slice(-1)] and [array.slice(0, -1)] *)
Definition lastSlice {A} (l : list A) : list A :=
  match List.rev l with
  | [] => []
  | x :: _ => [x]
  end.

Definition initSlice {A} (l : list A) : list A := List.removelast l.

(** *** Numbers

    The code gets its numbers from [Number.parseInt] and adds them up, so
    the numbers it meets are the integers among the doubles, the two
    infinities and NaN.  In [Int z] the integer [z] is the value of a
    double; the functions below only make such numbers. *)
Inductive number :=
| NaN
| Infinity
| NegInfinity
| Int (z : Z).

(** The double nearest to the natural number [n], ties to even, without
    a bound on the exponent: [n] keeps its 53 leading bits. *)
Definition nearestDouble (n : Z) : Z :=
  let e := (Z.log2 n - 52)%Z in
  if (e <=? 0)%Z then n
  else
    let q := Z.shiftr n e in
    let r := (n - Z.shiftl q e)%Z in
    let half := Z.shiftl 1 (e - 1) in
    let q' :=
      if (half <? r)%Z || ((r =? half)%Z && Z.odd q) then (q + 1)%Z else q in
    Z.shiftl q' e.

(** The number value of an integer: the nearest double, or an infinity
    from [2^1024] on. *)
Definition ofInteger (z : Z) : number :=
  let m := nearestDouble (Z.abs z) in
  if (2 ^ 1024 <=? m)%Z then (if (z <? 0)%Z then NegInfinity else Infinity)
  else Int (Z.sgn z * m).

(** [a + b] *)
Definition add (a b : number) : number :=
  match a with
  | NaN => NaN
  | Infinity =>
      match b with
      | NaN | NegInfinity => NaN
      | _ => Infinity
      end
  | NegInfinity =>
      match b with
      | NaN | Infinity => NaN
      | _ => NegInfinity
      end
  | Int x =>
      match b with
      | Int y => ofInteger (x + y)
      | other => other
      end
  end.

(** [a < b] and [a > b]; a comparison with NaN is false. *)
Definition lt (a b : number) : bool :=
  match a with
  | NaN | Infinity => false
  | NegInfinity =>
      match b with
      | NaN | NegInfinity => false
      | _ => true
      end
  | Int x =>
      match b with
      | Infinity => true
      | Int y => (x <? y)%Z
      | _ => false
      end
  end.

Definition gt (a b : number) : bool := lt b a.

(** Truthiness of a number: zero and NaN are falsy. *)
Definition truthyNumber (a : number) : bool :=
  match a with
  | NaN | Int 0 => false
  | _ => true
  end.

(** [Math.max(...numbers)]: NaN as soon as one of them is, and
    [-Infinity] for no number at all. *)
Definition max2 (a b : number) : number :=
  match a, b with
  | NaN, _ | _, NaN => NaN
  | _, _ => if lt a b then b else a
  end.

Definition max (numbers : list number) : number :=
  fold_left max2 numbers NegInfinity.

(** The turns of a loop [while (from < to) { ...; from++ }], and of
    [for (let i = from; i < to; i++)]: [None] when the loop does not end,
    which is so when the counter stays where it is, at an infinity or
    beyond [2^53].  A counter that moves is an integer and moves by one at
    least, so the distance to [to] bounds the turns of a loop that
    ends. *)
Fixpoint countUp (fuel : nat) (from to : number) : option nat :=
  if lt from to then
    match fuel with
    | O => None
    | S fuel' => option_map S (countUp fuel' (add from (Int 1)) to)
    end
  else Some 0.

Definition turns (from to : number) : option nat :=
  countUp
    (match from, to with
     | Int x, Int y => Z.to_nat (y - x)
     | _, _ => 0
     end)
    from to.

(** *** Number::toString

    A double is printed with as few digits as tell it from the other
    doubles: digits [s], [k] of them, and an exponent [n] with
    [s * 10^(n-k)] read back as the number, [k] as small as possible and
    then [s * 10^(n-k)] as near to the number as possible.  Up to [n = 21]
    it is printed with all its digits, beyond in exponent form. *)
Definition digitsOf (m : Z) : string := NilZero.string_of_uint (N.to_uint (Z.to_N m)).

(** The candidates with [k] digits for the double [m] of [n] digits. *)
Definition readBack (m : Z) (n k : nat) : option Z :=
  let p := (10 ^ Z.of_nat (n - k))%Z in
  let lo := (m / p)%Z in
  let hi := (lo + 1)%Z in
  let fits (s : Z) := (s <? 10 ^ Z.of_nat k)%Z && (nearestDouble (s * p) =? m)%Z in
  match fits lo, fits hi with
  | true, true =>
      let below := (m - lo * p)%Z in
      let above := (hi * p - m)%Z in
      if (below <? above)%Z then Some lo
      else if (above <? below)%Z then Some hi
      else if Z.even lo then Some lo else Some hi
  | true, false => Some lo
  | false, true => Some hi
  | false, false => None
  end.

(** The digits and the exponent of the double [m], which is not below
    [2^53]: the text of [m] when no shorter one is read back as [m]. *)
Definition shortestDigits (m : Z) : Z * nat :=
  let n := String.length (digitsOf m) in
  if (nearestDouble (10 ^ Z.of_nat n) =? m)%Z then (1%Z, S n)
  else
    match
      List.find (fun k => match readBack m n k with Some _ => true | None => false end)
        (seq 1 n)
    with
    | Some k =>
        match readBack m n k with
        | Some s => (s, n)
        | None => (m, n)
        end
    | None => (m, n)
    end.

Definition ofPositive (m : Z) : string :=
  if (m <? 2 ^ 53)%Z then digitsOf m
  else
    let '(s, n) := shortestDigits m in
    let digits := digitsOf s in
    let k := String.length digits in
    if Nat.leb n 21 then digits +:+ repeat "0" (n - k)
    else
      match digits with
      | String d EmptyString => digits +:+ "e+" +:+ ofNat (n - 1)
      | String d more =>
          String d EmptyString +:+ "." +:+ more +:+ "e+" +:+ ofNat (n - 1)
      | EmptyString => digits
      end.

(** Template-literal printing of a number. *)
Definition ofNumber (a : number) : string :=
  match a with
  | NaN => "NaN"
  | Infinity => "Infinity"
  | NegInfinity => "-Infinity"
  | Int z => if (z <? 0)%Z then "-" +:+ ofPositive (- z) else ofPositive z
  end.

(** [Number.parseInt(s, 10)]: leading white space, an optional sign, then
    decimal digits up to the first character that is none; the integer
    they tell is turned into a number.  Without digits the result is
    NaN.  The integer is rounded as a whole; ECMAScript allows an engine
    to read the digits behind the twentieth as zeros.  (The heading
    translator leaves the radix out, and calls it on one of the digits 1
    to 6.) *)
Definition digitOf (c : ascii) : option Z :=
  let n := nat_of_ascii c in
  if Nat.leb 48 n && Nat.leb n 57 then Some (Z.of_nat (n - 48)) else None.

Fixpoint parseDigits (acc : option Z) (s : string) : option Z :=
  match s with
  | EmptyString => acc
  | String c r =>
      match digitOf c with
      | Some d =>
          parseDigits (Some (10 * (match acc with Some a => a | None => 0 end) + d)%Z) r
      | None => acc
      end
  end.

Definition parseInt (s : string) : number :=
  let '(negative, digits) :=
    match trimStart s with
    | String "-" r => (true, r)
    | String "+" r => (false, r)
    | r => (false, r)
    end in
  match parseDigits None digits with
  | Some z => ofInteger (if negative then - z else z)
  | None => NaN
  end.

(** *** Objects

    The names under which a plain object finds a property of
    [Object.prototype] when it has none of its own: functions, and under
    [__proto__] the prototype itself.  All of them are truthy. *)
Definition objectPrototypeKeys : list string :=
  ["constructor"; "__defineGetter__"; "__defineSetter__"; "hasOwnProperty";
   "__lookupGetter__"; "__lookupSetter__"; "isPrototypeOf";
   "propertyIsEnumerable"; "toString"; "valueOf"; "__proto__";
   "toLocaleString"].

(** [object[key]] for a plain object whose own properties are strings. *)
Inductive Property :=
| Own (value : string)
| Inherited (key : string)
| Undefined.

Definition getProperty (object : gmap string string) (key : string) : Property :=
  match object !! key with
  | Some value => Own value
  | None =>
      if existsb (String.eqb key) objectPrototypeKeys then Inherited key
      else Undefined
  end.

End Js.

(* ===================================================================== *)
(** ** core/domUtils.ts: escaping *)
(* ===================================================================== *)

(** The character class of [/([\\`*_{}[\]#+!|])/g]. *)
Definition isMarkdownSpecial (c : ascii) : bool :=
  existsb (Ascii.eqb c)
    (list_ascii_of_string "\`*_{}[]#+!|").

(** [s.replace(/([\\`*_{}[\]#+!|])/g, '\\$1')] *)
Fixpoint backslashEscape (s : string) : string :=
  match s with
  | EmptyString => EmptyString
  | String c r =>
      if isMarkdownSpecial c then String "\" (String c (backslashEscape r))
      else String c (backslashEscape r)
  end.

Definition escapeMarkdownCharacters (text : string) (isInlineCode : bool) : string :=
  if isInlineCode || negb (Js.truthy (Js.trim text)) then
    (* In inline code, we don't escape any characters *)
    text
  else
    (* First, replace special HTML characters with their entity equivalents *)
    let escapedText :=
      Js.replaceAll ">" "&gt;"
        (Js.replaceAll "<" "&lt;"
           (Js.replaceAll "&" "&amp;" text)) in
    (* Then escape characters that have special meaning in Markdown *)
    backslashEscape escapedText.

(* ===================================================================== *)
(** ** The DOM, as the code observes it *)
(* ===================================================================== *)

Module Js_Array.

(** [Array.prototype.sort(cmp)]: stable; [cmp x y <= 0] keeps [x] before
    [y]. *)
Fixpoint insertSorted {A} (cmp : A -> A -> Z) (x : A) (l : list A) : list A :=
  match l with
  | [] => [x]
  | y :: r => if (cmp x y <=? 0)%Z then x :: l else y :: insertSorted cmp x r
  end.

Definition sort {A} (cmp : A -> A -> Z) (l : list A) : list A :=
  fold_right (insertSorted cmp) [] l.

(** [array.some((x, j) => p(x, j))] *)
Fixpoint someFrom {A} (j : nat) (p : A -> nat -> bool) (l : list A) : bool :=
  match l with
  | [] => false
  | x :: r => p x j || someFrom (S j) p r
  end.

Definition some {A} (p : A -> nat -> bool) (l : list A) : bool := someFrom 0 p l.

End Js_Array.

Module Dom.

(** The properties of an element that the code reads. *)
Record ElementData := mkData {
  tagName : string;                  (* upper case for HTML elements *)
  id : string;
  classList : list string;
  attributes : list (string * string);
  href : option string;              (* [None]: not a string *)
  src : string;
  alt : string;
  poster : string;
  controls : bool;
  isHTMLElement : bool;              (* [element instanceof HTMLElement] *)
  offsetWidth : Z;
  offsetHeight : Z;
  parentNodeName : option string     (* [parentNode?.nodeName] *)
}.

(** A node is a text node, an element, or something else (a comment, ...).
    An element comes with its shadow root's children when it has a shadow
    root, with its assigned nodes when it is a slot, and with its child
    nodes. *)
Inductive Node :=
| Text (data : string)
| Other
| Elem (d : ElementData) (shadow : option (list Node))
       (assigned : list Node) (children : list Node).

Record Element := mkElement {
  data : ElementData;
  shadowRoot : option (list Node);
  assignedNodes : list Node;
  childNodes : list Node
}.

Coercion data : Element >-> ElementData.

Definition ofElement (e : Element) : Node :=
  Elem (data e) (shadowRoot e) (assignedNodes e) (childNodes e).

Definition asElement (n : Node) : option Element :=
  match n with
  | Elem d sh asg ch => Some (mkElement d sh asg ch)
  | _ => None
  end.

(** [element.children] *)
Definition children (e : Element) : list Element :=
  omap asElement (childNodes e).

(** [node.textContent] *)
Fixpoint nodeTextContent (n : Node) : string :=
  match n with
  | Text s => s
  | Other => EmptyString
  | Elem _ _ _ ch =>
      (fix all (l : list Node) : string :=
         match l with
         | [] => EmptyString
         | c :: r => nodeTextContent c +:+ all r
         end) ch
  end.

Definition textContent (e : Element) : string := nodeTextContent (ofElement e).

(** The descendant elements of a node, in document order. *)
Fixpoint descendants (n : Node) : list Element :=
  match n with
  | Elem _ _ _ ch =>
      (fix all (l : list Node) : list Element :=
         match l with
         | [] => []
         | c :: r =>
             match asElement c with
             | Some e => e :: descendants c
             | None => []
             end ++ all r
         end) ch
  | _ => []
  end.

(** Type selectors match HTML elements whatever the case of the tag. *)
Definition hasTag (names : list string) (e : Element) : bool :=
  existsb (String.eqb (Js.toLowerCase (tagName e))) names.

(** [element.querySelectorAll('a, b')] for a list of type selectors, and
    [element.getElementsByTagName(name)]. *)
Definition querySelectorAll (names : list string) (e : Element) : list Element :=
  List.filter (hasTag names) (descendants (ofElement e)).

Definition getElementsByTagName (name : string) (e : Element) : list Element :=
  querySelectorAll [name] e.

Definition querySelector (names : list string) (e : Element) : option Element :=
  head (querySelectorAll names e).

Definition getAttribute (name : string) (e : Element) : option string :=
  snd <$> List.find (fun kv => String.eqb (fst kv) name) (attributes e).

Definition hasAttribute (name : string) (e : Element) : bool :=
  match getAttribute name e with Some _ => true | None => false end.

(** A reference to an element of a tree: the element and the path of
    child indexes (among [children]) that leads to it.  Two references
    are the same element when their paths are equal. *)
Record ElementRef := mkRef {
  refPath : list nat;
  refElement : Element
}.

Coercion refElement : ElementRef >-> Element.

Fixpoint isPrefix (p q : list nat) : bool :=
  match p, q with
  | [], _ => true
  | x :: p', y :: q' => Nat.eqb x y && isPrefix p' q'
  | _ :: _, [] => false
  end.

(** [a.contains(b)]: [b] is [a] or a descendant of [a]. *)
Definition contains (a b : ElementRef) : bool := isPrefix (refPath a) (refPath b).

Record Document := mkDocument {
  documentElement : Element
}.

Definition rootRef (doc : Document) : ElementRef := mkRef [] (documentElement doc).

(** References to the children of a referenced element. *)
Definition childRefs (r : ElementRef) : list ElementRef :=
  imap (fun i e => mkRef (refPath r ++ [i]) e) (children r).

(** [document.body]: the first body child of the root element. *)
Definition body (doc : Document) : option ElementRef :=
  List.find (fun r : ElementRef => hasTag ["body"; "frameset"] r) (childRefs (rootRef doc)).

End Dom.

Coercion Dom.data : Dom.Element >-> Dom.ElementData.
Coercion Dom.refElement : Dom.ElementRef >-> Dom.Element.

(* ===================================================================== *)
(** ** core/domUtils.ts: the main-content locator *)
(* ===================================================================== *)

Definition highImpactAttributes : list string :=
  ["article"; "content"; "main-container"; "main"; "main-content"].

Definition highImpactTags : list string := ["article"; "main"; "section"].

(** One turn of [highImpactAttributes.forEach]. *)
Definition highImpactAttributeHit (element : Dom.Element) (attr : string) : bool :=
  existsb (String.eqb attr) (Dom.classList element)
  || Js.includes (Dom.id element) attr.

Definition scoreHighImpactAttributes (element : Dom.Element) (score : Z) : Z :=
  fold_left
    (fun score attr =>
       if highImpactAttributeHit element attr then (score + 10)%Z else score)
    highImpactAttributes score.

(** [linkLength / textLength], as the pair of its numerator and its
    denominator. *)
Definition calculateLinkDensity (element : Dom.Element) : Z * Z :=
  let linkLength :=
    fold_left
      (fun sum link => (sum + Z.of_nat (String.length (Dom.textContent link)))%Z)
      (Dom.getElementsByTagName "a" element) 0%Z in
  let textLength :=
    match String.length (Dom.textContent element) with
    | O => 1%Z (* Avoid division by zero *)
    | n => Z.of_nat n
    end in
  (linkLength, textLength).

(** [n / d < 0.3] on exact quotients.  The floating-point comparison of the
    code agrees with it as long as lengths stay below 2^50. *)
Definition densityBelow3Tenths (q : Z * Z) : bool :=
  (10 * fst q <? 3 * snd q)%Z.

Definition calculateScore (element : Dom.Element) : Z :=
  let score := 0%Z in
  (* High impact attributes *)
  let score := scoreHighImpactAttributes element score in
  (* High impact tags *)
  let score :=
    if existsb (String.eqb (Js.toLowerCase (Dom.tagName element))) highImpactTags
    then (score + 5)%Z else score in
  (* Paragraph count *)
  let paragraphCount := Z.of_nat (length (Dom.getElementsByTagName "p" element)) in
  let paragraphScore := Z.min paragraphCount 5 in
  let score := if (paragraphScore >? 0)%Z then (score + paragraphScore)%Z else score in
  (* Text content length *)
  let textContentLength :=
    Z.of_nat (String.length (Js.trim (Dom.textContent element))) in
  let score :=
    if (textContentLength >? 200)%Z
    then (score + Z.min (textContentLength / 200) 5)%Z else score in
  (* Link density *)
  let linkDensity := calculateLinkDensity element in
  let score := if densityBelow3Tenths linkDensity then (score + 5)%Z else score in
  (* Data attributes *)
  let score :=
    if Dom.hasAttribute "data-main" element || Dom.hasAttribute "data-content" element
    then (score + 10)%Z else score in
  (* Role attribute *)
  let score :=
    match Dom.getAttribute "role" element with
    | Some role => if Js.includes role "main" then (score + 10)%Z else score
    | None => score
    end in
  score.

(** [collectCandidates] pushes onto the shared array [candidates]. *)
Fixpoint collectCandidatesNode (path : list nat) (n : Dom.Node)
    (candidates : list Dom.ElementRef) (minScore : Z) : list Dom.ElementRef :=
  match n with
  | Dom.Elem d sh asg ch =>
      let element := Dom.mkElement d sh asg ch in
      let score := calculateScore element in
      let candidates :=
        if (score >=? minScore)%Z
        then candidates ++ [Dom.mkRef path element] else candidates in
      (fix forEachChild (i : nat) (l : list Dom.Node)
           (candidates : list Dom.ElementRef) : list Dom.ElementRef :=
         match l with
         | [] => candidates
         | c :: r =>
             match c with
             | Dom.Elem _ _ _ _ =>
                 forEachChild (S i) r
                   (collectCandidatesNode (path ++ [i]) c candidates minScore)
             | _ => forEachChild i r candidates
             end
         end) 0 ch candidates
  | _ => candidates
  end.

Definition collectCandidates (element : Dom.ElementRef)
    (candidates : list Dom.ElementRef) (minScore : Z) : list Dom.ElementRef :=
  collectCandidatesNode (Dom.refPath element) (Dom.ofElement element)
    candidates minScore.

(** The comparator of [candidates.sort]. *)
Definition byDescendingScore (a b : Dom.ElementRef) : Z :=
  (calculateScore b - calculateScore a)%Z.

(** The body of the [for] loop of [detectMainContent], at index [i]. *)
Definition detectStep (candidates : list Dom.ElementRef)
    (bestIndependentCandidate : Dom.ElementRef) (i : nat) : Dom.ElementRef :=
  match candidates !! i with
  | Some candidate_i =>
      if negb (Js_Array.some
                 (fun otherCandidate j =>
                    negb (Nat.eqb j i) && Dom.contains otherCandidate candidate_i)
                 candidates)
      then
        if (calculateScore candidate_i >? calculateScore bestIndependentCandidate)%Z
        then candidate_i
        else bestIndependentCandidate
      else bestIndependentCandidate
  | None => bestIndependentCandidate
  end.

Definition detectMainContent (rootElement : Dom.ElementRef) : Dom.ElementRef :=
  let minScore := 20%Z in
  let candidates := collectCandidates rootElement [] minScore in
  match candidates with
  | [] => rootElement
  | _ =>
      let candidates := Js_Array.sort byDescendingScore candidates in
      match candidates with
      | [] => rootElement
      | first :: _ =>
          fold_left (detectStep candidates) (seq 1 (length candidates - 1)) first
      end
  end.

(** [document.querySelector('main')], as a reference. *)
Fixpoint querySelectorRefNode (names : list string) (path : list nat)
    (n : Dom.Node) : option Dom.ElementRef :=
  match n with
  | Dom.Elem _ _ _ ch =>
      (fix first (i : nat) (l : list Dom.Node) : option Dom.ElementRef :=
         match l with
         | [] => None
         | c :: r =>
             match Dom.asElement c with
             | Some e =>
                 if Dom.hasTag names e then Some (Dom.mkRef (path ++ [i]) e)
                 else match querySelectorRefNode names (path ++ [i]) c with
                      | Some found => Some found
                      | None => first (S i) r
                      end
             | None => first i r
             end
         end) 0 ch
  | _ => None
  end.

Definition documentQuerySelector (names : list string) (doc : Dom.Document)
    : option Dom.ElementRef :=
  if Dom.hasTag names (Dom.documentElement doc) then Some (Dom.rootRef doc)
  else querySelectorRefNode names [] (Dom.ofElement (Dom.documentElement doc)).

Definition findMainContent (document : Dom.Document) : Dom.ElementRef :=
  match documentQuerySelector ["main"] document with
  | Some mainElement => mainElement
  | None =>
      match Dom.body document with
      | None => Dom.rootRef document
      | Some body => detectMainContent body
      end
  end.

(* ===================================================================== *)
(** ** types/markdownTypes.ts: the semantic AST *)
(* ===================================================================== *)

Module SemanticMarkdownAST.

(** Values of type [any]: the payload of custom nodes and of JSON-LD. *)
Inductive Json :=
| JNull
| JBool (b : bool)
| JNumber (z : Z)
| JString (s : string)
| JArray (items : list Json)
| JObject (fields : list (string * Json)).

Record MetaContent := mkMeta {
  standard : option (list (string * string));
  openGraph : option (list (string * string));
  twitter : option (list (string * string));
  jsonLd : option (list (list (string * Json)))
}.

Inductive HtmlType :=
| article | aside | details | figcaption | figure | footer | header
| main | mark | nav | section | summary | time.

Record TableCellNode (N : Type) := mkCell {
  cellContent : string + list N;
  colId : option string;
  colspan : option Js.number;
  rowspan : option Js.number
}.
Arguments mkCell {N}.
Arguments cellContent {N}.
Arguments colId {N}.
Arguments colspan {N}.
Arguments rowspan {N}.

(** A list item is its [content]; a table row is its [cells].  The node
    of type ['list'] is [list_]. *)
Inductive Node :=
| text (content : string)
| bold (content : string + list Node)
| italic (content : string + list Node)
| strikethrough (content : string + list Node)
| heading (level : nat) (content : string + list Node)
| link (href : string) (content : list Node)
| image (src : string) (alt : option string)
| video (src : string) (poster : option string) (controls : option bool)
| list_ (ordered : bool) (items : list (list Node))
| table (rows : list (list (TableCellNode Node))) (colIds : option (list string))
| code (language : option string) (content : string) (inline : bool)
| blockquote (content : list Node)
| semanticHtml (htmlType : HtmlType) (content : list Node)
| custom (content : Json)
| meta (content : MetaContent).

Definition htmlTypeName (t : HtmlType) : string :=
  match t with
  | article => "article" | aside => "aside" | details => "details"
  | figcaption => "figcaption" | figure => "figure" | footer => "footer"
  | header => "header" | main => "main" | mark => "mark" | nav => "nav"
  | section => "section" | summary => "summary" | time => "time"
  end.

Definition allHtmlTypes : list HtmlType :=
  [article; aside; details; figcaption; figure; footer; header; main; mark;
   nav; section; summary; time].

Definition htmlTypeOfTag (tag : string) : option HtmlType :=
  List.find (fun t => String.eqb (htmlTypeName t) tag) allHtmlTypes.

End SemanticMarkdownAST.

Import SemanticMarkdownAST.

Inductive MetaMode := basic | extended.

(** [overrideElementProcessing] answers a node list, [false] or
    [undefined]. *)
Inductive OverrideResult :=
| OverrideNodes (nodes : list Node)
| OverrideFalse
| OverrideUndefined.

Record DOMParser := mkParser {
  parseFromString : string -> Dom.Document
}.

(** The hooks get the element or node and the indent level; the options
    they are also handed are the ones they are a field of. *)
Record ConversionOptions := mkOptions {
  (* ExtractOptions *)
  websiteDomain : option string;
  includeMetaData : option MetaMode;
  excludeTagNames : option (list string);
  excludeInvisibleElements : bool;
  enableTableColumnTracking : bool;
  overrideElementProcessing : option (Dom.Element -> nat -> OverrideResult);
  processUnhandledElement : option (Dom.Element -> nat -> option (list Node));
  (* RenderOptions *)
  emitFrontMatter : bool;
  overrideNodeRenderer : option (Node -> nat -> option string);
  renderCustomNode : option (Json -> nat -> option string);
  (* ConversionOptions; [refifyUrlsOption] is the option [refifyUrls] *)
  refifyUrlsOption : bool;
  urlMap : option (gmap string string);
  (* convertHtmlToMarkdown *)
  extractMainContent : bool;
  overrideDOMParser : option DOMParser
}.

(** What the core takes from outside: the metadata extractor, the
    serialisation of elements and of JSON values, and the parser of the
    host, if it has one. *)
Record Collaborators := mkCollaborators {
  extractMetaData : Dom.Element -> MetaMode -> MetaContent;
  jsonStringify : Json -> string;
  stringOfAny : Json -> string;
  innerHTML : Dom.Element -> string;
  outerHTML : Dom.Element -> string;
  hostDOMParser : option DOMParser
}.

(* ===================================================================== *)
(** ** A state monad for the code that threads a mutable object *)
(* ===================================================================== *)

Definition State (S A : Type) : Type := S -> A * S.

Definition ret {S A} (a : A) : State S A := fun s => (a, s).

Definition bind {S A B} (c : State S A) (k : A -> State S B) : State S B :=
  fun s => let '(a, s') := c s in k a s'.

Notation "'do' x <- c ; k" := (bind c (fun x => k))
  (at level 10, x name, c at level 100, k at level 200).

Section ForEach.
Context {S A B : Type} (f : A -> State S B).

(** [array.forEach(f)] where [f] updates its argument in place. *)
Fixpoint forEach (l : list A) : State S (list B) :=
  match l with
  | [] => ret []
  | x :: r => fun s =>
      let '(y, s1) := f x s in
      let '(ys, s2) := forEach r s1 in
      (y :: ys, s2)
  end.
End ForEach.

(* ===================================================================== *)
(** ** Exceptions *)
(* ===================================================================== *)

Inductive Exception :=
| Error (message : string)
| TypeError.

(** A call that throws or returns: [inl] is the exception thrown. *)
Definition Throws (A : Type) : Type := Exception + A.

Notation "'attempt' x <- c ; k" :=
  (match c with
   | inl thrown => inl thrown
   | inr x => k
   end)
  (at level 10, x name, c at level 100, k at level 200).

(** [array.map(f)] with a callback that may throw. *)
Fixpoint mapThrows {A B} (f : A -> Throws B) (l : list A) : Throws (list B) :=
  match l with
  | [] => inr []
  | x :: rest =>
      attempt y <- f x ;
      attempt ys <- mapThrows f rest ;
      inr (y :: ys)
  end.

(* ===================================================================== *)
(** ** core/urlUtils.ts *)
(* ===================================================================== *)

Definition mediaSuffixes : list string :=
  ["jpeg"; "jpg"; "png"; "gif"; "bmp"; "tiff"; "tif"; "svg"; "webp"; "ico";
   "avi"; "mov"; "mp4"; "mkv"; "flv"; "wmv"; "webm"; "mpeg"; "mpg"; "mp3";
   "wav"; "aac"; "ogg"; "flac"; "m4a"; "pdf"; "doc"; "docx"; "ppt"; "pptx";
   "xls"; "xlsx"; "txt"; "css"; "js"; "xml"; "json"; "html"; "htm"].

(** [addRefPrefix] returns [prefixesToRefs[prefix]]: the token of the
    prefix, which it assigns when the object has nothing truthy under the
    prefix, or what the object inherits under it. *)
Definition addRefPrefix (prefix : string) : State (gmap string string) Js.Property :=
  fun prefixesToRefs =>
    let assigned :=
      let ref := "ref" +:+ Js.ofNat (size prefixesToRefs) in
      (Js.Own ref, <[prefix := ref]> prefixesToRefs) in
    match Js.getProperty prefixesToRefs prefix with
    | Js.Own ref =>
        if Js.truthy ref then (Js.Own ref, prefixesToRefs) else assigned
    | Js.Inherited key => (Js.Inherited key, prefixesToRefs)
    | Js.Undefined => assigned
    end.

(** The text of what [addRefPrefix] returned.  What is inherited is not a
    string; [processUrl] never gets it, for its prefixes are empty or
    start with [http]. *)
Definition refText (ref : Js.Property) : string :=
  match ref with
  | Js.Own token => token
  | Js.Inherited key =>
      if String.eqb key "__proto__" then "[object Object]"
      else "function " +:+ key +:+ "() { [native code] }"
  | Js.Undefined => "undefined"
  end.

Definition processUrl (url : string) : State (gmap string string) string :=
  if negb (Js.startsWith url "http") then ret url
  else
    let mediaSuffix := Js.lastSlice (Js.split "." url) in
    if match mediaSuffix with
       | s :: _ => Js.truthy s && existsb (String.eqb s) mediaSuffixes
       | [] => false
       end
    then
      let parts := Js.split "/" url in (* Split URL keeping the slash before text *)
      let prefix := Js.join "/" (Js.initSlice parts) in (* Get the prefix by removing last part *)
      do refPrefix <- addRefPrefix prefix ;
      ret (refText refPrefix +:+ "://" +:+ Js.join "" (Js.lastSlice parts))
    else if Nat.ltb 4 (length (Js.split "/" url)) then
      do ref <- addRefPrefix url ;
      ret (refText ref)
    else ret url.

(** [refifyUrls] on one node; the rewritten node stands for the node
    after its fields were assigned. *)
Fixpoint refifyUrlsNode (markdownElement : Node) : State (gmap string string) Node :=
  match markdownElement with
  | link href content =>
      do href' <- processUrl href ;
      do content' <- forEach refifyUrlsNode content ;
      ret (link href' content')
  | image src alt =>
      do src' <- processUrl src ;
      ret (image src' alt)
  | video src poster controls =>
      do src' <- processUrl src ;
      ret (video src' poster controls)
  | list_ ordered items =>
      do items' <- forEach (forEach refifyUrlsNode) items ;
      ret (list_ ordered items')
  | table rows colIds =>
      do rows' <-
        forEach
          (forEach
             (fun cell =>
                match cellContent cell with
                | inl _ => ret cell
                | inr content =>
                    do content' <- forEach refifyUrlsNode content ;
                    ret (mkCell (inr content') (colId cell) (colspan cell)
                           (rowspan cell))
                end))
          rows ;
      ret (table rows' colIds)
  | blockquote content =>
      do content' <- forEach refifyUrlsNode content ;
      ret (blockquote content')
  | semanticHtml htmlType content =>
      do content' <- forEach refifyUrlsNode content ;
      ret (semanticHtml htmlType content')
  | other => ret other
  end.

(** [refifyUrls] on an array of nodes: the nodes after the call, and the
    map it returns. *)
Definition refifyUrls (markdownElement : list Node) (urlMap : gmap string string)
    : list Node * gmap string string :=
  forEach refifyUrlsNode markdownElement urlMap.

(* ===================================================================== *)
(** ** core/htmlToMarkdownAST.ts *)
(* ===================================================================== *)

Definition LF : string := String (ascii_of_nat 10) EmptyString.

Definition DQUOTE : string := String (ascii_of_nat 34) EmptyString.

Definition lineBreak : Node := text LF.

Definition contentBreak : Node := text (LF +:+ LF).

(** A translator pushes onto [result]; it gets the array and gives it
    back, or throws. *)
Definition ElementTranslator : Type :=
  Dom.Element -> list Node -> nat -> Throws (list Node).

Definition isTextNode (node : Dom.Node) : bool :=
  match node with Dom.Text _ => true | _ => false end.

Definition isElement (node : Dom.Node) : bool :=
  match node with Dom.Elem _ _ _ _ => true | _ => false end.

Definition isSlotElement (element : Dom.Element) : bool :=
  String.eqb (Dom.tagName element) "SLOT".

Definition isElementVisible (element : Dom.Element) : bool :=
  if Dom.isHTMLElement element
  then negb (Dom.offsetWidth element =? 0)%Z || negb (Dom.offsetHeight element =? 0)%Z
  else true. (* SVG elements are visible, I guess. *)

Definition formattingTagMap (key : string) : option (string + list Node -> Node) :=
  if String.eqb key "strong" then Some bold
  else if String.eqb key "b" then Some bold
  else if String.eqb key "em" then Some italic
  else if String.eqb key "i" then Some italic
  else if String.eqb key "s" then Some strikethrough
  else None.

(** [colIds[columnIndex]]: an element of the array for an index of it,
    [undefined] for any other number. *)
Definition atIndex {A} (l : list A) (i : Js.number) : option A :=
  match i with
  | Js.Int z => if (z <? 0)%Z then None else l !! Z.to_nat z
  | _ => None
  end.

(** [n > 1 ? n : undefined] *)
Definition spanField (n : Js.number) : option Js.number :=
  if Js.gt n (Js.Int 1) then Some n else None.

(** [cell.getAttribute(name) || '1'] *)
Definition spanAttribute (name : string) (cell : Dom.Element) : string :=
  match Dom.getAttribute name cell with
  | Some v => if Js.truthy v then v else "1"
  | None => "1"
  end.

Section Translators.

Variable options : ConversionOptions.
Variable collaborators : Collaborators.

(** The recursive calls [htmlToMarkdownAST(element, options, indentLevel)]. *)
Variable htmlToMarkdownAST : Dom.Element -> nat -> Throws (list Node).

(** [options?.websiteDomain && s.startsWith(options.websiteDomain)
     ? s.substring(options.websiteDomain.length) : s] *)
Definition stripWebsiteDomain (s : string) : string :=
  match websiteDomain options with
  | Some domain =>
      if Js.truthy domain && Js.startsWith s domain
      then Js.substringFrom (String.length domain) s
      else s
  | None => s
  end.

(** The level of a heading is one of 1 to 6 for the tags that lead
    here. *)
Definition headingTranslator : ElementTranslator :=
  fun headingNode result _ =>
    let level :=
      match Js.parseInt (Js.substringFrom 1 (Dom.tagName headingNode)) with
      | Js.Int z => Z.to_nat z
      | _ => 0
      end in
    attempt content <- htmlToMarkdownAST headingNode 0 ;
    inr (result ++ [heading level (inr content)]).

Definition listTranslator : ElementTranslator :=
  fun listNode result indentLevel =>
    attempt items <-
      mapThrows (fun li => htmlToMarkdownAST li (indentLevel + 1))
        (Dom.children listNode) ;
    inr (result ++ [list_ (String.eqb (Dom.tagName listNode) "OL") items]).

Definition semanticHtmlTranslator : ElementTranslator :=
  fun element result _ =>
    attempt content <- htmlToMarkdownAST element 0 ;
    match htmlTypeOfTag (Js.toLowerCase (Dom.tagName element)) with
    | Some htmlType => inr (result ++ [semanticHtml htmlType content])
    | None => inr result
    end.

Definition formattingTranslator : ElementTranslator :=
  fun element result indentLevel =>
    if Js.truthy (Js.trim (Dom.textContent element)) then
      let key := Js.toLowerCase (Dom.tagName element) in
      attempt content <- htmlToMarkdownAST element (indentLevel + 1) ;
      match formattingTagMap key with
      | Some type => inr (result ++ [type (inr content)])
      | None => inr result
      end
    else inr result.

Definition noop : ElementTranslator := fun _ result _ => inr result.

(* Paragraphs *)
Definition translate_p : ElementTranslator :=
  fun paragraphNode result _ =>
    attempt content <- htmlToMarkdownAST paragraphNode 0 ;
    match content with
    | [] => inr result
    | _ => inr ((result ++ content) ++ [contentBreak])
    end.

(* Links *)
Definition translate_a : ElementTranslator :=
  fun linkNode result _ =>
    (* Check if the href is a data URL for an image *)
    if match Dom.href linkNode with
       | Some h => Js.startsWith h "data:image"
       | None => false
       end
    then
      (* If it's a data URL for an image, skip this link *)
      attempt content <- htmlToMarkdownAST linkNode 0 ;
      inr (result ++ [link "-" content])
    else
      (* Process the link as usual *)
      let href :=
        match Dom.href linkNode with
        | Some h => stripWebsiteDomain h
        | None => "#" (* Use a default value when href is not a string *)
        end in
      (* if all children are text, *)
      if forallb isTextNode (Dom.childNodes linkNode) then
        inr (result ++ [link href [text (Js.trim (Dom.textContent linkNode))]])
      else
        attempt content <- htmlToMarkdownAST linkNode 0 ;
        match content with
        | [] => inr result
        | _ => inr (result ++ [link href content])
        end.

(* Images *)
Definition translate_img : ElementTranslator :=
  fun imageNode result _ =>
    if Js.startsWith (Dom.src imageNode) "data:image" then
      inr (result ++
           [image "-" (Some (escapeMarkdownCharacters (Dom.alt imageNode) false))])
    else
      let src := stripWebsiteDomain (Dom.src imageNode) in
      inr (result ++
           [image src (Some (escapeMarkdownCharacters (Dom.alt imageNode) false))]).

(* Videos *)
Definition translate_video : ElementTranslator :=
  fun videoNode result _ =>
    inr (result ++
         [video (Dom.src videoNode)
            (Some (escapeMarkdownCharacters (Dom.poster videoNode) false))
            (Some (Dom.controls videoNode))]).

(* Line breaks *)
Definition translate_br : ElementTranslator :=
  fun _ result _ => inr (result ++ [lineBreak]).

(* Content breaks *)
Definition translate_hr : ElementTranslator :=
  fun _ result _ => inr (result ++ [contentBreak]).

(** The cells of one row; [columnIndex] runs along the row. *)
Fixpoint tableCells (colIds : list string) (indentLevel : nat)
    (columnIndex : Js.number) (cells : list Dom.Element)
    : Throws (list (TableCellNode Node)) :=
  match cells with
  | [] => inr []
  | cell :: rest =>
      let colspan := Js.parseInt (spanAttribute "colspan" cell) in
      let rowspan := Js.parseInt (spanAttribute "rowspan" cell) in
      attempt content <-
        (if isTextNode (Dom.ofElement cell)
         then inr (inl (escapeMarkdownCharacters (Js.trim (Dom.textContent cell)) false))
         else
           attempt nodes <- htmlToMarkdownAST cell (indentLevel + 1) ;
           inr (inr nodes)) ;
      let cellNode :=
        mkCell content (atIndex colIds columnIndex) (spanField colspan)
          (spanField rowspan) in
      attempt more <-
        tableCells colIds indentLevel (Js.add columnIndex colspan) rest ;
      inr (cellNode :: more)
  end.

(** [rows.splice(1, 0, row)] *)
Definition splice1 {A} (rows : list A) (row : A) : list A :=
  match rows with
  | [] => [row]
  | first :: rest => first :: row :: rest
  end.

(* Tables *)
Definition translate_table : ElementTranslator :=
  fun tableNode result indentLevel =>
    let colIds :=
      if enableTableColumnTracking options then
        (* Generate unique column IDs *)
        let headerCells := Dom.querySelectorAll ["th"; "td"] tableNode in
        imap (fun index _ => "col-" +:+ Js.ofNat index) headerCells
      else [] in
    let tableRows := Dom.querySelectorAll ["tr"] tableNode in
    attempt markdownTableRows <-
      mapThrows
        (fun row =>
           tableCells colIds indentLevel (Js.Int 0)
             (Dom.querySelectorAll ["th"; "td"] row))
        tableRows ;
    let markdownTableRows :=
      match tableRows with
      | [] => markdownTableRows
      | row0 :: _ =>
          (* Check if the first row contains header cells *)
          let hasHeaders :=
            match Dom.querySelector ["th"] row0 with
            | Some _ => true
            | None => false
            end in
          if hasHeaders then
            (* Create a header separator row *)
            let headerSeparatorCells :=
              List.map (fun _ => mkCell (inl "---") None None None)
                (Dom.querySelectorAll ["th"; "td"] row0) in
            splice1 markdownTableRows headerSeparatorCells
          else markdownTableRows
      end in
    inr (result ++ [table markdownTableRows (Some colIds)]).

(* Quotations *)
Definition translate_blockquote : ElementTranslator :=
  fun quoteNode result _ =>
    attempt content <- htmlToMarkdownAST quoteNode 0 ;
    inr (result ++ [blockquote content]).

(* Code blocks *)
Definition translate_code : ElementTranslator :=
  fun codeNode result _ =>
    let content := Js.trim (Dom.textContent codeNode) in
    if negb (Js.truthy content) then inr result
    else
      let language :=
        match List.find (fun className => Js.startsWith className "language-")
                (Dom.classList codeNode) with
        | Some className => Some (Js.removeFirst "language-" className)
        | None => None
        end in
      inr (result ++
           [code language content
              (* Handling inline code differently *)
              (match Dom.parentNodeName codeNode with
               | Some name => negb (String.eqb name "PRE")
               | None => true
               end)]).

(** The table of translators: the properties of the object literal.  Its
    keys are lower-case tag names. *)
Definition translators : list (string * ElementTranslator) :=
  [ ("p", translate_p);
    ("a", translate_a);
    ("img", translate_img);
    ("video", translate_video);
    ("br", translate_br);
    ("hr", translate_hr);
    ("table", translate_table);
    ("blockquote", translate_blockquote);
    ("code", translate_code);
    (* Headings *)
    ("h1", headingTranslator); ("h2", headingTranslator);
    ("h3", headingTranslator); ("h4", headingTranslator);
    ("h5", headingTranslator); ("h6", headingTranslator);
    (* Lists *)
    ("ul", listTranslator); ("ol", listTranslator);
    (* Text formatting *)
    ("strong", formattingTranslator); ("b", formattingTranslator);
    ("em", formattingTranslator); ("i", formattingTranslator);
    ("s", formattingTranslator);
    (* Semantic HTML elements *)
    ("article", semanticHtmlTranslator); ("aside", semanticHtmlTranslator);
    ("details", semanticHtmlTranslator); ("figcaption", semanticHtmlTranslator);
    ("figure", semanticHtmlTranslator); ("footer", semanticHtmlTranslator);
    ("header", semanticHtmlTranslator); ("main", semanticHtmlTranslator);
    ("mark", semanticHtmlTranslator); ("nav", semanticHtmlTranslator);
    ("section", semanticHtmlTranslator); ("summary", semanticHtmlTranslator);
    ("time", semanticHtmlTranslator);
    (* Ignored elements *)
    ("noscript", noop); ("script", noop); ("style", noop); ("html", noop) ].

(** What [translators[tagName]] is when it is truthy: a function, or a
    value that cannot be called. *)
Inductive TableEntry :=
| Callable (translator : ElementTranslator)
| NotCallable.

(** [translators[tagName]] for a tag name in lower case: a property of
    the table, or one that the table inherits as an object.  Of the names
    of [Js.objectPrototypeKeys] two are in lower case: under
    [constructor] the table finds [Object], whose call returns and pushes
    nothing, and under [__proto__] its prototype, which is no function. *)
Definition lookupTranslator (tagName : string) : option TableEntry :=
  match List.find (fun entry => String.eqb (fst entry) tagName) translators with
  | Some entry => Some (Callable (snd entry))
  | None =>
      if String.eqb tagName "constructor" then Some (Callable noop)
      else if String.eqb tagName "__proto__" then Some NotCallable
      else None
  end.

(** What [processChild] does with an element that is not a slot. *)
Definition processElement (indentLevel : nat) (child : Dom.Element)
    (result : list Node) : Throws (list Node) :=
  let overrideResult :=
    match overrideElementProcessing options with
    | Some hook => hook child indentLevel
    | None => OverrideUndefined
    end in
  match overrideResult with
  | OverrideNodes nodes => inr (result ++ nodes)
  | OverrideFalse => inr result
  | OverrideUndefined =>
      let tagName := Js.toLowerCase (Dom.tagName child) in
      if match excludeTagNames options with
         | Some names => existsb (String.eqb tagName) names
         | None => false
         end
      then inr result
      else
        match (if String.eqb tagName "head" then includeMetaData options else None) with
        | Some mode =>
            let metaData := extractMetaData collaborators child mode in
            inr (result ++ [meta metaData])
        | None =>
            if excludeInvisibleElements options && negb (isElementVisible child)
            then inr result
            else
              match lookupTranslator tagName with
              | Some (Callable translator) => translator child result indentLevel
              | Some NotCallable =>
                  (* translator is not a function *)
                  inl TypeError
              | None =>
                  match
                    match processUnhandledElement options with
                    | Some hook => hook child indentLevel
                    | None => None
                    end
                  with
                  | Some unhandledElementProcessing =>
                      inr (result ++ unhandledElementProcessing)
                  | None =>
                      attempt nodes <- htmlToMarkdownAST child (indentLevel + 1) ;
                      inr (result ++ nodes)
                  end
              end
        end
  end.

(** [processChild]; the assigned nodes of a slot are processed in its
    place. *)
Fixpoint processChild (indentLevel : nat) (child : Dom.Node)
    (result : list Node) : Throws (list Node) :=
  match child with
  | Dom.Text data =>
      let textContent := escapeMarkdownCharacters (Js.trim data) false in
      if Js.truthy textContent then inr (result ++ [text textContent])
      else inr result
  | Dom.Other => inr result
  | Dom.Elem d sh asg ch =>
      let element := Dom.mkElement d sh asg ch in
      if isSlotElement element then
        (fix forEachAssigned (l : list Dom.Node) (result : list Node)
           : Throws (list Node) :=
           match l with
           | [] => inr result
           | c :: r =>
               attempt result <- processChild indentLevel c result ;
               forEachAssigned r result
           end) asg result
      else processElement indentLevel element result
  end.

(** [childNodes.forEach(processChild)] *)
Fixpoint forEachChild (indentLevel : nat) (childNodes : list Dom.Node)
    (result : list Node) : Throws (list Node) :=
  match childNodes with
  | [] => inr result
  | child :: rest =>
      attempt result <- processChild indentLevel child result ;
      forEachChild indentLevel rest result
  end.

(** The body of [htmlToMarkdownAST], given its recursive calls. *)
Definition htmlToMarkdownAST_body (element : Dom.Element) (indentLevel : nat)
    : Throws (list Node) :=
  let childNodes :=
    match Dom.shadowRoot element with
    | Some shadowChildNodes => shadowChildNodes
    | None => Dom.childNodes element
    end in
  forEachChild indentLevel childNodes [].

End Translators.

(** The nesting depth of a node, through child nodes, shadow roots and
    assigned nodes. *)
Fixpoint nodeHeight (n : Dom.Node) : nat :=
  match n with
  | Dom.Elem _ sh asg ch =>
      let all :=
        fix all (l : list Dom.Node) : nat :=
          match l with
          | [] => 0
          | c :: r => Nat.max (nodeHeight c) (all r)
          end in
      S (Nat.max (match sh with Some l => all l | None => 0 end)
           (Nat.max (all asg) (all ch)))
  | _ => 0
  end.

(** [htmlToMarkdownAST] with a bound on the depth of its recursion. *)
Fixpoint htmlToMarkdownAST_fuel (fuel : nat) (collaborators : Collaborators)
    (options : ConversionOptions) (element : Dom.Element) (indentLevel : nat)
    : Throws (list Node) :=
  match fuel with
  | O => inr []
  | S fuel' =>
      htmlToMarkdownAST_body options collaborators
        (htmlToMarkdownAST_fuel fuel' collaborators options) element indentLevel
  end.

(** The recursion goes from an element to elements below it, so the height
    of the element bounds its depth. *)
Definition htmlToMarkdownAST (collaborators : Collaborators)
    (element : Dom.Element) (options : ConversionOptions) (indentLevel : nat)
    : Throws (list Node) :=
  htmlToMarkdownAST_fuel (nodeHeight (Dom.ofElement element)) collaborators
    options element indentLevel.

(* ===================================================================== *)
(** ** core/astUtils.ts: [findInAST] *)
(* ===================================================================== *)

Section FindInAST.

Variable checker : Node -> bool.

Fixpoint findInASTNode (markdownElement : Node) : option Node :=
  let loopCheck :=
    fix loopCheck (z : list Node) : option Node :=
      match z with
      | [] => None
      | element :: rest =>
          match findInASTNode element with
          | Some found => Some found
          | None => loopCheck rest
          end
      end in
  if checker markdownElement then Some markdownElement
  else
    match markdownElement with
    | link _ content => loopCheck content
    | list_ _ items =>
        (fix inItems (l : list (list Node)) : option Node :=
           match l with
           | [] => None
           | item :: rest =>
               match loopCheck item with
               | Some found => Some found
               | None => inItems rest
               end
           end) items
    | table rows _ =>
        (fix inRows (l : list (list (TableCellNode Node))) : option Node :=
           match l with
           | [] => None
           | row :: rest =>
               match
                 (fix inCells (cells : list (TableCellNode Node)) : option Node :=
                    match cells with
                    | [] => None
                    | cell :: more =>
                        match
                          match cellContent cell with
                          | inl _ => None
                          | inr content => loopCheck content
                          end
                        with
                        | Some found => Some found
                        | None => inCells more
                        end
                    end) row
               with
               | Some found => Some found
               | None => inRows rest
               end
           end) rows
    | blockquote content => loopCheck content
    | semanticHtml _ content => loopCheck content
    | _ => None
    end.

Fixpoint findInAST (markdownElement : list Node) : option Node :=
  match markdownElement with
  | [] => None
  | element :: rest =>
      match findInASTNode element with
      | Some found => Some found
      | None => findInAST rest
      end
  end.

End FindInAST.

(* ===================================================================== *)
(** ** core/markdownASTToString.ts *)
(* ===================================================================== *)

Module Uri.

Definition hexDigit (n : nat) : ascii :=
  ascii_of_nat (if Nat.ltb n 10 then 48 + n else 55 + n).

Definition percent (byte : nat) : string :=
  String "%" (String (hexDigit (byte / 16)) (String (hexDigit (byte mod 16)) EmptyString)).

(** The characters [encodeURI] keeps: letters, digits and
    [; , / ? : @ & = + $ - _ . ! ~ * ' ( ) #]. *)
Definition isKept (c : ascii) : bool :=
  let n := nat_of_ascii c in
  (Nat.leb 65 n && Nat.leb n 90) || (Nat.leb 97 n && Nat.leb n 122)
  || (Nat.leb 48 n && Nat.leb n 57)
  || existsb (Ascii.eqb c) (list_ascii_of_string ";,/?:@&=+$-_.!~*'()#").

(** [encodeURI]: the other code units go as the bytes of their UTF-8
    form. *)
Fixpoint encodeURI (s : string) : string :=
  match s with
  | EmptyString => EmptyString
  | String c r =>
      let n := nat_of_ascii c in
      (if isKept c then String c EmptyString
       else if Nat.ltb n 128 then percent n
       else percent (192 + n / 64) +:+ percent (128 + n mod 64))
      +:+ encodeURI r
  end.

End Uri.

Definition isPunctuation (c : ascii) : bool :=
  existsb (Ascii.eqb c) (list_ascii_of_string ".,!?;:").

(** The blank put between the output so far and an inline node. *)
Definition inlineSeparator (markdownString content : string) : string :=
  let isMarkdownStringNotEmpty := Nat.ltb 0 (String.length markdownString) in
  let isFirstCharOfContentWhitespace := Js.testWhiteSpace (Js.charAt0 content) in
  let isLastCharOfMarkdownWhitespace := Js.testWhiteSpace (Js.sliceLast markdownString) in
  let isContentPunctuation :=
    match content with
    | String c EmptyString => isPunctuation c
    | _ => false
    end in
  if isMarkdownStringNotEmpty && negb isContentPunctuation
     && negb isFirstCharOfContentWhitespace && negb isLastCharOfMarkdownWhitespace
  then " " else "".

(** [cell.colspan || 1] *)
Definition colspanOr1 {N} (cell : TableCellNode N) : Js.number :=
  match colspan cell with
  | Some c => if Js.truthyNumber c then c else Js.Int 1
  | None => Js.Int 1
  end.

(** [row.cells.reduce((sum, cell) => sum + (cell.colspan || 1), 0)] *)
Definition sumColspans {N} (row : list (TableCellNode N)) : Js.number :=
  fold_left (fun sum cell => Js.add sum (colspanOr1 cell)) row (Js.Int 0).

Definition computeMaxColumns {N} (rows : list (list (TableCellNode N))) : Js.number :=
  Js.max (List.map sumColspans rows).

(** The turns of a loop of the renderer.  A loop that does not end gives
    no output; it counts for no turn here. *)
Definition loopTurns (from to : Js.number) : nat :=
  match Js.turns from to with
  | Some n => n
  | None => 0
  end.

(** What a cell appends: [| content ] and one empty cell [| ] for each
    turn of [for (let i = 1; i < (cell.colspan || 1); i++)]. *)
Definition cellChunks {N} (renderedContent : string) (cell : TableCellNode N)
    : list string :=
  let cellContent := renderedContent in
  let cellContent :=
    match colId cell with
    | Some c => if Js.truthy c then cellContent +:+ " <!-- " +:+ c +:+ " -->" else cellContent
    | None => cellContent
    end in
  let cellContent :=
    match colspan cell with
    | Some c =>
        if Js.gt c (Js.Int 1)
        then cellContent +:+ " <!-- colspan: " +:+ Js.ofNumber c +:+ " -->"
        else cellContent
    | None => cellContent
    end in
  let cellContent :=
    match rowspan cell with
    | Some r =>
        if Js.gt r (Js.Int 1)
        then cellContent +:+ " <!-- rowspan: " +:+ Js.ofNumber r +:+ " -->"
        else cellContent
    | None => cellContent
    end in
  ("| " +:+ cellContent +:+ " ")
  :: List.repeat "| " (loopTurns (Js.Int 1) (colspanOr1 cell)).

(** The cells of a row as they are appended, with the ones that fill the
    remaining columns: [while (currentColumn < maxColumns)]. *)
Definition rowChunks {N} (maxColumns : Js.number)
    (cells : list (string * TableCellNode N)) : list string :=
  let currentColumn :=
    fold_left (fun currentColumn rc => Js.add currentColumn (colspanOr1 (snd rc)))
      cells (Js.Int 0) in
  flat_map (fun rc => cellChunks (fst rc) (snd rc)) cells
  ++ List.repeat "|  " (loopTurns currentColumn maxColumns).

Definition concatStrings (l : list string) : string :=
  fold_right String.append EmptyString l.

Section Renderer.

Variable options : ConversionOptions.

Definition nodeRenderingOverride (node : Node) (indentLevel : nat) : option string :=
  match overrideNodeRenderer options with
  | Some hook =>
      match hook node indentLevel with
      | Some s => if Js.truthy s then Some s else None
      | None => None
      end
  | None => None
  end.

(** One turn of [nodes.forEach] in [markdownContentASTToString]: the
    output so far goes in and comes out. *)
Fixpoint renderNode (node : Node) (indentLevel : nat) (markdownString : string)
    {struct node} : string :=
  let markdownContentASTToString :=
    fun (nodes : list Node) (indentLevel : nat) =>
      fold_left (fun acc n => renderNode n indentLevel acc) nodes EmptyString in
  let indent := Js.repeat " " (indentLevel * 2) in
  match nodeRenderingOverride node indentLevel with
  | Some override => markdownString +:+ override
  | None =>
      let inline (content : string) (wrap : string -> string) :=
        markdownString +:+ inlineSeparator markdownString content +:+ wrap content in
      let contentOf (c : string + list Node) :=
        match c with
        | inl s => s
        | inr l => markdownContentASTToString l indentLevel
        end in
      match node with
      | text content => inline content (fun c => indent +:+ c)
      | bold content => inline (contentOf content) (fun c => "**" +:+ c +:+ "**")
      | italic content => inline (contentOf content) (fun c => "*" +:+ c +:+ "*")
      | strikethrough content =>
          inline (contentOf content) (fun c => "~~" +:+ c +:+ "~~")
      | link href content =>
          inline (markdownContentASTToString content indentLevel)
            (fun c =>
               (* check if the link contains only text *)
               match content with
               | [text _] =>
                   (* use native markdown syntax for text-only links *)
                   "[" +:+ c +:+ "](" +:+ Uri.encodeURI href +:+ ")"
               | _ =>
                   (* Use HTML <a> tag for links with rich content *)
                   "<a href=" +:+ DQUOTE +:+ href +:+ DQUOTE +:+ ">" +:+ c +:+ "</a>"
               end)
      | heading level content =>
          let isEndsWithNewLine := String.eqb (Js.sliceLast markdownString) LF in
          let markdownString :=
            if isEndsWithNewLine then markdownString else markdownString +:+ LF in
          markdownString +:+ Js.repeat "#" level +:+ " " +:+ contentOf content
            +:+ LF +:+ LF
      | image src alt =>
          let altText := match alt with Some a => a | None => EmptyString end in
          if negb (Js.truthy (Js.trim altText)) || Js.truthy (Js.trim src)
          then markdownString +:+ "![" +:+ altText +:+ "](" +:+ src +:+ ")"
          else markdownString
      | list_ ordered items =>
          snd
            (fold_left
               (fun '(i, markdownString) item =>
                  let listItemPrefix := if ordered then Js.ofNat (i + 1) +:+ "." else "-" in
                  let contents :=
                    Js.trim (markdownContentASTToString item (indentLevel + 1)) in
                  let markdownString :=
                    if String.eqb (Js.sliceLast markdownString) LF
                    then markdownString else markdownString +:+ LF in
                  (S i,
                   if Js.truthy contents
                   then markdownString +:+ indent +:+ listItemPrefix +:+ " "
                          +:+ contents +:+ LF
                   else markdownString))
               items (0, markdownString))
          +:+ LF
      | video src poster controls =>
          let markdownString := markdownString +:+ LF +:+ "![Video](" +:+ src +:+ ")" +:+ LF in
          let markdownString :=
            match poster with
            | Some p =>
                if Js.truthy p
                then markdownString +:+ "![Poster](" +:+ p +:+ ")" +:+ LF
                else markdownString
            | None => markdownString
            end in
          let markdownString :=
            match controls with
            | Some true => markdownString +:+ "Controls: " +:+ Js.ofBool true +:+ LF
            | _ => markdownString
            end in
          markdownString +:+ LF
      | table rows _ =>
          let maxColumns := computeMaxColumns rows in
          fold_left
            (fun markdownString row =>
               let rendered :=
                 List.map
                   (fun cell =>
                      (match cellContent cell with
                       | inl s => s
                       | inr l => Js.trim (markdownContentASTToString l (indentLevel + 1))
                       end, cell))
                   row in
               markdownString +:+ concatStrings (rowChunks maxColumns rendered)
                 +:+ "|" +:+ LF)
            rows markdownString
          +:+ LF
      | code language content inline_ =>
          if inline_ then
            let isLastWhitespace := Js.testWhiteSpace (Js.sliceLast markdownString) in
            let markdownString :=
              if isLastWhitespace then markdownString else markdownString +:+ " " in
            markdownString +:+ "`" +:+ content +:+ "`"
          else
            (* For code blocks, we do not escape characters and preserve formatting *)
            markdownString +:+ LF +:+ "```"
              +:+ match language with Some l => l | None => EmptyString end +:+ LF
              +:+ content +:+ LF
              +:+ "```" +:+ LF +:+ LF
      | blockquote content =>
          markdownString +:+ "> " +:+ Js.trim (markdownContentASTToString content 0)
            +:+ LF +:+ LF
      | meta _ =>
          (* already handled *)
          markdownString
      | semanticHtml htmlType content =>
          match htmlType with
          | article =>
              markdownString +:+ LF +:+ LF +:+ markdownContentASTToString content 0
          | section =>
              markdownString +:+ "---" +:+ LF +:+ LF
                +:+ markdownContentASTToString content 0
                +:+ LF +:+ LF +:+ "---" +:+ LF +:+ LF
          | _ =>
              markdownString
                +:+ LF +:+ LF +:+ "<-" +:+ htmlTypeName htmlType +:+ "->" +:+ LF
                +:+ markdownContentASTToString content 0
                +:+ LF +:+ LF +:+ "</-" +:+ htmlTypeName htmlType +:+ "->" +:+ LF
          end
      | custom content =>
          match
            match renderCustomNode options with
            | Some hook => hook content indentLevel
            | None => None
            end
          with
          | Some customNodeRendering => markdownString +:+ customNodeRendering
          | None => markdownString
          end
      end
  end.

Definition markdownContentASTToString (nodes : list Node) (indentLevel : nat)
    : string :=
  fold_left (fun markdownString node => renderNode node indentLevel markdownString)
    nodes EmptyString.

End Renderer.

Definition isMeta (node : Node) : bool :=
  match node with meta _ => true | _ => false end.

Section FrontMatter.

Variable collaborators : Collaborators.
Variable options : ConversionOptions.

Definition entriesToString (indent : string) (entries : list (string * string)) : string :=
  fold_left
    (fun markdownString '(key, value) =>
       markdownString +:+ indent +:+ key +:+ ": "
         +:+ jsonStringify collaborators (JString value) +:+ LF)
    entries EmptyString.

Definition lookupField (key : string) (fields : list (string * Json)) : option Json :=
  snd <$> List.find (fun kv => String.eqb (fst kv) key) fields.

Definition jsonLdToString (object : list (string * Json)) : string :=
  let jldType :=
    match lookupField "@type" object with
    | Some JNull | None => "(unknown type)"
    | Some v => stringOfAny collaborators v
    end in
  let semanticData :=
    List.filter
      (fun kv => negb (String.eqb (fst kv) "@context" || String.eqb (fst kv) "@type"))
      object in
  "  " +:+ jldType +:+ ":" +:+ LF
  +:+ fold_left
        (fun markdownString '(key, value) =>
           markdownString +:+ "    " +:+ key +:+ ": "
             +:+ jsonStringify collaborators value +:+ LF)
        semanticData EmptyString.

Definition markdownMetaASTToString (nodes : list Node) : string :=
  if emitFrontMatter options then
    let markdownString :=
      match findInAST isMeta nodes with
      | Some (meta content) =>
          let s1 :=
            match standard content with
            | Some entries => entriesToString "" entries
            | None => EmptyString
            end in
          let s2 :=
            match openGraph content with
            | Some entries => "openGraph:" +:+ LF +:+ entriesToString "  " entries
            | None => EmptyString
            end in
          let s3 :=
            match twitter content with
            | Some entries => "twitter:" +:+ LF +:+ entriesToString "  " entries
            | None => EmptyString
            end in
          let s4 :=
            match jsonLd content with
            | Some objects =>
                "schema:" +:+ LF +:+ concatStrings (List.map jsonLdToString objects)
            | None => EmptyString
            end in
          s1 +:+ s2 +:+ s3 +:+ s4
      | _ => EmptyString
      end in
    if Nat.ltb 0 (String.length markdownString)
    then "---" +:+ LF +:+ markdownString +:+ "---" +:+ LF +:+ LF
    else markdownString
  else EmptyString.

Definition markdownASTToString (nodes : list Node) (indentLevel : nat) : string :=
  markdownMetaASTToString nodes
  +:+ markdownContentASTToString options nodes indentLevel.

End FrontMatter.

(* ===================================================================== *)
(** ** index.ts *)
(* ===================================================================== *)

(** [convertElementToMarkdown] returns the Markdown; [options.urlMap] is
    assigned on the way when URLs are refified, and comes back with it.
    When the translation throws, nothing was assigned. *)
Definition convertElementToMarkdown (collaborators : Collaborators)
    (element : Dom.Element) (options : ConversionOptions)
    : Throws (string * option (gmap string string)) :=
  attempt ast <- htmlToMarkdownAST collaborators element options 0 ;
  let '(ast, urlMap') :=
    if refifyUrlsOption options then
      let '(ast', m) :=
        refifyUrls ast (match urlMap options with Some m => m | None => ∅ end) in
      (ast', Some m)
    else (ast, urlMap options) in
  inr (markdownASTToString collaborators options ast 0, urlMap').

(** What a call does to the outside: the strings it hands to a parser,
    each with the parser that gets it. *)
Inductive Event :=
| ParseFromString (parser : DOMParser) (html : string).

Record Outcome (A : Type) := mkOutcome {
  events : list Event;
  completion : Exception + A
}.
Arguments mkOutcome {A}.
Arguments events {A}.
Arguments completion {A}.

(** [doc.head]: the head child of the root element. *)
Definition documentHead (doc : Dom.Document) : option Dom.Element :=
  List.find (Dom.hasTag ["head"]) (Dom.children (Dom.documentElement doc)).

(** [!!doc.querySelector('head')?.innerHTML] *)
Definition headHasContent (collaborators : Collaborators) (doc : Dom.Document) : bool :=
  match documentQuerySelector ["head"] doc with
  | Some head => Js.truthy (innerHTML collaborators head)
  | None => false
  end.

Definition hasIncludeMetaData (options : ConversionOptions) : bool :=
  match includeMetaData options with Some _ => true | None => false end.

Definition convertHtmlToMarkdown (collaborators : Collaborators) (html : string)
    (options : ConversionOptions)
    : Outcome (string * option (gmap string string)) :=
  let parser :=
    match overrideDOMParser options with
    | Some p => Some p
    | None => hostDOMParser collaborators
    end in
  match parser with
  | None =>
      mkOutcome []
        (inl (Error "DOMParser is not available. Please provide an overrideDOMParser in options."))
  | Some parser =>
      let doc := parseFromString parser html in
      let events := [ParseFromString parser html] in
      if extractMainContent options then
        let element := findMainContent doc in
        if hasIncludeMetaData options && headHasContent collaborators doc
           && negb (match Dom.querySelector ["head"] element with
                    | Some _ => true | None => false end)
        then
          (* content container was found and extracted, re-attaching the head
             for meta-data extraction *)
          match documentHead doc with
          | None => mkOutcome events (inl TypeError)
          | Some head =>
              let html' :=
                "<html>" +:+ outerHTML collaborators head
                  +:+ outerHTML collaborators element in
              let element := Dom.documentElement (parseFromString parser html') in
              mkOutcome (events ++ [ParseFromString parser html'])
                (convertElementToMarkdown collaborators element options)
          end
        else
          mkOutcome events
            (convertElementToMarkdown collaborators element options)
      else
        (* If there's a body, use it; otherwise, use the document element *)
        let element :=
          if hasIncludeMetaData options && headHasContent collaborators doc
          then Dom.documentElement doc
          else match Dom.body doc with
               | Some body => Dom.refElement body
               | None => Dom.documentElement doc
               end in
        mkOutcome events
          (convertElementToMarkdown collaborators element options)
  end.

(* ===================================================================== *)
(** * Specification vocabulary *)
(* ===================================================================== *)

Definition whitespaceOnly (s : string) : bool :=
  forallb Js.isWhiteSpace (list_ascii_of_string s).

Definition isHtmlSpecial (c : ascii) : bool :=
  Ascii.eqb c "&" || Ascii.eqb c "<" || Ascii.eqb c ">".

Definition isEscapable (c : ascii) : bool := isHtmlSpecial c || isMarkdownSpecial c.

Definition escapeChar (c : ascii) : string :=
  if Ascii.eqb c "&" then "&amp;"
  else if Ascii.eqb c "<" then "&lt;"
  else if Ascii.eqb c ">" then "&gt;"
  else if isMarkdownSpecial c then String "\" (String c EmptyString)
  else String c EmptyString.

Fixpoint escapeEach (s : string) : string :=
  match s with
  | EmptyString => EmptyString
  | String c r => escapeChar c +:+ escapeEach r
  end.

Definition escapeInOrder (text : string) : string :=
  backslashEscape
    (Js.replaceAll ">" "&gt;" (Js.replaceAll "<" "&lt;" (Js.replaceAll "&" "&amp;" text))).

(** *** The escaping rule, in the words of the specification *)

Module EscapingRule.

(** The characters that get a backslash:
    [\ ` * _ { } [ ] # + ! |]. *)
Definition backslashed : list ascii :=
  ["\"; "`"; "*"; "_"; "{"; "}"; "["; "]"; "#"; "+"; "!"; "|"]%char.

(** White space: TAB, LF, VT, FF, CR, SPACE and NBSP. *)
Definition blanks : list ascii :=
  List.map ascii_of_nat [9; 10; 11; 12; 13; 32; 160].

Definition isBackslashed (c : ascii) : bool := existsb (Ascii.eqb c) backslashed.

Definition onlyBlanks (s : string) : bool :=
  forallb (fun c => existsb (Ascii.eqb c) blanks) (list_ascii_of_string s).

(** One pass over the text: each occurrence of [c] is replaced. *)
Fixpoint substitute (c : ascii) (replacement : string) (s : string) : string :=
  match s with
  | EmptyString => EmptyString
  | String x r =>
      (if Ascii.eqb x c then replacement else String x EmptyString)
      +:+ substitute c replacement r
  end.

(** One pass over the text: each of the listed characters gets a
    backslash in front of it. *)
Fixpoint backslash (s : string) : string :=
  match s with
  | EmptyString => EmptyString
  | String x r =>
      (if isBackslashed x then String "\" (String x EmptyString)
       else String x EmptyString)
      +:+ backslash r
  end.

(** The passes in the order of the rule: the ampersand first, then the
    angle brackets, then the backslashes. *)
Definition inOrder (text : string) : string :=
  backslash
    (substitute ">" "&gt;" (substitute "<" "&lt;" (substitute "&" "&amp;" text))).

(** What the rule makes of the text. *)
Definition escaped (text : string) (isInlineCode : bool) : string :=
  if isInlineCode || onlyBlanks text then text else inOrder text.

(** What the passes together make of one character of the text. *)
Definition rewritten (c : ascii) : string :=
  if Ascii.eqb c "&" then "&amp;"
  else if Ascii.eqb c "<" then "&lt;"
  else if Ascii.eqb c ">" then "&gt;"
  else if isBackslashed c then String "\" (String c EmptyString)
  else String c EmptyString.

Fixpoint eachRewritten (s : string) : string :=
  match s with
  | EmptyString => EmptyString
  | String c r => rewritten c +:+ eachRewritten r
  end.

End EscapingRule.


(** No character of the string is one that escaping rewrites. *)
Definition noEscapable (s : string) : bool :=
  forallb (fun c => negb (isEscapable c)) (list_ascii_of_string s).

(** The number of words of the vocabulary that the id/class check finds. *)
Definition highImpactMatches (element : Dom.Element) : nat :=
  length (List.filter (highImpactAttributeHit element) highImpactAttributes).

(** The contributions of the other heuristics to the score. *)
Definition tagContribution (element : Dom.Element) : Z :=
  if existsb (String.eqb (Js.toLowerCase (Dom.tagName element))) highImpactTags
  then 5%Z else 0%Z.

Definition paragraphContribution (element : Dom.Element) : Z :=
  Z.min (Z.of_nat (length (Dom.getElementsByTagName "p" element))) 5.

Definition textContribution (element : Dom.Element) : Z :=
  let textContentLength :=
    Z.of_nat (String.length (Js.trim (Dom.textContent element))) in
  if (textContentLength >? 200)%Z then Z.min (textContentLength / 200) 5 else 0%Z.

Definition linkDensityContribution (element : Dom.Element) : Z :=
  if densityBelow3Tenths (calculateLinkDensity element) then 5%Z else 0%Z.

Definition dataAttributeContribution (element : Dom.Element) : Z :=
  if Dom.hasAttribute "data-main" element || Dom.hasAttribute "data-content" element
  then 10%Z else 0%Z.

Definition roleContribution (element : Dom.Element) : Z :=
  match Dom.getAttribute "role" element with
  | Some role => if Js.includes role "main" then 10%Z else 0%Z
  | None => 0%Z
  end.

Definition otherContributions (element : Dom.Element) : Z :=
  (tagContribution element + paragraphContribution element
   + textContribution element + linkDensityContribution element
   + dataAttributeContribution element + roleContribution element)%Z.

(** The comparator of a sort by descending key, and its outcome. *)
Definition descendingCmp {A} (key : A -> Z) (a b : A) : Z := (key b - key a)%Z.

Definition isDescending {A} (key : A -> Z) (l : list A) : Prop :=
  StronglySorted (fun a b => (key b <= key a)%Z) l.

(** The score of the element a reference leads to. *)
Definition scoreOf (c : Dom.ElementRef) : Z := calculateScore c.

(** Two references are the same element. *)
Definition sameElement (a b : Dom.ElementRef) : bool :=
  bool_decide (Dom.refPath a = Dom.refPath b).

(** A candidate is independent when it is not a descendant of another
    candidate of the set. *)
Definition isIndependent (candidates : list Dom.ElementRef) (c : Dom.ElementRef) : bool :=
  negb (existsb (fun other => negb (sameElement other c) && Dom.contains other c)
          candidates).

(** Modelled on the words of the specification: the highest-scoring
    candidate among the independent ones. *)
Definition bestIndependentCandidate (candidates : list Dom.ElementRef)
    : option Dom.ElementRef :=
  head (List.filter (isIndependent candidates)
          (Js_Array.sort byDescendingScore candidates)).

(** *** Sample documents *)

Module Sample.

Definition data (tag id : string) (classes : list string)
    (attributes : list (string * string)) : Dom.ElementData :=
  Dom.mkData tag id classes attributes None "" "" "" false true 10 10 None.

Definition element (tag id : string) (classes : list string)
    (attributes : list (string * string)) (children : list Dom.Node) : Dom.Node :=
  Dom.Elem (data tag id classes attributes) None [] children.

Definition plain (tag : string) (children : list Dom.Node) : Dom.Node :=
  element tag "" [] [] children.

Definition anchor (href : string) (children : list Dom.Node) : Dom.Node :=
  Dom.Elem
    (Dom.mkData "A" "" [] [("href", href)] (Some href) "" "" "" false true 10 10 None)
    None [] children.

Definition anchorElement (href : string) (children : list Dom.Node) : Dom.Element :=
  Dom.mkElement
    (Dom.mkData "A" "" [] [("href", href)] (Some href) "" "" "" false true 10 10 None)
    None [] children.

Definition container (children : list Dom.Node) : Dom.Element :=
  Dom.mkElement (data "DIV" "" [] []) None [] children.

(** [<body class="content" data-main><article id="main-content">Story
    </article></body>] *)
Definition nestedBody : Dom.ElementRef :=
  Dom.mkRef [1]
    (Dom.mkElement (data "BODY" "" ["content"] [("class", "content"); ("data-main", "")])
       None []
       [element "ARTICLE" "main-content" [] [("id", "main-content")]
          [Dom.Text "Story"]]).

Definition nestedArticle : Dom.ElementRef :=
  Dom.mkRef [1; 0]
    (Dom.mkElement (data "ARTICLE" "main-content" [] [("id", "main-content")])
       None [] [Dom.Text "Story"]).

Definition img (src alt : string) : Dom.Node :=
  Dom.Elem (Dom.mkData "IMG" "" [] [("src", src); ("alt", alt)] None src alt ""
              false true 10 10 None)
    None [] [].

Definition trackingOptions : ConversionOptions :=
  mkOptions None None None false true None None false None None false None
    false None.

(** The document of [nestedBody]: [<html><head></head><body ...>]. *)
Definition nestedDocument : Dom.Document :=
  Dom.mkDocument
    (Dom.mkElement (data "HTML" "" [] []) None []
       [plain "HEAD" []; Dom.ofElement (Dom.refElement nestedBody)]).

(** [<h1><a href="http://example.com/a/b/c">x</a></h1>] in a container. *)
Definition headingWithLink : Dom.Element :=
  container [plain "H1" [anchor "http://example.com/a/b/c" [Dom.Text "x"]]].

Definition noOptions : ConversionOptions :=
  mkOptions None None None false false None None false None None false None
    false None.

Definition refifyOptions : ConversionOptions :=
  mkOptions None None None false false None None false None None true None
    false None.

Definition noCollaborators : Collaborators :=
  mkCollaborators (fun _ _ => mkMeta None None None None)
    (fun _ => EmptyString) (fun _ => EmptyString)
    (fun _ => EmptyString) (fun _ => EmptyString) None.

End Sample.

(** The href of an anchor is a [data:image] URL. *)
Definition isDataImageHref (linkNode : Dom.Element) : bool :=
  match Dom.href linkNode with
  | Some h => Js.startsWith h "data:image"
  | None => false
  end.

(** The href that the link node of an anchor gets otherwise. *)
Definition anchorHref (options : ConversionOptions) (linkNode : Dom.Element) : string :=
  match Dom.href linkNode with
  | Some h => stripWebsiteDomain options h
  | None => "#"
  end.

(** The two forms of a rendered link. *)
Definition compactLink (content href : string) : string :=
  "[" +:+ content +:+ "](" +:+ Uri.encodeURI href +:+ ")".

Definition htmlLink (content href : string) : string :=
  "<a href=" +:+ DQUOTE +:+ href +:+ DQUOTE +:+ ">" +:+ content +:+ "</a>".

(** The content of a link node is exactly one text node. *)
Definition isSingleText (content : list Node) : bool :=
  match content with
  | [text _] => true
  | _ => false
  end.

(** The bars of a text that delimit cells: a backslash takes the
    character behind it with it, so a bar behind a backslash is none. *)
Fixpoint unescapedBars (s : string) : nat :=
  match s with
  | EmptyString => 0
  | String "\" (String _ r) => unescapedBars r
  | String "|" r => S (unescapedBars r)
  | String _ r => unescapedBars r
  end.

(** A text without bar and without backslash. *)
Definition plainText (s : string) : bool :=
  forallb (fun c => negb (Ascii.eqb c "\" || Ascii.eqb c "|"))
    (list_ascii_of_string s).

(** The cell columns of an emitted row: one between each bar and the
    next. *)
Definition barColumns (row : string) : Z := (Z.of_nat (unescapedBars row) - 1)%Z.

(** A colspan that is present is an integer and not negative. *)
Definition colspanNotNegative (cell : TableCellNode Node) : Prop :=
  match colspan cell with
  | Some (Js.Int z) => (0 <= z)%Z
  | Some _ => False
  | None => True
  end.

(** The colspan of a cell as an integer, defaulting to 1. *)
Definition spanOf (cell : TableCellNode Node) : Z :=
  match colspan cell with
  | Some (Js.Int z) => if (z =? 0)%Z then 1%Z else z
  | _ => 1%Z
  end.

(** The sum of the colspans of a row, each defaulting to 1. *)
Definition rowSpan (row : list (TableCellNode Node)) : Z :=
  fold_left (fun sum cell => (sum + spanOf cell)%Z) row 0%Z.

(** The integers that a double counts one by one end at [2^53]. *)
Definition countable (z : Z) : Prop := (z <= 2 ^ 53)%Z.

(** The comments that the renderer puts behind the content of a cell have
    no bar of their own: the column id has none. *)
Definition colIdWithoutBar (cell : TableCellNode Node) : Prop :=
  match colId cell with
  | Some c => unescapedBars c = 0
  | None => True
  end.

(** The cells of a row with their rendered content, as the renderer pairs
    them. *)
Definition renderedCells (options : ConversionOptions) (indentLevel : nat)
    (row : list (TableCellNode Node)) : list (string * TableCellNode Node) :=
  List.map
    (fun cell =>
       (match cellContent cell with
        | inl s => s
        | inr l => Js.trim (markdownContentASTToString options l (indentLevel + 1))
        end, cell))
    row.

(** A row as the renderer emits it, up to its line feed. *)
Definition emittedRow (options : ConversionOptions) (indentLevel : nat)
    (maxColumns : Js.number) (row : list (TableCellNode Node)) : string :=
  concatStrings (rowChunks maxColumns (renderedCells options indentLevel row))
  +:+ "|".

Module SampleTable.

Definition cell (content : string) (colspan : option Z) : TableCellNode Node :=
  mkCell (inl content) None (option_map Js.Int colspan) None.

(** A row of one cell that spans three columns over a row of two cells;
    the text of a cell has an escaped bar. *)
Definition spanning : list (list (TableCellNode Node)) :=
  [[cell "wide" (Some 3%Z)]; [cell "a\|b" None; cell "c" None]].

(** A row whose cell has a negative colspan over a row of one cell. *)
Definition negative : list (list (TableCellNode Node)) :=
  [[cell "odd" (Some (-2)%Z)]; [cell "a" None]].

(** [<table><tr><td><code>a|b</code></td></tr><tr><td>c</td></tr>
    </table>] *)
Definition codeWithBar : Dom.Element :=
  Sample.container
    [Sample.plain "TABLE"
       [Sample.plain "TR" [Sample.plain "TD" [Sample.plain "CODE" [Dom.Text "a|b"]]];
        Sample.plain "TR" [Sample.plain "TD" [Dom.Text "c"]]]].

End SampleTable.

(** The greatest height of the nodes of a list. *)
Fixpoint maxHeight (l : list Dom.Node) : nat :=
  match l with
  | [] => 0
  | c :: r => Nat.max (nodeHeight c) (maxHeight r)
  end.

(** Two functions for the recursive calls agree on the elements of height
    at most [h]. *)
Definition agreeUpTo (h : nat) (rec1 rec2 : Dom.Element -> nat -> Throws (list Node))
    : Prop :=
  forall (element : Dom.Element) (indentLevel : nat),
    nodeHeight (Dom.ofElement element) <= h ->
    rec1 element indentLevel = rec2 element indentLevel.

(** Two translators make the same of the elements of height at most [h]. *)
Definition sameTranslation (h : nat) (t1 t2 : ElementTranslator) : Prop :=
  forall (child : Dom.Element) (result : list Node) (indentLevel : nat),
    nodeHeight (Dom.ofElement child) <= h ->
    t1 child result indentLevel = t2 child result indentLevel.

(** A node with every href and src blanked: what [refifyUrls] must leave
    as it is. *)
Fixpoint eraseUrls (node : Node) : Node :=
  let inContent (c : string + list Node) : string + list Node :=
    match c with
    | inl s => inl s
    | inr l => inr (List.map eraseUrls l)
    end in
  match node with
  | bold content => bold (inContent content)
  | italic content => italic (inContent content)
  | strikethrough content => strikethrough (inContent content)
  | heading level content => heading level (inContent content)
  | link _ content => link EmptyString (List.map eraseUrls content)
  | image _ alt => image EmptyString alt
  | video _ poster controls => video EmptyString poster controls
  | list_ ordered items => list_ ordered (List.map (List.map eraseUrls) items)
  | table rows colIds =>
      table
        (List.map
           (List.map
              (fun cell =>
                 mkCell (inContent (cellContent cell)) (colId cell) (colspan cell)
                   (rowspan cell)))
           rows)
        colIds
  | blockquote content => blockquote (List.map eraseUrls content)
  | semanticHtml htmlType content =>
      semanticHtml htmlType (List.map eraseUrls content)
  | other => other
  end.

(* ===================================================================== *)
(** * Further vocabulary *)
(* ===================================================================== *)

(** The elements of a subtree as references, in document order; the root
    of the subtree comes first, at [path]. *)
Fixpoint subtreeRefs (path : list nat) (n : Dom.Node) : list Dom.ElementRef :=
  match n with
  | Dom.Elem d sh asg ch =>
      Dom.mkRef path (Dom.mkElement d sh asg ch)
      :: (fix below (i : nat) (l : list Dom.Node) : list Dom.ElementRef :=
            match l with
            | [] => []
            | c :: r =>
                match c with
                | Dom.Elem _ _ _ _ => subtreeRefs (path ++ [i]) c ++ below (S i) r
                | _ => below i r
                end
            end) 0 ch
  | _ => []
  end.

(** The element that a path of child indexes leads to. *)
Fixpoint resolve (path : list nat) (element : Dom.Element) : option Dom.Element :=
  match path with
  | [] => Some element
  | i :: rest =>
      match Dom.children element !! i with
      | Some child => resolve rest child
      | None => None
      end
  end.

(** A reference below [root] that leads to its element. *)
Definition leadsFrom (root r : Dom.ElementRef) : Prop :=
  exists q, Dom.refPath r = Dom.refPath root ++ q
            /\ resolve q (Dom.refElement root) = Some (Dom.refElement r).

Definition reachesMinScore (minScore : Z) (r : Dom.ElementRef) : bool :=
  (calculateScore r >=? minScore)%Z.

(** A text in which every Markdown character stands behind a backslash of
    its own, and which has no angle bracket. *)
Fixpoint wellEscaped (s : string) : bool :=
  match s with
  | EmptyString => true
  | String c r =>
      if Ascii.eqb c "\" then
        match r with
        | String d r' => isMarkdownSpecial d && wellEscaped r'
        | EmptyString => false
        end
      else
        negb (isMarkdownSpecial c) && negb (Ascii.eqb c "<")
        && negb (Ascii.eqb c ">") && wellEscaped r
  end.

(** The text that an escaped text stands for. *)
Fixpoint unescape (s : string) : string :=
  match s with
  | EmptyString => EmptyString
  | String "&" (String "a" (String "m" (String "p" (String ";" r)))) =>
      String "&" (unescape r)
  | String "&" (String "l" (String "t" (String ";" r))) => String "<" (unescape r)
  | String "&" (String "g" (String "t" (String ";" r))) => String ">" (unescape r)
  | String "\" (String d r) => String d (unescape r)
  | String c r => String c (unescape r)
  end.

(** A URL map as refification builds it: its tokens are [ref0], [ref1],
    ... below its size, and two prefixes never share a token. *)
Definition wfUrlMap (m : gmap string string) : Prop :=
  (forall k v, m !! k = Some v -> exists i, i < size m /\ v = "ref" +:+ Js.ofNat i)
  /\ (forall k1 k2 v, m !! k1 = Some v -> m !! k2 = Some v -> k1 = k2).

(** The test of [processUrl] for a media or document suffix. *)
Definition hasMediaSuffix (url : string) : bool :=
  match Js.lastSlice (Js.split "." url) with
  | s :: _ => Js.truthy s && existsb (String.eqb s) mediaSuffixes
  | [] => false
  end.

(** A step on the AST that keeps a well-formed map well-formed, only adds
    entries to it, and leaves its own result alone when run again. *)
Definition settles {A} (f : A -> State (gmap string string) A) (x : A) : Prop :=
  forall m,
    wfUrlMap m ->
    wfUrlMap (snd (f x m))
    /\ m ⊆ snd (f x m)
    /\ forall m2, f (fst (f x m)) m2 = (fst (f x m), m2).

(** A property holds for the nodes of a content that is a node array. *)
Definition contentForall (P : Node -> Prop) (c : string + list Node) : Prop :=
  match c with
  | inl _ => True
  | inr l => Forall P l
  end.

(** The URL that went into [processUrl] can be told from what came out
    and the map: it was left as it is, or the map holds the token for it,
    or the map holds the token for its directory and the file name
    follows the token. *)
Definition recoverable (url result : string) (m : gmap string string) : Prop :=
  result = url
  \/ m !! url = Some result
  \/ exists prefix file ref,
       url = prefix +:+ "/" +:+ file
       /\ result = ref +:+ "://" +:+ file
       /\ m !! prefix = Some ref.

(** What was in [result] stays in front of what a call pushes. *)
Definition pushedOnto (result : list Node) (pushed : Throws (list Node))
    : Throws (list Node) :=
  attempt nodes <- pushed ;
  inr (result ++ nodes).

(** A translator that pushes the same nodes, or throws the same
    exception, whatever [result] holds. *)
Definition pushesOnly (t : ElementTranslator) : Prop :=
  forall (child : Dom.Element) (result : list Node) (indentLevel : nat),
    t child result indentLevel = pushedOnto result (t child [] indentLevel).

(** The node lists of calls made one after the other, up to the first
    that throws. *)
Fixpoint concatThrows {A} (calls : list (Throws (list A))) : Throws (list A) :=
  match calls with
  | [] => inr []
  | call :: rest =>
      attempt nodes <- call ;
      attempt more <- concatThrows rest ;
      inr (nodes ++ more)
  end.

(** The child nodes that [htmlToMarkdownAST] walks through. *)
Definition walkedChildNodes (element : Dom.Element) : list Dom.Node :=
  match Dom.shadowRoot element with
  | Some shadowChildNodes => shadowChildNodes
  | None => Dom.childNodes element
  end.


(* ===================================================================== *)
(** ** core/astUtils.ts: [findAllInAST] *)
(* ===================================================================== *)

Section FindAllInAST.

Variable checker : Node -> bool.

(** [loopCheck] is [flat_map]: the nodes found in each element, one
    after the other. *)
Fixpoint findAllInASTNode (markdownElement : Node) : list Node :=
  if checker markdownElement then [markdownElement]
  else
    match markdownElement with
    | link _ content => flat_map findAllInASTNode content
    | list_ _ items => flat_map (flat_map findAllInASTNode) items
    | table rows _ =>
        flat_map
          (flat_map
             (fun cell =>
                match cellContent cell with
                | inl _ => []
                | inr content => flat_map findAllInASTNode content
                end))
          rows
    | blockquote content => flat_map findAllInASTNode content
    | semanticHtml _ content => flat_map findAllInASTNode content
    | _ => []
    end.

Definition findAllInAST (markdownElement : list Node) : list Node :=
  flat_map findAllInASTNode markdownElement.

End FindAllInAST.

(** What the two searches give on a node agree, and what is found passes
    the check. *)
Definition findAgree (checker : Node -> bool) (node : Node) : Prop :=
  findInASTNode checker node = head (findAllInASTNode checker node)
  /\ Forall (fun found => checker found = true) (findAllInASTNode checker node).

(* ===================================================================== *)
(** ** core/astUtils.ts: [getMainContent] *)
(* ===================================================================== *)

Module JsSearch.

(** [s.indexOf(sub)]; [None] is -1. *)
Fixpoint indexOf (s sub : string) : option nat :=
  if String.prefix sub s then Some 0
  else match s with
       | EmptyString => None
       | String _ r => option_map S (indexOf r sub)
       end.

(** [s.substring(0, n)] *)
Fixpoint take (n : nat) (s : string) : string :=
  match n, s with
  | S n', String c r => String c (take n' r)
  | _, _ => EmptyString
  end.

End JsSearch.

(** The regions that [removeSectionsRegex] takes out, in the order of its
    alternatives: the marker that opens one and the marker that closes
    it. *)
Definition removedSections : list (string * string) :=
  [("<-nav->", "</-nav->"); ("<-footer->", "</-footer->");
   ("<-header->", "</-header->"); ("<-aside->", "</-aside->")].

(** The length of the match of [removeSectionsRegex] at the start of [s],
    if it has one: an opening marker, then as little as possible up to its
    closing marker. *)
Definition sectionAt (s : string) : option nat :=
  let matchOf (section : string * string) : option nat :=
    let '(opener, closer) := section in
    if String.prefix opener s then
      match JsSearch.indexOf (Js.substringFrom (String.length opener) s) closer with
      | Some j => Some (String.length opener + j + String.length closer)
      | None => None
      end
    else None in
  List.fold_right
    (fun section later =>
       match matchOf section with
       | Some n => Some n
       | None => later
       end)
    None removedSections.

(** [s.replace(removeSectionsRegex, '')]: the matches are looked for from
    left to right, and the search goes on behind a match; [skip] counts
    the characters of a match that are still to be dropped. *)
Fixpoint removeSectionsFrom (skip : nat) (s : string) : string :=
  match s with
  | EmptyString => EmptyString
  | String c r =>
      match skip with
      | S k => removeSectionsFrom k r
      | O =>
          match sectionAt s with
          | Some n => removeSectionsFrom (n - 1) r
          | None => String c (removeSectionsFrom 0 r)
          end
      end
  end.

(** The match of [/(?<=<-main->)[\s\S]*?(?=<\/-main->)/]: what stands
    between the first [<-main->] and the first [</-main->] behind it. *)
Definition getMainContent (markdownStr : string) : string :=
  if Js.includes markdownStr "<-main->" then
    match JsSearch.indexOf markdownStr "<-main->" with
    | Some i =>
        let behind := Js.substringFrom (i + String.length "<-main->") markdownStr in
        match JsSearch.indexOf behind "</-main->" with
        | Some j => JsSearch.take j behind
        | None => EmptyString
        end
    | None => EmptyString
    end
  else removeSectionsFrom 0 markdownStr.

(** A text without the character [<]. *)
Definition noAngleOpen (s : string) : bool :=
  forallb (fun c => negb (Ascii.eqb c "<")) (list_ascii_of_string s).

(* ===================================================================== *)
(** ** core/domUtils.ts: visible text *)
(* ===================================================================== *)

(** What the code reads of [window.getComputedStyle(element)]. *)
Record ComputedStyle := mkStyle {
  display : string;
  visibility : string;
  opacity : string
}.

Module DomUtils.

Section VisibleText.

(** [window.getComputedStyle] *)
Variable getComputedStyle : Dom.Element -> ComputedStyle.

Definition isElementVisible (element : Dom.Element) : bool :=
  if negb (Dom.isHTMLElement element) then
    true (* Non-HTMLElements are considered visible *)
  else
    let style := getComputedStyle element in
    negb (String.eqb (display style) "none")
    && negb (String.eqb (visibility style) "hidden")
    && negb (String.eqb (opacity style) "0").

Fixpoint getVisibleTextNode (n : Dom.Node) : string :=
  match n with
  | Dom.Elem d sh asg ch =>
      if negb (isElementVisible (Dom.mkElement d sh asg ch)) then EmptyString
      else
        Js.trim
          ((fix eachChild (l : list Dom.Node) (text_ : string) : string :=
              match l with
              | [] => text_
              | child :: rest =>
                  match child with
                  | Dom.Text data => eachChild rest (text_ +:+ data)
                  | Dom.Elem _ _ _ _ =>
                      eachChild rest (text_ +:+ getVisibleTextNode child)
                  | Dom.Other => eachChild rest text_
                  end
              end) ch EmptyString)
  | _ => EmptyString
  end.

Definition getVisibleText (element : Dom.Element) : string :=
  getVisibleTextNode (Dom.ofElement element).

End VisibleText.

End DomUtils.

(** A prefix that names no property of [Object.prototype]. *)
Definition notInherited (prefix : string) : bool :=
  negb (existsb (String.eqb prefix) Js.objectPrototypeKeys).



(** [<table><tr><td rowspan=...>x</td></tr></table>] *)
Definition tableWithRowspan (rowspan : string) : Dom.Element :=
  Sample.container
    [Sample.plain "TABLE"
       [Sample.plain "TR"
          [Sample.element "TD" "" [] [("rowspan", rowspan)] [Dom.Text "x"]]]].

(** No element of the tree has the tag [__proto__], in the shadow roots
    and among the assigned nodes either. *)
Fixpoint withoutProtoTag (n : Dom.Node) : bool :=
  match n with
  | Dom.Elem d sh asg ch =>
      let all :=
        fix all (l : list Dom.Node) : bool :=
          match l with
          | [] => true
          | c :: r => withoutProtoTag c && all r
          end in
      negb (String.eqb (Js.toLowerCase (Dom.tagName d)) "__proto__")
      && match sh with Some l => all l | None => true end
      && all asg && all ch
  | _ => true
  end.

(** A call that throws nothing but what [Q] allows. *)
Definition throwsOnly (Q : Exception -> Prop) {A} (call : Throws A) : Prop :=
  match call with
  | inl thrown => Q thrown
  | inr _ => True
  end.

(** A call that returns. *)
Definition returns {A} (call : Throws A) : Prop := exists value, call = inr value.

(** The collaborators with another parser of the host. *)
Definition withHostParser (collaborators : Collaborators) (host : option DOMParser)
    : Collaborators :=
  mkCollaborators (extractMetaData collaborators) (jsonStringify collaborators)
    (stringOfAny collaborators) (innerHTML collaborators) (outerHTML collaborators)
    host.

(** The URL that a link or an image node is given for the URL of its
    element: a dash for a [data:image] URL, a hash where there is no URL,
    the URL without the website domain of the options where it starts with
    it, and the URL itself otherwise. *)
Inductive urlGiven (options : ConversionOptions) : option string -> string -> Prop :=
| givenDash (url : string) :
    Js.startsWith url "data:image" = true ->
    urlGiven options (Some url) "-"
| givenHash :
    urlGiven options None "#"
| givenRest (domain rest : string) :
    Js.startsWith (domain +:+ rest) "data:image" = false ->
    websiteDomain options = Some domain ->
    domain <> EmptyString ->
    urlGiven options (Some (domain +:+ rest)) rest
| givenSame (url : string) :
    Js.startsWith url "data:image" = false ->
    match websiteDomain options with
    | Some domain => domain = EmptyString \/ Js.startsWith url domain = false
    | None => True
    end ->
    urlGiven options (Some url) url.

Module SampleCalls.



(** [<html><body><p>override</p></body></html>] and
    [<html><body><p>host</p></body></html>] *)
Definition documentSaying (word : string) : Dom.Document :=
  Dom.mkDocument
    (Dom.mkElement (Sample.data "HTML" "" [] []) None []
       [Sample.plain "BODY" [Sample.plain "P" [Dom.Text word]]]).

Definition overriding : DOMParser := mkParser (fun _ => documentSaying "override").
Definition host : DOMParser := mkParser (fun _ => documentSaying "host").

Definition overridden : ConversionOptions :=
  mkOptions None None None false false None None false None None false None
    false (Some overriding).

Definition hosted : Collaborators :=
  withHostParser Sample.noCollaborators (Some host).

End SampleCalls.

(* ===================================================================== *)
(** * Properties *)
(* ===================================================================== *)

(** ** Strings *)

Lemma append_nil_l s : EmptyString +:+ s = s.
Proof. reflexivity. Qed.

Lemma append_cons c s t : String c s +:+ t = String c (s +:+ t).
Proof. reflexivity. Qed.

Lemma append_nil_r s : s +:+ EmptyString = s.
Proof. induction s as [|c r IH]; [reflexivity|]. now rewrite append_cons, IH. Qed.

Lemma append_assoc s t u : (s +:+ t) +:+ u = s +:+ (t +:+ u).
Proof. induction s as [|c r IH]; [reflexivity|]. now rewrite !append_cons, IH. Qed.

Lemma length_append s t : String.length (s +:+ t) = String.length s + String.length t.
Proof. induction s as [|c r IH]; [reflexivity|]. rewrite append_cons. simpl. now rewrite IH. Qed.

Lemma trimEnd_empty_iff s :
  Js.trimEnd s = EmptyString <-> whitespaceOnly s = true.
Proof.
  induction s as [|c r IH]; simpl; [tauto|].
  unfold whitespaceOnly in *. simpl.
  destruct (Js.trimEnd r) eqn:E.
  - destruct (Js.isWhiteSpace c); simpl.
    + split; intros _; [apply IH|]; reflexivity.
    + split; intros H; discriminate.
  - split; [discriminate|]. intros H.
    apply andb_true_iff in H as [_ H]. apply IH in H. discriminate.
Qed.

Lemma trimStart_whitespaceOnly s :
  whitespaceOnly (Js.trimStart s) = whitespaceOnly s.
Proof.
  induction s as [|c r IH]; simpl; [reflexivity|].
  destruct (Js.isWhiteSpace c) eqn:E.
  - rewrite IH. unfold whitespaceOnly. simpl. now rewrite E.
  - reflexivity.
Qed.

Lemma truthy_trim s : Js.truthy (Js.trim s) = negb (whitespaceOnly s).
Proof.
  unfold Js.trim. rewrite <- trimStart_whitespaceOnly.
  destruct (Js.trimEnd (Js.trimStart s)) eqn:E.
  - apply trimEnd_empty_iff in E. now rewrite E.
  - simpl. destruct (whitespaceOnly (Js.trimStart s)) eqn:W; [|reflexivity].
    apply trimEnd_empty_iff in W. congruence.
Qed.

Lemma replaceAll_app c b s t :
  Js.replaceAll c b (s +:+ t) = Js.replaceAll c b s +:+ Js.replaceAll c b t.
Proof.
  induction s as [|x r IH]; [reflexivity|].
  rewrite append_cons. simpl.
  destruct (Ascii.eqb x c); rewrite IH; [|reflexivity].
  now rewrite append_assoc.
Qed.

Lemma backslashEscape_app s t :
  backslashEscape (s +:+ t) = backslashEscape s +:+ backslashEscape t.
Proof.
  induction s as [|x r IH]; [reflexivity|].
  rewrite append_cons. simpl.
  destruct (isMarkdownSpecial x); now rewrite IH.
Qed.

Lemma escapeInOrder_cons c r :
  escapeInOrder (String c r) = escapeChar c +:+ escapeInOrder r.
Proof.
  unfold escapeInOrder, escapeChar. simpl.
  destruct (Ascii.eqb c "&") eqn:E1.
  - rewrite !replaceAll_app, backslashEscape_app. reflexivity.
  - simpl. destruct (Ascii.eqb c "<") eqn:E2.
    + rewrite !replaceAll_app, backslashEscape_app. reflexivity.
    + simpl. destruct (Ascii.eqb c ">") eqn:E3.
      * rewrite backslashEscape_app. reflexivity.
      * simpl. destruct (isMarkdownSpecial c); reflexivity.
Qed.

Lemma escapeInOrder_each s : escapeInOrder s = escapeEach s.
Proof.
  induction s as [|c r IH]; [reflexivity|].
  rewrite escapeInOrder_cons. simpl. now rewrite IH.
Qed.



(** ** Escaping twice *)

Lemma markdownSpecial_not_whiteSpace c :
  isMarkdownSpecial c = true -> Js.isWhiteSpace c = false.
Proof. destruct c as [[] [] [] [] [] [] [] []]; vm_compute; congruence. Qed.

Lemma htmlSpecial_not_whiteSpace c :
  isHtmlSpecial c = true -> Js.isWhiteSpace c = false.
Proof. destruct c as [[] [] [] [] [] [] [] []]; vm_compute; congruence. Qed.

Lemma escapeChar_cases c :
  (isEscapable c = false /\ escapeChar c = String c EmptyString)
  \/ (isEscapable c = true /\
      exists d r, escapeChar c = String d (String r.1 r.2)
                  /\ isEscapable d = true /\ Js.isWhiteSpace d = false).
Proof.
  unfold escapeChar, isEscapable, isHtmlSpecial.
  destruct (Ascii.eqb c "&") eqn:E1; [right; split; [reflexivity|]|].
  { exists "&"%char, ("a"%char, "mp;"). now vm_compute. }
  destruct (Ascii.eqb c "<") eqn:E2; [right; split; [reflexivity|]|].
  { exists "&"%char, ("l"%char, "t;"). now vm_compute. }
  destruct (Ascii.eqb c ">") eqn:E3; [right; split; [reflexivity|]|].
  { exists "&"%char, ("g"%char, "t;"). now vm_compute. }
  simpl. destruct (isMarkdownSpecial c) eqn:E4; [right|left]; split; try reflexivity.
  exists "\"%char, (c, EmptyString). now vm_compute.
Qed.

Lemma whitespaceOnly_cons c r :
  whitespaceOnly (String c r) = Js.isWhiteSpace c && whitespaceOnly r.
Proof. reflexivity. Qed.

Lemma noEscapable_cons c r :
  noEscapable (String c r) = negb (isEscapable c) && noEscapable r.
Proof. reflexivity. Qed.

Lemma whitespaceOnly_noEscapable s :
  whitespaceOnly s = true -> noEscapable s = true.
Proof.
  induction s as [|c r IH]; [reflexivity|].
  rewrite whitespaceOnly_cons, noEscapable_cons.
  intros [Hc Hr]%andb_true_iff. rewrite (IH Hr), andb_true_r.
  unfold isEscapable.
  destruct (isHtmlSpecial c) eqn:E1.
  { apply htmlSpecial_not_whiteSpace in E1. congruence. }
  destruct (isMarkdownSpecial c) eqn:E2; [|reflexivity].
  apply markdownSpecial_not_whiteSpace in E2. congruence.
Qed.

Lemma escapeEach_noEscapable s : noEscapable s = true -> escapeEach s = s.
Proof.
  induction s as [|c r IH]; [reflexivity|].
  rewrite noEscapable_cons. intros [Hc Hr]%andb_true_iff.
  simpl. rewrite (IH Hr).
  destruct (escapeChar_cases c) as [[_ ->]|[E _]]; [reflexivity|].
  rewrite E in Hc. discriminate.
Qed.

Lemma escapeEach_whitespaceOnly s :
  whitespaceOnly (escapeEach s) = whitespaceOnly s.
Proof.
  induction s as [|c r IH]; [reflexivity|].
  simpl. destruct (escapeChar_cases c) as [[_ ->]|[E (d & t & -> & _ & Hd)]].
  - rewrite append_cons, append_nil_l, !whitespaceOnly_cons. now rewrite IH.
  - rewrite append_cons, !whitespaceOnly_cons, Hd. simpl.
    unfold isEscapable in E. apply orb_true_iff in E as [E|E].
    + now rewrite (htmlSpecial_not_whiteSpace _ E).
    + now rewrite (markdownSpecial_not_whiteSpace _ E).
Qed.

Lemma escapeEach_keeps_escapable s :
  noEscapable s = false -> noEscapable (escapeEach s) = false.
Proof.
  induction s as [|c r IH]; [discriminate|].
  rewrite noEscapable_cons. simpl.
  destruct (escapeChar_cases c) as [[E ->]|[E (d & t & -> & Hd & _)]].
  - rewrite E. simpl. intros Hr.
    rewrite append_cons, append_nil_l, noEscapable_cons, E. simpl. auto.
  - intros _. rewrite append_cons, noEscapable_cons, Hd. reflexivity.
Qed.

Lemma escapeEach_length s : String.length s <= String.length (escapeEach s).
Proof.
  induction s as [|c r IH]; [reflexivity|].
  simpl. rewrite length_append.
  destruct (escapeChar_cases c) as [[_ ->]|[_ (d & t & -> & _)]]; simpl; lia.
Qed.

Lemma escapeEach_longer s :
  noEscapable s = false -> String.length s < String.length (escapeEach s).
Proof.
  induction s as [|c r IH]; [discriminate|].
  rewrite noEscapable_cons. simpl. rewrite length_append.
  destruct (escapeChar_cases c) as [[E ->]|[E (d & t & -> & _)]].
  - rewrite E. simpl. intros Hr. specialize (IH Hr). lia.
  - intros _. pose proof (escapeEach_length r). simpl. lia.
Qed.

Lemma escapeMarkdownCharacters_each text :
  escapeMarkdownCharacters text false =
    if whitespaceOnly text then text else escapeEach text.
Proof.
  unfold escapeMarkdownCharacters. rewrite truthy_trim, negb_involutive. simpl.
  destruct (whitespaceOnly text); [reflexivity|]. apply escapeInOrder_each.
Qed.

(** The code and the rule of the specification, character by character
    and pass by pass. *)
Lemma isMarkdownSpecial_listed c :
  isMarkdownSpecial c = EscapingRule.isBackslashed c.
Proof. destruct c as [[] [] [] [] [] [] [] []]; reflexivity. Qed.

Lemma isWhiteSpace_blank c :
  Js.isWhiteSpace c = existsb (Ascii.eqb c) EscapingRule.blanks.
Proof. destruct c as [[] [] [] [] [] [] [] []]; reflexivity. Qed.

Lemma whitespaceOnly_onlyBlanks s : whitespaceOnly s = EscapingRule.onlyBlanks s.
Proof.
  unfold whitespaceOnly, EscapingRule.onlyBlanks.
  induction (list_ascii_of_string s) as [|c r IH]; [reflexivity|].
  simpl. now rewrite IH, isWhiteSpace_blank.
Qed.

Lemma replaceAll_substitute c replacement s :
  Js.replaceAll c replacement s = EscapingRule.substitute c replacement s.
Proof.
  induction s as [|x r IH]; [reflexivity|]. simpl.
  rewrite IH. now destruct (Ascii.eqb x c).
Qed.

Lemma backslashEscape_backslash s : backslashEscape s = EscapingRule.backslash s.
Proof.
  induction s as [|x r IH]; [reflexivity|]. simpl.
  rewrite IH, isMarkdownSpecial_listed.
  now destruct (EscapingRule.isBackslashed x).
Qed.

Lemma escapeInOrder_inOrder s : escapeInOrder s = EscapingRule.inOrder s.
Proof.
  unfold escapeInOrder, EscapingRule.inOrder.
  now rewrite backslashEscape_backslash, !replaceAll_substitute.
Qed.

Lemma escapeEach_eachRewritten s : escapeEach s = EscapingRule.eachRewritten s.
Proof.
  induction s as [|c r IH]; [reflexivity|]. simpl. rewrite IH.
  unfold escapeChar, EscapingRule.rewritten. now rewrite isMarkdownSpecial_listed.
Qed.

(** C4: a string that is inline code or only white space comes back
    unchanged; any other string has [&] replaced by [&amp;] first, then [<]
    by [&lt;] and [>] by [&gt;], then each of the twelve characters that
    the specification lists prefixed by a backslash.  With the ampersand
    replaced first, the passes amount to one rewriting of each character of
    the input. *)
Theorem escapeMarkdownCharacters_spec (text : string) (isInlineCode : bool) :
  escapeMarkdownCharacters text isInlineCode
  = EscapingRule.escaped text isInlineCode
  /\ EscapingRule.inOrder text = EscapingRule.eachRewritten text.
Proof.
  split.
  - unfold escapeMarkdownCharacters, EscapingRule.escaped.
    rewrite truthy_trim, negb_involutive, whitespaceOnly_onlyBlanks.
    destruct (isInlineCode || EscapingRule.onlyBlanks text); [reflexivity|].
    apply escapeInOrder_inOrder.
  - rewrite <- escapeInOrder_inOrder, <- escapeEach_eachRewritten.
    apply escapeInOrder_each.
Qed.

(** C8 (as stated, refuted): escaping the escaped form of [a&b] escapes the
    ampersand of the entity once more. *)
Lemma escapeMarkdownCharacters_not_idempotent :
  ~ (forall t : string,
       escapeMarkdownCharacters (escapeMarkdownCharacters t false) false
       = escapeMarkdownCharacters t false).
Proof.
  intros H. specialize (H "a&b"). vm_compute in H. discriminate H.
Qed.

(** C8 (amended): a second pass of [escapeMarkdownCharacters] leaves the
    result of the first unchanged exactly when the input has none of the
    characters that escaping rewrites; the translator escapes the trimmed
    data of a text node once when it makes its text node. *)
Theorem escapeMarkdownCharacters_twice_iff (t : string) :
  (escapeMarkdownCharacters (escapeMarkdownCharacters t false) false
   = escapeMarkdownCharacters t false
   <-> noEscapable t = true)
  /\ (forall options collaborators rec indentLevel result,
        processChild options collaborators rec indentLevel (Dom.Text t) result
        = let textContent := escapeMarkdownCharacters (Js.trim t) false in
          inr (if Js.truthy textContent then result ++ [text textContent]
               else result)).
Proof.
  split; [|intros; simpl; now destruct (Js.truthy _)].
  rewrite (escapeMarkdownCharacters_each t).
  destruct (whitespaceOnly t) eqn:W.
  - rewrite escapeMarkdownCharacters_each, W.
    split; [intros _; now apply whitespaceOnly_noEscapable | reflexivity].
  - rewrite escapeMarkdownCharacters_each, escapeEach_whitespaceOnly, W.
    split.
    + intros H. destruct (noEscapable t) eqn:N; [reflexivity|exfalso].
      pose proof (escapeEach_longer _ (escapeEach_keeps_escapable _ N)) as L.
      rewrite H in L. lia.
    + intros N. now rewrite !(escapeEach_noEscapable _ N).
Qed.

(** ** The examples of the specification *)

(** [<p>Hello <b>world</b></p>] *)
Example paragraph_with_bold :
  let root := Sample.container
                [Sample.plain "P" [Dom.Text "Hello "; Sample.plain "B" [Dom.Text "world"]]] in
  htmlToMarkdownAST Sample.noCollaborators root Sample.noOptions 0
  = inr [text "Hello"; bold (inr [text "world"]); text (LF +:+ LF)]
  /\ convertElementToMarkdown Sample.noCollaborators root Sample.noOptions
     = inr ("Hello **world**" +:+ LF +:+ LF, None).
Proof. vm_compute. split; reflexivity. Qed.

(** [<ul><li>A</li><li></li><li>B</li></ul>] *)
Example list_with_empty_item :
  convertElementToMarkdown Sample.noCollaborators
    (Sample.container
       [Sample.plain "UL"
          [Sample.plain "LI" [Dom.Text "A"]; Sample.plain "LI" [];
           Sample.plain "LI" [Dom.Text "B"]]])
    Sample.noOptions
  = inr (LF +:+ "- A" +:+ LF +:+ "- B" +:+ LF +:+ LF, None).
Proof. vm_compute. reflexivity. Qed.

(** [<table><tr><th>H1</th><th>H2</th></tr><tr><td>a</td><td>b</td></tr>
    </table>] with column tracking. *)
Example table_with_header :
  convertElementToMarkdown Sample.noCollaborators
    (Sample.container
       [Sample.plain "TABLE"
          [Sample.plain "TR"
             [Sample.plain "TH" [Dom.Text "H1"]; Sample.plain "TH" [Dom.Text "H2"]];
           Sample.plain "TR"
             [Sample.plain "TD" [Dom.Text "a"]; Sample.plain "TD" [Dom.Text "b"]]]])
    Sample.trackingOptions
  = inr ("| H1 <!-- col-0 --> | H2 <!-- col-1 --> |" +:+ LF
         +:+ "| --- | --- |" +:+ LF
         +:+ "| a <!-- col-0 --> | b <!-- col-1 --> |" +:+ LF +:+ LF, None).
Proof. vm_compute. reflexivity. Qed.

(** [<img src="data:image/png;base64,AAA" alt="x">] *)
Example data_image :
  convertElementToMarkdown Sample.noCollaborators
    (Sample.container [Sample.img "data:image/png;base64,AAA" "x"])
    Sample.noOptions
  = inr ("![x](-)", None).
Proof. vm_compute. reflexivity. Qed.

(** ** The scoring heuristic *)

Lemma fold_highImpact element (l : list string) (score : Z) :
  fold_left
    (fun score attr =>
       if highImpactAttributeHit element attr then (score + 10)%Z else score)
    l score
  = (score + 10 * Z.of_nat (length (List.filter (highImpactAttributeHit element) l)))%Z.
Proof.
  revert score. induction l as [|w l IH]; intros score; simpl; [lia|].
  rewrite IH. destruct (highImpactAttributeHit element w); simpl length; lia.
Qed.

Lemma calculateScore_sum (element : Dom.Element) :
  calculateScore element
  = (10 * Z.of_nat (highImpactMatches element) + otherContributions element)%Z.
Proof.
  unfold calculateScore, otherContributions, tagContribution,
    paragraphContribution, textContribution, linkDensityContribution,
    dataAttributeContribution, roleContribution, scoreHighImpactAttributes.
  rewrite fold_highImpact. fold (highImpactMatches element).
  cbv zeta.
  set (p := Z.of_nat (length (Dom.getElementsByTagName "p" element))).
  assert (0 <= p)%Z by (subst p; lia).
  destruct (existsb _ highImpactTags);
    destruct (Z.min p 5 >? 0)%Z eqn:Hp;
    destruct (_ >? 200)%Z;
    destruct (densityBelow3Tenths _);
    destruct (_ || _);
    destruct (Dom.getAttribute "role" element) as [role|];
    try destruct (Js.includes role "main");
    lia.
Qed.

(** C7 (as stated, refuted): an element whose id is [main-content] holds
    three words of the vocabulary, and the check adds 30. *)
Lemma vocabulary_check_not_single_10 :
  ~ (forall element : Dom.Element,
       (exists word, In word highImpactAttributes
                     /\ highImpactAttributeHit element word = true) ->
       scoreHighImpactAttributes element 0 = 10%Z).
Proof.
  intros H.
  specialize (H Sample.nestedArticle).
  assert (scoreHighImpactAttributes Sample.nestedArticle 0 = 30%Z) as E
    by (vm_compute; reflexivity).
  rewrite E in H.
  assert (30 = 10)%Z; [|discriminate].
  apply H. exists "main". split; [|vm_compute; reflexivity].
  unfold highImpactAttributes. simpl. tauto.
Qed.

(** C7 (amended): the id/class vocabulary check adds 10 for each word of
    the vocabulary that is a class of the element or occurs in its id, and
    the score is that amount plus the contributions of the other
    heuristics. *)
Theorem vocabulary_check_adds_10_per_word (element : Dom.Element) (score : Z) :
  scoreHighImpactAttributes element score
  = (score + 10 * Z.of_nat (highImpactMatches element))%Z
  /\ calculateScore element
     = (10 * Z.of_nat (highImpactMatches element) + otherContributions element)%Z
  /\ highImpactMatches element <= 5.
Proof.
  split; [apply fold_highImpact|]. split; [apply calculateScore_sum|].
  unfold highImpactMatches.
  etransitivity; [apply List.filter_length_le|]. reflexivity.
Qed.

(** ** Sorting by descending key *)

Section SortDescending.

Context {A : Type} (key : A -> Z).

Abbreviation cmp := (descendingCmp key).
Abbreviation descending := (isDescending key).

Lemma insertSorted_perm x l : Permutation (Js_Array.insertSorted cmp x l) (x :: l).
Proof.
  induction l as [|y r IH]; simpl; [reflexivity|].
  destruct (cmp x y <=? 0)%Z; [reflexivity|].
  rewrite IH. apply perm_swap.
Qed.

Lemma sort_perm l : Permutation (Js_Array.sort cmp l) l.
Proof.
  induction l as [|x r IH]; simpl; [reflexivity|].
  unfold Js_Array.sort in *. simpl. rewrite insertSorted_perm. now constructor.
Qed.

Lemma insertSorted_descending x l :
  descending l -> descending (Js_Array.insertSorted cmp x l).
Proof.
  unfold isDescending. induction l as [|y r IH]; intros Hs; simpl.
  - repeat constructor.
  - inversion Hs as [|? ? Hr Hy]; subst.
    destruct (cmp x y <=? 0)%Z eqn:E; unfold descendingCmp in E.
    + constructor; [assumption|]. constructor; [lia|].
      eapply List.Forall_impl; [|exact Hy]. simpl. intros; lia.
    + constructor; [auto|].
      rewrite (insertSorted_perm x r). constructor; [lia|assumption].
Qed.

Lemma sort_descending l : descending (Js_Array.sort cmp l).
Proof.
  induction l as [|x r IH]; [constructor|].
  apply insertSorted_descending, IH.
Qed.

Lemma sort_head_max l first rest :
  Js_Array.sort cmp l = first :: rest ->
  forall x, In x l -> (key x <= key first)%Z.
Proof.
  intros E x Hx.
  pose proof (sort_descending l) as Hs. rewrite E in Hs.
  inversion Hs as [|? ? _ Hall]; subst.
  assert (In x (first :: rest)) as [->|Hin].
  { apply list_elem_of_In. rewrite <- E, sort_perm. now apply list_elem_of_In. }
  - lia.
  - rewrite List.Forall_forall in Hall. now apply Hall.
Qed.

Lemma sort_nonempty l : l <> [] -> Js_Array.sort cmp l <> [].
Proof.
  intros Hl E. apply Hl. apply Permutation_nil.
  rewrite <- E. apply sort_perm.
Qed.

End SortDescending.

(** ** The main-content locator *)

Lemma byDescendingScore_key : byDescendingScore = descendingCmp scoreOf.
Proof. reflexivity. Qed.

(** Induction on a node with the property at hand for all nodes below. *)
Lemma Node_nested_ind (P : Dom.Node -> Prop) :
  (forall data, P (Dom.Text data)) ->
  P Dom.Other ->
  (forall d sh asg ch,
      match sh with Some l => Forall P l | None => True end ->
      Forall P asg -> Forall P ch -> P (Dom.Elem d sh asg ch)) ->
  forall n, P n.
Proof.
  intros HText HOther HElem.
  fix IH 1. intros [data| |d sh asg ch]; [apply HText|apply HOther|].
  assert (forall l, Forall P l) as Hall.
  { induction l as [|c r IHl]; constructor; [apply IH|assumption]. }
  apply HElem; [destruct sh; [apply Hall|exact I]|apply Hall|apply Hall].
Qed.

(** Every collected candidate reaches the minimal score. *)
Lemma collectCandidatesNode_score minScore n :
  forall path candidates,
    Forall (fun c : Dom.ElementRef => (minScore <= calculateScore c)%Z) candidates ->
    Forall (fun c : Dom.ElementRef => (minScore <= calculateScore c)%Z)
      (collectCandidatesNode path n candidates minScore).
Proof.
  induction n as [data| |d sh asg ch _ _ IHch] using Node_nested_ind;
    intros path candidates Hc; simpl; try assumption.
  set (element := Dom.mkElement d sh asg ch).
  set (pushed := if (calculateScore element >=? minScore)%Z then _ else _).
  assert (Forall (fun c : Dom.ElementRef => (minScore <= calculateScore c)%Z) pushed)
    as Hp.
  { subst pushed. destruct (calculateScore element >=? minScore)%Z eqn:E; [|assumption].
    apply Forall_app. split; [assumption|]. constructor; [|constructor].
    simpl. fold element. lia. }
  clearbody pushed. clear Hc candidates.
  generalize 0 as i. revert pushed Hp.
  induction IHch as [|c r Hc _ IHr]; intros pushed Hp i; [assumption|].
  destruct c; try (apply IHr; assumption).
  apply IHr. apply Hc. assumption.
Qed.

Lemma detectStep_keeps_first (candidates : list Dom.ElementRef)
    (first : Dom.ElementRef) (i : nat) :
  (forall c, In c candidates -> (calculateScore c <= calculateScore first)%Z) ->
  detectStep candidates first i = first.
Proof.
  intros Hmax. unfold detectStep.
  destruct (candidates !! i) as [ci|] eqn:E; [|reflexivity].
  destruct (negb _); [|reflexivity].
  assert (calculateScore ci <= calculateScore first)%Z as Hle.
  { apply Hmax. apply list_elem_of_In. eapply list_elem_of_lookup_2. exact E. }
  destruct (calculateScore ci >? calculateScore first)%Z eqn:G; [lia|reflexivity].
Qed.

Lemma fold_detectStep_keeps_first (candidates : list Dom.ElementRef)
    (first : Dom.ElementRef) (indexes : list nat) :
  (forall c, In c candidates -> (calculateScore c <= calculateScore first)%Z) ->
  fold_left (detectStep candidates) indexes first = first.
Proof.
  intros Hmax. induction indexes as [|i r IH]; [reflexivity|].
  simpl. now rewrite detectStep_keeps_first.
Qed.

(** C10: when some element reaches the threshold, [detectMainContent]
    returns the first candidate of the sorted list: the test that guards the
    replacement of the initial candidate fails at every index, whatever the
    nesting of the candidates, and the score of the element returned is at
    least the score of every candidate. *)
Theorem detectMainContent_returns_first_sorted (rootElement : Dom.ElementRef) :
  collectCandidates rootElement [] 20 <> [] ->
  exists first rest,
    Js_Array.sort byDescendingScore (collectCandidates rootElement [] 20)
    = first :: rest
    /\ detectMainContent rootElement = first
    /\ (forall (i : nat) (candidate : Dom.ElementRef),
          (first :: rest) !! i = Some candidate ->
          (calculateScore candidate >? calculateScore first)%Z = false)
    /\ (forall candidate : Dom.ElementRef,
          In candidate (collectCandidates rootElement [] 20) ->
          (calculateScore candidate
           <= calculateScore (detectMainContent rootElement))%Z)
    /\ In (detectMainContent rootElement) (collectCandidates rootElement [] 20)
    /\ (20 <= calculateScore (detectMainContent rootElement))%Z.
Proof.
  intros Hne. unfold detectMainContent. cbv zeta.
  set (candidates := collectCandidates rootElement [] 20) in *.
  pose proof (sort_nonempty scoreOf candidates Hne) as Hs.
  rewrite <- byDescendingScore_key in Hs.
  destruct (Js_Array.sort byDescendingScore candidates) as [|first rest] eqn:E;
    [congruence|].
  assert (forall c, In c candidates -> (calculateScore c <= calculateScore first)%Z)
    as Hmax by (apply (sort_head_max scoreOf candidates first rest E)).
  assert (forall c, In c (first :: rest) -> In c candidates) as Hback.
  { intros c Hc. apply list_elem_of_In.
    rewrite <- (sort_perm scoreOf candidates), <- byDescendingScore_key.
    rewrite E. now apply list_elem_of_In. }
  exists first, rest.
  destruct candidates as [|c0 cs] eqn:Ec; [congruence|]. rewrite <- Ec in *.
  rewrite fold_detectStep_keeps_first by (intros c Hc; apply Hmax, Hback, Hc).
  repeat split; try assumption.
  - intros i candidate Hi.
    assert (calculateScore candidate <= calculateScore first)%Z; [|lia].
    apply Hmax, Hback, list_elem_of_In. eapply list_elem_of_lookup_2, Hi.
  - apply Hback. now left.
  - assert (Forall (fun c : Dom.ElementRef => (20 <= calculateScore c)%Z) candidates)
      as Hall by (apply collectCandidatesNode_score; constructor).
    rewrite List.Forall_forall in Hall. apply Hall, Hback. now left.
Qed.

(** A witness of C10: the sample body, whose article child scores higher. *)
Lemma detectMainContent_returns_first_sorted_witness :
  exists first rest,
    Js_Array.sort byDescendingScore (collectCandidates Sample.nestedBody [] 20)
    = first :: rest
    /\ detectMainContent Sample.nestedBody = first
    /\ (forall (i : nat) (candidate : Dom.ElementRef),
          (first :: rest) !! i = Some candidate ->
          (calculateScore candidate >? calculateScore first)%Z = false)
    /\ (forall candidate : Dom.ElementRef,
          In candidate (collectCandidates Sample.nestedBody [] 20) ->
          (calculateScore candidate
           <= calculateScore (detectMainContent Sample.nestedBody))%Z)
    /\ In (detectMainContent Sample.nestedBody)
         (collectCandidates Sample.nestedBody [] 20)
    /\ (20 <= calculateScore (detectMainContent Sample.nestedBody))%Z.
Proof.
  apply (detectMainContent_returns_first_sorted Sample.nestedBody).
  vm_compute. discriminate.
Defined.

(** C1 (the code at the failing input): in the sample body both the body
    (score 25) and the article in it (score 40) are candidates.  The article
    is returned although it is a descendant of the other candidate; the one
    candidate that is not below another is the body. *)
Theorem detectMainContent_returns_nested_candidate :
  findMainContent Sample.nestedDocument = Sample.nestedArticle
  /\ collectCandidates Sample.nestedBody [] 20
     = [Sample.nestedBody; Sample.nestedArticle]
  /\ calculateScore Sample.nestedBody = 25%Z
  /\ calculateScore Sample.nestedArticle = 40%Z
  /\ detectMainContent Sample.nestedBody = Sample.nestedArticle
  /\ Dom.contains Sample.nestedBody Sample.nestedArticle = true
  /\ isIndependent (collectCandidates Sample.nestedBody [] 20)
       (detectMainContent Sample.nestedBody) = false
  /\ bestIndependentCandidate (collectCandidates Sample.nestedBody [] 20)
     = Some Sample.nestedBody.
Proof. vm_compute. repeat split; reflexivity. Qed.

(** ** URL refification *)

(** A link at the top of the tree, and the same link as the content of a
    heading. *)
Lemma refifyUrls_reaches_top_link :
  fst (refifyUrls [link "http://example.com/a/b/c" [text "x"]] ∅)
  = [link "ref0" [text "x"]].
Proof. vm_compute. reflexivity. Qed.

(** C2 (the code at the failing input): a link inside a heading, and
    likewise an image inside bold content, keeps its URL, and the map stays
    empty; the same link inside a blockquote is rewritten.  So the heading
    of the sample is converted with the long URL although URLs are to be
    refified. *)
Theorem refifyUrls_skips_heading_content :
  htmlToMarkdownAST Sample.noCollaborators Sample.headingWithLink
    Sample.refifyOptions 0
  = inr [heading 1 (inr [link "http://example.com/a/b/c" [text "x"]])]
  /\ convertElementToMarkdown Sample.noCollaborators Sample.headingWithLink
       Sample.refifyOptions
     = inr (LF +:+ "# [x](http://example.com/a/b/c)" +:+ LF +:+ LF, Some ∅)
  /\ refifyUrls [heading 1 (inr [link "http://example.com/a/b/c" [text "x"]])] ∅
  = ([heading 1 (inr [link "http://example.com/a/b/c" [text "x"]])], ∅)
  /\ refifyUrls [bold (inr [image "http://example.com/a/b/c.png" None])] ∅
     = ([bold (inr [image "http://example.com/a/b/c.png" None])], ∅)
  /\ fst (processUrl "http://example.com/a/b/c" ∅) = "ref0"
  /\ fst (refifyUrls [blockquote [link "http://example.com/a/b/c" [text "x"]]] ∅)
     = [blockquote [link "ref0" [text "x"]]].
Proof. vm_compute. repeat split; reflexivity. Qed.

(** ** The entry point *)

(** C9: without an [overrideDOMParser] option and without a parser of the
    host, [convertHtmlToMarkdown] throws the configuration error; no string
    was handed to a parser and no output was produced. *)
Theorem convertHtmlToMarkdown_without_parser
    (collaborators : Collaborators) (html : string) (options : ConversionOptions) :
  overrideDOMParser options = None ->
  hostDOMParser collaborators = None ->
  convertHtmlToMarkdown collaborators html options
  = mkOutcome []
      (inl (Error "DOMParser is not available. Please provide an overrideDOMParser in options.")).
Proof.
  intros Ho Hh. unfold convertHtmlToMarkdown. now rewrite Ho, Hh.
Qed.

Lemma convertHtmlToMarkdown_without_parser_witness :
  convertHtmlToMarkdown Sample.noCollaborators "<p>x</p>" Sample.noOptions
  = mkOutcome []
      (inl (Error "DOMParser is not available. Please provide an overrideDOMParser in options.")).
Proof.
  apply (convertHtmlToMarkdown_without_parser Sample.noCollaborators "<p>x</p>"
           Sample.noOptions); reflexivity.
Defined.

(** ** Numbers *)

Lemma nearestDouble_small (n : Z) :
  (0 <= n <= 2 ^ 53)%Z -> Js.nearestDouble n = n.
Proof.
  intros [H0 H1]. unfold Js.nearestDouble.
  destruct (Z.eq_dec n (2 ^ 53)%Z) as [->|Hne]; [reflexivity|].
  destruct (Z.eq_dec n 0%Z) as [->|Hn0]; [reflexivity|].
  assert (Z.log2 n < 53)%Z as Hl by (apply Z.log2_lt_pow2; lia).
  cbv zeta. destruct (Z.log2 n - 52 <=? 0)%Z eqn:E; [reflexivity|lia].
Qed.

Lemma ofInteger_small (z : Z) :
  (- 2 ^ 53 <= z <= 2 ^ 53)%Z -> Js.ofInteger z = Js.Int z.
Proof.
  intros H. unfold Js.ofInteger.
  rewrite nearestDouble_small by lia. cbv zeta.
  assert (2 ^ 53 < 2 ^ 1024)%Z by (apply Z.pow_lt_mono_r; lia).
  destruct (2 ^ 1024 <=? Z.abs z)%Z eqn:E; [lia|].
  f_equal. lia.
Qed.

Lemma add_small (x y : Z) :
  (- 2 ^ 53 <= x + y <= 2 ^ 53)%Z -> Js.add (Js.Int x) (Js.Int y) = Js.Int (x + y).
Proof. intros H. simpl. now apply ofInteger_small. Qed.

Lemma countUp_small (fuel : nat) (x y : Z) :
  (- 2 ^ 53 <= x)%Z -> (y <= 2 ^ 53)%Z -> (x <= y)%Z ->
  fuel = Z.to_nat (y - x) ->
  Js.countUp fuel (Js.Int x) (Js.Int y) = Some fuel.
Proof.
  revert x. induction fuel as [|fuel IH]; intros x Hx Hy Hxy Hf.
  - simpl. destruct (x <? y)%Z eqn:E; [lia|reflexivity].
  - cbn [Js.countUp Js.lt]. destruct (x <? y)%Z eqn:E; [|lia].
    rewrite add_small by lia. rewrite IH by lia. reflexivity.
Qed.

Lemma loopTurns_small (x y : Z) :
  (- 2 ^ 53 <= x)%Z -> (y <= 2 ^ 53)%Z ->
  loopTurns (Js.Int x) (Js.Int y) = Z.to_nat (y - x).
Proof.
  intros Hx Hy. unfold loopTurns, Js.turns.
  destruct (Z.le_gt_cases x y) as [Hle|Hgt].
  - now rewrite (countUp_small _ x y Hx Hy Hle eq_refl).
  - replace (Z.to_nat (y - x)) with 0 by lia. simpl.
    destruct (x <? y)%Z eqn:E; [lia|reflexivity].
Qed.

Lemma max2_ints (a b : Z) : Js.max2 (Js.Int a) (Js.Int b) = Js.Int (Z.max a b).
Proof. simpl. destruct (a <? b)%Z eqn:E; f_equal; lia. Qed.

Lemma max_ints (zs : list Z) (z : Z) :
  In z zs ->
  exists m, Js.max (List.map Js.Int zs) = Js.Int m /\ (z <= m)%Z /\ In m zs.
Proof.
  unfold Js.max. destruct zs as [|z0 r]; [intros []|].
  cbn [List.map fold_left].
  change (Js.max2 Js.NegInfinity (Js.Int z0)) with (Js.Int z0).
  assert (forall l a,
             exists m, fold_left Js.max2 (List.map Js.Int l) (Js.Int a) = Js.Int m
                       /\ (a <= m)%Z /\ (forall x, In x l -> (x <= m)%Z)
                       /\ (m = a \/ In m l)) as Hfold.
  { induction l as [|x l IH]; intros a.
    - exists a. simpl. repeat split; [lia|intros ? []|now left].
    - cbn [List.map fold_left]. rewrite max2_ints.
      destruct (IH (Z.max a x)) as (m & E & Ha & Hall & Hin).
      exists m. split; [exact E|]. split; [lia|]. split.
      + intros y [->|Hy]; [lia|now apply Hall].
      + destruct Hin as [->|Hin]; [|right; now right].
        destruct (Z.max_spec a x) as [[_ ->]|[_ ->]]; [right; now left|now left]. }
  destruct (Hfold r z0) as (m & E & Ha & Hall & Hin).
  intros Hz. exists m. split; [exact E|]. split.
  - destruct Hz as [->|Hz]; [exact Ha|now apply Hall].
  - destruct Hin as [->|Hin]; [now left|now right].
Qed.

(** ** Bars *)

Lemma unescapedBars_space (a b : string) :
  unescapedBars (a +:+ String " " b) = unescapedBars a + unescapedBars b.
Proof.
  assert (forall n a, String.length a <= n ->
             unescapedBars (a +:+ String " " b) = unescapedBars a + unescapedBars b)
    as H; [|apply (H (String.length a)); lia].
  induction n as [|n IH]; intros s Hs.
  - destruct s; [reflexivity|simpl in Hs; lia].
  - destruct s as [|c r]; [reflexivity|].
    destruct (Ascii.eqb_spec c "\") as [->|Hb].
    + destruct r as [|d r']; [reflexivity|].
      rewrite !append_cons. cbn [unescapedBars].
      apply IH. simpl in Hs. lia.
    + destruct (Ascii.eqb_spec c "|") as [->|Hp].
      * rewrite append_cons. cbn [unescapedBars].
        rewrite IH by (simpl in Hs; lia). reflexivity.
      * rewrite append_cons.
        assert (forall t, unescapedBars (String c t) = unescapedBars t) as E.
        { intros t. destruct c as [[] [] [] [] [] [] [] []];
            try reflexivity; congruence. }
        rewrite !E. apply IH. simpl in Hs. lia.
Qed.

Lemma unescapedBars_space_end (a : string) :
  unescapedBars (a +:+ " ") = unescapedBars a.
Proof. rewrite unescapedBars_space. simpl. lia. Qed.

Lemma plainText_cons c r :
  plainText (String c r)
  = negb (Ascii.eqb c "\" || Ascii.eqb c "|") && plainText r.
Proof. reflexivity. Qed.

Lemma plainText_app a b : plainText (a +:+ b) = plainText a && plainText b.
Proof.
  induction a as [|c r IH]; [reflexivity|].
  rewrite append_cons, !plainText_cons, IH. now rewrite andb_assoc.
Qed.

Lemma unescapedBars_plain (p x : string) :
  plainText p = true -> unescapedBars (p +:+ x) = unescapedBars x.
Proof.
  induction p as [|c r IH]; [reflexivity|].
  rewrite plainText_cons. intros [Hc Hr]%andb_true_iff.
  rewrite append_cons. rewrite <- (IH Hr).
  destruct c as [[] [] [] [] [] [] [] []]; try reflexivity; discriminate Hc.
Qed.

Lemma unescapedBars_plain_end (p : string) :
  plainText p = true -> unescapedBars p = 0.
Proof.
  intros H. rewrite <- (append_nil_r p). now rewrite unescapedBars_plain.
Qed.

(** The text of a number has no bar. *)
Lemma plainText_uint (d : Decimal.uint) : plainText (NilZero.string_of_uint d) = true.
Proof.
  assert (forall u, plainText (NilEmpty.string_of_uint u) = true) as H
    by (induction u; simpl; auto).
  destruct d; try reflexivity; apply (H (_ d)).
Qed.

Lemma plainText_repeat (s : string) (n : nat) :
  plainText s = true -> plainText (Js.repeat s n) = true.
Proof.
  intros Hs. induction n as [|n IH]; [reflexivity|].
  simpl. now rewrite plainText_app, Hs, IH.
Qed.

Lemma plainText_ofPositive (m : Z) : plainText (Js.ofPositive m) = true.
Proof.
  unfold Js.ofPositive, Js.digitsOf.
  destruct (m <? 2 ^ 53)%Z; [apply plainText_uint|].
  destruct (Js.shortestDigits m) as [s n].
  pose proof (plainText_uint (N.to_uint (Z.to_N s))) as Hd.
  destruct (Nat.leb n 21).
  - rewrite plainText_app, Hd. now apply plainText_repeat.
  - destruct (NilZero.string_of_uint (N.to_uint (Z.to_N s))) as [|d more] eqn:E;
      [reflexivity|].
    rewrite plainText_cons in Hd. apply andb_true_iff in Hd as [Hd1 Hd2].
    destruct more as [|d' more'].
    + rewrite plainText_app, plainText_cons, Hd1. simpl.
      apply (plainText_uint (Nat.to_uint (n - 1))).
    + rewrite !plainText_app, plainText_cons, Hd1, Hd2. simpl.
      apply (plainText_uint (Nat.to_uint (n - 1))).
Qed.

Lemma plainText_ofNumber (a : Js.number) : plainText (Js.ofNumber a) = true.
Proof.
  destruct a as [| | |z]; try reflexivity. simpl.
  destruct (z <? 0)%Z; [|apply plainText_ofPositive].
  rewrite plainText_app. simpl. apply plainText_ofPositive.
Qed.

(** ** Table rows *)

Lemma unescapedBars_bar_blank (x : string) :
  unescapedBars ("| " +:+ x) = S (unescapedBars x).
Proof. reflexivity. Qed.

(** The bars of chunks that each end in a blank add up. *)
Lemma unescapedBars_chunks (chunks : list string) (tail : string) :
  Forall (fun chunk => exists body, chunk = body +:+ " ") chunks ->
  unescapedBars (concatStrings chunks +:+ tail)
  = list_sum (List.map unescapedBars chunks) + unescapedBars tail.
Proof.
  induction 1 as [|chunk rest [body ->] _ IH]; [reflexivity|].
  cbn [concatStrings fold_right List.map list_sum].
  fold (concatStrings rest).
  rewrite unescapedBars_space_end, !append_assoc.
  change (" " +:+ ?x) with (String " " x).
  rewrite unescapedBars_space, IH. unfold list_sum. lia.
Qed.

Lemma unescapedBars_comment (x opener c : string) :
  plainText opener = true ->
  unescapedBars (x +:+ String " " opener +:+ c +:+ " -->")
  = unescapedBars x + unescapedBars c.
Proof.
  intros Hl. rewrite append_cons, unescapedBars_space. f_equal.
  rewrite (unescapedBars_plain opener) by assumption.
  change (" -->") with (String " " "-->").
  rewrite unescapedBars_space. simpl. lia.
Qed.

Lemma colspanOr1_spanOf (cell : TableCellNode Node) :
  colspanNotNegative cell ->
  colspanOr1 cell = Js.Int (spanOf cell) /\ (1 <= spanOf cell)%Z.
Proof.
  unfold colspanNotNegative, colspanOr1, spanOf.
  destruct (colspan cell) as [[| | |z]|]; try contradiction.
  - intros Hz. destruct z as [|p|p]; simpl; try lia; (split; [reflexivity|lia]).
  - intros _. split; [reflexivity|lia].
Qed.

Lemma rowSpan_cons cell row :
  rowSpan (cell :: row) = (spanOf cell + rowSpan row)%Z.
Proof.
  unfold rowSpan. simpl.
  assert (forall l a,
             fold_left (fun sum c : _ => (sum + spanOf c)%Z) l a
             = (a + fold_left (fun sum (c : TableCellNode Node) =>
                                 (sum + spanOf c)%Z) l 0)%Z) as shift.
  { induction l as [|c r IH]; intros a; simpl; [lia|].
    rewrite IH, (IH (0 + _)%Z). lia. }
  rewrite shift. lia.
Qed.

Lemma rowSpan_positive (row : list (TableCellNode Node)) :
  Forall colspanNotNegative row ->
  (0 <= rowSpan row)%Z /\ Forall (fun cell => (spanOf cell <= rowSpan row)%Z) row.
Proof.
  induction 1 as [|cell rest Hc _ [IH0 IHall]]; [split; [reflexivity|constructor]|].
  rewrite rowSpan_cons. destruct (colspanOr1_spanOf cell Hc) as [_ H1].
  split; [lia|]. constructor; [lia|].
  eapply List.Forall_impl; [|exact IHall]. simpl. intros; lia.
Qed.

(** While the colspans of a row add up to an integer that a double holds,
    the sum of the renderer is their sum. *)
Lemma fold_add_rowSpan (cells : list (TableCellNode Node)) (start : Z) :
  Forall colspanNotNegative cells ->
  (0 <= start)%Z -> (start + rowSpan cells <= 2 ^ 53)%Z ->
  fold_left (fun sum cell => Js.add sum (colspanOr1 cell)) cells (Js.Int start)
  = Js.Int (start + rowSpan cells).
Proof.
  intros Hwf. revert start.
  induction Hwf as [|cell rest Hc Hrest IH]; intros start H0 Hle.
  - simpl. f_equal. unfold rowSpan. simpl. lia.
  - rewrite rowSpan_cons in *. cbn [fold_left].
    destruct (colspanOr1_spanOf cell Hc) as [-> H1].
    destruct (rowSpan_positive rest Hrest) as [Hr0 _].
    rewrite add_small by lia. rewrite IH by lia. f_equal. lia.
Qed.

Lemma sumColspans_rowSpan (row : list (TableCellNode Node)) :
  Forall colspanNotNegative row -> countable (rowSpan row) ->
  sumColspans row = Js.Int (rowSpan row).
Proof.
  intros Hwf Hc. unfold sumColspans.
  rewrite fold_add_rowSpan by (try assumption; unfold countable in Hc; lia).
  reflexivity.
Qed.

Lemma renderedCells_snd options indentLevel (row : list (TableCellNode Node)) :
  List.map snd (renderedCells options indentLevel row) = row.
Proof. unfold renderedCells. rewrite List.map_map. simpl. apply List.map_id. Qed.

Lemma currentColumn_rowSpan (cells : list (string * TableCellNode Node)) :
  Forall colspanNotNegative (List.map snd cells) ->
  countable (rowSpan (List.map snd cells)) ->
  fold_left (fun currentColumn rc => Js.add currentColumn (colspanOr1 (snd rc)))
    cells (Js.Int 0)
  = Js.Int (rowSpan (List.map snd cells)).
Proof.
  intros Hwf Hc.
  rewrite <- (sumColspans_rowSpan _ Hwf Hc). unfold sumColspans.
  generalize (Js.Int 0). induction cells as [|rc r IH]; intros start; [reflexivity|].
  simpl in *. inversion Hwf as [|? ? Hrc Hr]; subst. apply IH; [assumption|].
  unfold countable in *. rewrite rowSpan_cons in Hc.
  destruct (colspanOr1_spanOf (snd rc) Hrc) as [_ Hone]. lia.
Qed.

(** In a table whose rows add up to integers that a double holds, the
    greatest sum is one of them. *)
Lemma computeMaxColumns_rowSpan (rows : list (list (TableCellNode Node))) row :
  (forall r, In r rows -> Forall colspanNotNegative r /\ countable (rowSpan r)) ->
  In row rows ->
  exists m, computeMaxColumns rows = Js.Int m
            /\ (rowSpan row <= m <= 2 ^ 53)%Z.
Proof.
  intros Hwf Hin. unfold computeMaxColumns.
  assert (List.map sumColspans rows = List.map Js.Int (List.map rowSpan rows)) as ->.
  { rewrite List.map_map. apply map_ext_in. intros r Hr.
    destruct (Hwf r Hr). now apply sumColspans_rowSpan. }
  destruct (max_ints (List.map rowSpan rows) (rowSpan row)) as (m & E & Hle & Hm).
  { apply in_map_iff. now exists row. }
  exists m. split; [exact E|]. split; [exact Hle|].
  apply in_map_iff in Hm as (r & <- & Hr). destruct (Hwf r Hr) as [_ Hc]. exact Hc.
Qed.

(** What a cell appends has one bar for each column that it spans. *)
Lemma cellChunks_bars (content : string) (cell : TableCellNode Node) :
  unescapedBars content = 0 -> colIdWithoutBar cell ->
  colspanNotNegative cell -> countable (spanOf cell) ->
  Z.of_nat (list_sum (List.map unescapedBars (cellChunks content cell)))
  = spanOf cell
  /\ Forall (fun chunk => exists body, chunk = body +:+ " ") (cellChunks content cell).
Proof.
  intros Hcontent Hid Hspan Hcount. unfold cellChunks.
  set (c1 := match colId cell with
             | Some c => if Js.truthy c then _ else content
             | None => content
             end).
  assert (unescapedBars c1 = 0) as H1.
  { subst c1. unfold colIdWithoutBar in Hid. destruct (colId cell) as [c|]; [|assumption].
    destruct (Js.truthy c); [|assumption].
    rewrite (unescapedBars_comment content "<!-- " c) by reflexivity. lia. }
  set (c2 := match colspan cell with
             | Some c => if Js.gt c (Js.Int 1) then _ else c1
             | None => c1
             end).
  assert (unescapedBars c2 = 0) as H2.
  { subst c2. destruct (colspan cell) as [c|]; [|assumption].
    destruct (Js.gt c (Js.Int 1)); [|assumption].
    rewrite (unescapedBars_comment c1 "<!-- colspan: " (Js.ofNumber c)) by reflexivity.
    rewrite (unescapedBars_plain_end (Js.ofNumber c)) by apply plainText_ofNumber.
    lia. }
  set (c3 := match rowspan cell with
             | Some r => if Js.gt r (Js.Int 1) then _ else c2
             | None => c2
             end).
  assert (unescapedBars c3 = 0) as H3.
  { subst c3. destruct (rowspan cell) as [r|]; [|assumption].
    destruct (Js.gt r (Js.Int 1)); [|assumption].
    rewrite (unescapedBars_comment c2 "<!-- rowspan: " (Js.ofNumber r)) by reflexivity.
    rewrite (unescapedBars_plain_end (Js.ofNumber r)) by apply plainText_ofNumber.
    lia. }
  clearbody c3. destruct (colspanOr1_spanOf cell Hspan) as [-> Hone].
  rewrite loopTurns_small by (unfold countable in Hcount; lia).
  split.
  - cbn [List.map]. change (list_sum (?a :: ?l)) with (a + list_sum l).
    rewrite unescapedBars_bar_blank, unescapedBars_space_end, H3.
    assert (forall n, list_sum (List.map unescapedBars (List.repeat "| " n)) = n) as Hrep
      by (induction n as [|n IH]; simpl; [reflexivity|now rewrite IH]).
    rewrite Hrep. lia.
  - constructor; [now exists ("| " +:+ c3)|].
    apply List.Forall_forall. intros chunk ->%repeat_spec. now exists "|".
Qed.

Lemma flat_map_cellChunks_bars (cells : list (string * TableCellNode Node)) :
  Forall (fun rc => unescapedBars (fst rc) = 0) cells ->
  Forall colIdWithoutBar (List.map snd cells) ->
  Forall colspanNotNegative (List.map snd cells) ->
  countable (rowSpan (List.map snd cells)) ->
  Z.of_nat (list_sum (List.map unescapedBars
                        (flat_map (fun rc => cellChunks (fst rc) (snd rc)) cells)))
  = rowSpan (List.map snd cells)
  /\ Forall (fun chunk => exists body, chunk = body +:+ " ")
       (flat_map (fun rc => cellChunks (fst rc) (snd rc)) cells).
Proof.
  induction cells as [|rc r IH]; intros Hb Hid Hwf Hc; [split; [reflexivity|constructor]|].
  cbn [List.map flat_map] in *.
  inversion Hb as [|? ? Hb1 Hb2]; inversion Hid as [|? ? Hid1 Hid2];
    inversion Hwf as [|? ? Hwf1 Hwf2]; subst.
  rewrite rowSpan_cons in *.
  destruct (rowSpan_positive (List.map snd r) Hwf2) as [Hr0 _].
  destruct (colspanOr1_spanOf (snd rc) Hwf1) as [_ Hone].
  destruct (cellChunks_bars (fst rc) (snd rc)) as [Hcell Hends]; try assumption.
  { unfold countable in *. lia. }
  destruct IH as [IHsum IHends]; try assumption.
  { unfold countable in *. lia. }
  split.
  - rewrite List.map_app, list_sum_app, Nat2Z.inj_add. lia.
  - apply Forall_app. now split.
Qed.

Lemma fold_left_pointwise {A B} (f g : A -> B -> A) (l : list B) (a : A) :
  (forall a x, f a x = g a x) -> fold_left f l a = fold_left g l a.
Proof.
  intros H. revert a. induction l as [|x l IH]; intros a; [reflexivity|].
  simpl. now rewrite H, IH.
Qed.

(** When no override applies, a table appends its rows one after the
    other, each with its line feed, and a blank line. *)
Lemma renderNode_table options rows colIds indentLevel markdownString :
  nodeRenderingOverride options (table rows colIds) indentLevel = None ->
  renderNode options (table rows colIds) indentLevel markdownString
  = fold_left
      (fun markdownString row =>
         markdownString
         +:+ emittedRow options indentLevel (computeMaxColumns rows) row +:+ LF)
      rows markdownString
    +:+ LF.
Proof.
  intros Ho. simpl. rewrite Ho. unfold emittedRow, renderedCells. f_equal.
  apply fold_left_pointwise. intros acc row. now rewrite !append_assoc.
Qed.

(** C5 (as stated, refuted): the table
    [<table><tr><td><code>a|b</code></td></tr><tr><td>c</td></tr></table>]
    has one column; the bar of the inline code is not escaped, and the
    first row is emitted with two cell columns. *)
Lemma code_cell_with_bar_row_count :
  ~ (forall (rows : list (list (TableCellNode Node))) colIds options indentLevel row,
       In (table rows colIds)
         (match htmlToMarkdownAST Sample.noCollaborators SampleTable.codeWithBar
                  options 0 with
          | inr nodes => nodes
          | inl _ => []
          end) ->
       In row rows ->
       Js.Int (barColumns (emittedRow options indentLevel (computeMaxColumns rows) row))
       = computeMaxColumns rows).
Proof.
  intros H.
  specialize (H [[mkCell (inr [code None "a|b" true]) None None None];
                 [mkCell (inr [text "c"]) None None None]]
                (Some []) Sample.noOptions 0
                [mkCell (inr [code None "a|b" true]) None None None]
                (or_introl eq_refl) (or_introl eq_refl)).
  vm_compute in H. discriminate H.
Qed.

(** The same table as it is converted: the bar of the inline code stands
    in the first row as it is. *)
Example code_cell_with_bar_rendered :
  convertElementToMarkdown Sample.noCollaborators SampleTable.codeWithBar
    Sample.noOptions
  = inr ("| `a|b` |" +:+ LF +:+ "| c |" +:+ LF +:+ LF, None)
  /\ barColumns "| `a|b` |" = 2%Z.
Proof. vm_compute. split; reflexivity. Qed.

(** A row whose cell has a negative colspan is emitted with more cell
    columns than the table has: with colspan -2 over a row of one cell,
    four against one. *)
Example negative_colspan_row_count :
  computeMaxColumns SampleTable.negative = Js.Int 1
  /\ renderNode Sample.noOptions (table SampleTable.negative None) 0 EmptyString
     = "| odd |  |  |  |" +:+ LF +:+ "| a |" +:+ LF +:+ LF
  /\ barColumns "| odd |  |  |  |" = 4%Z.
Proof. vm_compute. repeat split; reflexivity. Qed.

(** C5 (amended): take a table node to which no renderer override
    applies, whose colspans, where present, are integers that are not
    negative and add up in each row to an integer that a double holds, and
    whose cells have no unescaped bar in their rendered content and their
    column id.  Each of its rows is emitted with exactly [maxColumns] cell
    columns between the bars, the empty cells of a colspan and the cells
    that fill the row counted in. *)
Theorem table_rows_have_maxColumns_cells
    (rows : list (list (TableCellNode Node))) (colIds : option (list string))
    (options : ConversionOptions) (indentLevel : nat) (markdownString : string) :
  nodeRenderingOverride options (table rows colIds) indentLevel = None ->
  (forall row, In row rows ->
     Forall colspanNotNegative row /\ countable (rowSpan row)) ->
  (forall row, In row rows ->
     Forall colIdWithoutBar row
     /\ Forall (fun rendered => unescapedBars (fst rendered) = 0)
          (renderedCells options indentLevel row)) ->
  renderNode options (table rows colIds) indentLevel markdownString
  = fold_left
      (fun markdownString row =>
         markdownString
         +:+ emittedRow options indentLevel (computeMaxColumns rows) row +:+ LF)
      rows markdownString
    +:+ LF
  /\ forall row,
       In row rows ->
       Js.Int (barColumns (emittedRow options indentLevel (computeMaxColumns rows) row))
       = computeMaxColumns rows.
Proof.
  intros Ho Hwf Hbars. split; [now apply renderNode_table|].
  intros row Hin.
  destruct (Hwf row Hin) as [Hspans Hcount].
  destruct (Hbars row Hin) as [Hids Hcontents].
  destruct (computeMaxColumns_rowSpan rows row Hwf Hin) as (m & -> & Hle & Hm).
  f_equal. unfold barColumns, emittedRow, rowChunks.
  pose proof (renderedCells_snd options indentLevel row) as Hsnd.
  rewrite currentColumn_rowSpan by (rewrite Hsnd; assumption).
  rewrite Hsnd.
  destruct (rowSpan_positive row Hspans) as [H0 _].
  rewrite loopTurns_small by lia.
  destruct (flat_map_cellChunks_bars (renderedCells options indentLevel row))
    as [Hsum Hends]; try (rewrite Hsnd; assumption); [assumption|].
  rewrite Hsnd in Hsum.
  rewrite unescapedBars_chunks.
  - rewrite List.map_app, list_sum_app.
    assert (forall n, list_sum (List.map unescapedBars (List.repeat "|  " n)) = n) as Hrep
      by (induction n as [|n IH]; simpl; [reflexivity|now rewrite IH]).
    rewrite Hrep. simpl unescapedBars. lia.
  - apply Forall_app. split; [exact Hends|].
    apply List.Forall_forall. intros chunk ->%repeat_spec. now exists "| ".
Qed.

Lemma table_rows_have_maxColumns_cells_witness :
  renderNode Sample.noOptions (table SampleTable.spanning None) 0 EmptyString
  = fold_left
      (fun markdownString row =>
         markdownString
         +:+ emittedRow Sample.noOptions 0 (computeMaxColumns SampleTable.spanning) row
         +:+ LF)
      SampleTable.spanning EmptyString
    +:+ LF
  /\ forall row,
       In row SampleTable.spanning ->
       Js.Int (barColumns
                 (emittedRow Sample.noOptions 0
                    (computeMaxColumns SampleTable.spanning) row))
       = computeMaxColumns SampleTable.spanning.
Proof.
  apply (table_rows_have_maxColumns_cells SampleTable.spanning None
           Sample.noOptions 0 EmptyString).
  - reflexivity.
  - intros row [<-|[<-|[]]]; (split; [|vm_compute; discriminate]);
      repeat (apply List.Forall_cons; [vm_compute; try exact I; discriminate|]);
      apply List.Forall_nil.
  - intros row [<-|[<-|[]]]; split;
      repeat (apply List.Forall_cons; [vm_compute; try exact I; reflexivity|]);
      apply List.Forall_nil.
Defined.

(** ** Links *)

Lemma renderNode_text options content indentLevel markdownString :
  overrideNodeRenderer options = None ->
  renderNode options (text content) indentLevel markdownString
  = markdownString +:+ inlineSeparator markdownString content
    +:+ (Js.repeat " " (indentLevel * 2) +:+ content).
Proof.
  intros Ho. simpl. unfold nodeRenderingOverride. rewrite Ho. reflexivity.
Qed.

Lemma markdownContentASTToString_single_text options content indentLevel :
  overrideNodeRenderer options = None ->
  markdownContentASTToString options [text content] indentLevel
  = Js.repeat " " (indentLevel * 2) +:+ content.
Proof.
  intros Ho. unfold markdownContentASTToString. cbn [fold_left].
  rewrite renderNode_text by assumption. reflexivity.
Qed.

Lemma renderNode_link options href content indentLevel markdownString :
  overrideNodeRenderer options = None ->
  renderNode options (link href content) indentLevel markdownString
  = let c := markdownContentASTToString options content indentLevel in
    markdownString +:+ inlineSeparator markdownString c
    +:+ (if isSingleText content then compactLink c href else htmlLink c href).
Proof.
  intros Ho. simpl. unfold nodeRenderingOverride. rewrite Ho.
  destruct content as [|first rest]; [reflexivity|].
  destruct first, rest; reflexivity.
Qed.

Lemma translate_a_text_only options rec linkNode result indentLevel :
  isDataImageHref linkNode = false ->
  forallb isTextNode (Dom.childNodes linkNode) = true ->
  translate_a options rec linkNode result indentLevel
  = inr (result ++ [link (anchorHref options linkNode)
                      [text (Js.trim (Dom.textContent linkNode))]]).
Proof.
  intros Hd Ht. unfold translate_a.
  fold (isDataImageHref linkNode). rewrite Hd, Ht. reflexivity.
Qed.

Lemma translate_a_rich options rec linkNode result indentLevel :
  isDataImageHref linkNode = false ->
  forallb isTextNode (Dom.childNodes linkNode) = false ->
  translate_a options rec linkNode result indentLevel
  = match rec linkNode 0 with
    | inl thrown => inl thrown
    | inr [] => inr result
    | inr content => inr (result ++ [link (anchorHref options linkNode) content])
    end.
Proof.
  intros Hd Ht. unfold translate_a.
  fold (isDataImageHref linkNode). rewrite Hd, Ht.
  destruct (rec linkNode 0) as [thrown|[|first rest]]; reflexivity.
Qed.

(** An anchor that no option singles out goes to [translate_a]. *)
Lemma processElement_anchor options collaborators rec indentLevel
    (child : Dom.Element) result :
  overrideElementProcessing options = None ->
  excludeTagNames options = None ->
  excludeInvisibleElements options = false ->
  Js.toLowerCase (Dom.tagName child) = "a" ->
  processElement options collaborators rec indentLevel child result
  = translate_a options rec child result indentLevel.
Proof.
  intros Ho He Hv Ht. unfold processElement. rewrite Ho, He, Hv, Ht. reflexivity.
Qed.

(** C3 (as stated, refuted): the anchor [<a href=...><span>hi</span></a>]
    has a child that is not a text node, and is rendered in the compact
    form. *)
Lemma anchor_with_span_renders_compact :
  ~ (forall href children,
       forallb isTextNode children = false ->
       exists c urlMap,
         convertElementToMarkdown Sample.noCollaborators
           (Sample.container [Sample.anchor href children]) Sample.noOptions
         = inr (htmlLink c href, urlMap)).
Proof.
  intros H.
  destruct (H "https://example.com/" [Sample.plain "SPAN" [Dom.Text "hi"]] eq_refl)
    as (c & urlMap & Hc).
  assert (convertElementToMarkdown Sample.noCollaborators
            (Sample.container
               [Sample.anchor "https://example.com/"
                  [Sample.plain "SPAN" [Dom.Text "hi"]]]) Sample.noOptions
          = inr ("[hi](https://example.com/)", None)) as E by (vm_compute; reflexivity).
  rewrite E in Hc. unfold htmlLink in Hc. discriminate Hc.
Qed.

(** C3 (amended): a link node whose content is exactly one text node is
    rendered in the compact form [[text](url-encoded href)], and any other
    link node as an HTML [<a href="...">] tag around its rendered content.
    An anchor whose href is not a [data:image] URL and whose child nodes
    are all text nodes gives a link node of the first kind; with a child
    that is not a text node the link node holds the translated content,
    whatever it is. *)
Theorem link_rendering_forms
    (options : ConversionOptions) (rec : Dom.Element -> nat -> Throws (list Node))
    (linkNode : Dom.Element) (result : list Node) (indentLevel : nat)
    (markdownString : string) :
  overrideNodeRenderer options = None ->
  isDataImageHref linkNode = false ->
  (forall href content,
      renderNode options (link href content) indentLevel markdownString
      = let c := markdownContentASTToString options content indentLevel in
        markdownString +:+ inlineSeparator markdownString c
        +:+ (if isSingleText content then compactLink c href else htmlLink c href))
  /\ (forallb isTextNode (Dom.childNodes linkNode) = true ->
      let t := Js.trim (Dom.textContent linkNode) in
      let c := Js.repeat " " (indentLevel * 2) +:+ t in
      translate_a options rec linkNode result indentLevel
      = inr (result ++ [link (anchorHref options linkNode) [text t]])
      /\ renderNode options (link (anchorHref options linkNode) [text t])
           indentLevel markdownString
         = markdownString +:+ inlineSeparator markdownString c
           +:+ compactLink c (anchorHref options linkNode))
  /\ (forallb isTextNode (Dom.childNodes linkNode) = false ->
      translate_a options rec linkNode result indentLevel
      = match rec linkNode 0 with
        | inl thrown => inl thrown
        | inr [] => inr result
        | inr content =>
            inr (result ++ [link (anchorHref options linkNode) content])
        end).
Proof.
  intros Ho Hd. split; [|split].
  - intros href content. now apply renderNode_link.
  - intros Ht. split; [now apply translate_a_text_only|].
    rewrite renderNode_link by assumption. cbv zeta.
    rewrite markdownContentASTToString_single_text by assumption. reflexivity.
  - intros Ht. now apply translate_a_rich.
Qed.

Lemma link_rendering_forms_witness :
  (forall href content,
      renderNode Sample.noOptions (link href content) 0 "See"
      = let c := markdownContentASTToString Sample.noOptions content 0 in
        "See" +:+ inlineSeparator "See" c
        +:+ (if isSingleText content then compactLink c href else htmlLink c href))
  /\ (forallb isTextNode
        (Dom.childNodes (Sample.anchorElement "https://example.com/" [Dom.Text " docs "]))
      = true ->
      let t := Js.trim (Dom.textContent
                          (Sample.anchorElement "https://example.com/" [Dom.Text " docs "])) in
      let c := Js.repeat " " (0 * 2) +:+ t in
      translate_a Sample.noOptions (fun _ _ => inr [])
        (Sample.anchorElement "https://example.com/" [Dom.Text " docs "]) [] 0
      = inr ([] ++ [link (anchorHref Sample.noOptions
                            (Sample.anchorElement "https://example.com/"
                               [Dom.Text " docs "]))
                      [text t]])
      /\ renderNode Sample.noOptions
           (link (anchorHref Sample.noOptions
                    (Sample.anchorElement "https://example.com/" [Dom.Text " docs "]))
              [text t]) 0 "See"
         = "See" +:+ inlineSeparator "See" c
           +:+ compactLink c
                 (anchorHref Sample.noOptions
                    (Sample.anchorElement "https://example.com/" [Dom.Text " docs "])))
  /\ (forallb isTextNode
        (Dom.childNodes (Sample.anchorElement "https://example.com/" [Dom.Text " docs "]))
      = false ->
      translate_a Sample.noOptions (fun _ _ => inr [])
        (Sample.anchorElement "https://example.com/" [Dom.Text " docs "]) [] 0
      = match (fun (_ : Dom.Element) (_ : nat) => @inr Exception (list Node) [])
                (Sample.anchorElement "https://example.com/" [Dom.Text " docs "]) 0 with
        | inl thrown => inl thrown
        | inr [] => inr []
        | inr content =>
            inr ([] ++ [link (anchorHref Sample.noOptions
                                (Sample.anchorElement "https://example.com/"
                                   [Dom.Text " docs "]))
                          content])
        end).
Proof.
  apply (link_rendering_forms Sample.noOptions (fun _ _ => inr [])
           (Sample.anchorElement "https://example.com/" [Dom.Text " docs "])
           [] 0 "See"); reflexivity.
Defined.

(** C6 (the code at the failing inputs): the translated content of an
    anchor that holds only white space is empty, and yet the anchor puts a
    link node into the output, with an empty text for content, which is
    rendered as [[](https://example.com/)]; an anchor with a [data:image]
    href around an empty [span] puts a link node with no content at all
    into the output.  The same anchor with another href goes through the
    branch that checks its content, and contributes nothing. *)
Theorem anchor_pushes_empty_link :
  htmlToMarkdownAST Sample.noCollaborators
    (Sample.anchorElement "https://example.com/" [Dom.Text "   "]) Sample.noOptions 0
  = inr []
  /\ htmlToMarkdownAST Sample.noCollaborators
       (Sample.container [Sample.anchor "https://example.com/" [Dom.Text "   "]])
       Sample.noOptions 0
     = inr [link "https://example.com/" [text ""]]
  /\ convertElementToMarkdown Sample.noCollaborators
       (Sample.container [Sample.anchor "https://example.com/" [Dom.Text "   "]])
       Sample.noOptions
     = inr ("[](https://example.com/)", None)
  /\ htmlToMarkdownAST Sample.noCollaborators
       (Sample.container [Sample.anchor "https://example.com/" []]) Sample.noOptions 0
     = inr [link "https://example.com/" [text ""]]
  /\ htmlToMarkdownAST Sample.noCollaborators
       (Sample.container
          [Sample.anchor "data:image/png;base64,AAA" [Sample.plain "SPAN" []]])
       Sample.noOptions 0
     = inr [link "-" []]
  /\ htmlToMarkdownAST Sample.noCollaborators
       (Sample.container [Sample.anchor "https://example.com/" [Sample.plain "SPAN" []]])
       Sample.noOptions 0
     = inr [].
Proof. vm_compute. repeat split; reflexivity. Qed.

(** The branch of the anchor translator that does check: with a child that
    is not a text node and a href that is no [data:image] URL, every link
    node that the anchor pushes has a content that is not empty. *)
Lemma translate_a_rich_not_empty
    (options : ConversionOptions) (rec : Dom.Element -> nat -> Throws (list Node))
    (linkNode : Dom.Element) (result pushed : list Node) (indentLevel : nat) :
  isDataImageHref linkNode = false ->
  forallb isTextNode (Dom.childNodes linkNode) = false ->
  translate_a options rec linkNode result indentLevel = inr (result ++ pushed) ->
  forall href content, In (link href content) pushed -> content <> [].
Proof.
  intros Hd Ht. rewrite translate_a_rich by assumption.
  destruct (rec linkNode 0) as [thrown|[|first rest]]; try discriminate.
  - intros [= E]. rewrite <- (app_nil_r result) in E at 1.
    apply app_inv_head in E. subst pushed. intros ? ? [].
  - intros [= E]. apply app_inv_head in E. subst pushed.
    intros href content [E'|[]]. injection E' as _ <-. discriminate.
Qed.

(** ** The recursion of the translator *)

Lemma nodeHeight_elem d sh asg ch :
  nodeHeight (Dom.Elem d sh asg ch)
  = S (Nat.max (match sh with Some l => maxHeight l | None => 0 end)
         (Nat.max (maxHeight asg) (maxHeight ch))).
Proof. reflexivity. Qed.

Lemma maxHeight_In c l : In c l -> nodeHeight c <= maxHeight l.
Proof.
  induction l as [|x r IH]; [intros []|].
  intros [->|H]; simpl; [lia|]. specialize (IH H). lia.
Qed.

Lemma asElement_ofElement c e : Dom.asElement c = Some e -> Dom.ofElement e = c.
Proof. destruct c; simpl; intros E; try discriminate. now injection E as <-. Qed.

Lemma children_height (element child : Dom.Element) :
  In child (Dom.children element) ->
  nodeHeight (Dom.ofElement child) < nodeHeight (Dom.ofElement element).
Proof.
  unfold Dom.children. intros H.
  apply list_elem_of_In, list_elem_of_omap in H as (c & Hc & E).
  apply asElement_ofElement in E. rewrite E.
  apply list_elem_of_In, maxHeight_In in Hc.
  unfold Dom.ofElement. rewrite nodeHeight_elem. lia.
Qed.

Lemma descendants_height n (e : Dom.Element) :
  In e (Dom.descendants n) -> nodeHeight (Dom.ofElement e) < nodeHeight n.
Proof.
  induction n as [data| |d sh asg ch _ _ IHch] using Node_nested_ind;
    try (intros []).
  intros Hin. simpl in Hin.
  assert (nodeHeight (Dom.ofElement e) <= maxHeight ch);
    [|rewrite nodeHeight_elem; lia].
  revert Hin. induction IHch as [|c r Hc _ IHr]; [intros []|].
  intros [H|H]%in_app_iff; cbn [maxHeight].
  - destruct (Dom.asElement c) as [e'|] eqn:E; [|destruct H].
    destruct H as [->|H].
    + apply asElement_ofElement in E. rewrite E. lia.
    + specialize (Hc H). lia.
  - specialize (IHr H). lia.
Qed.

Lemma querySelectorAll_height names (element found : Dom.Element) :
  In found (Dom.querySelectorAll names element) ->
  nodeHeight (Dom.ofElement found) < nodeHeight (Dom.ofElement element).
Proof.
  unfold Dom.querySelectorAll. intros [H _]%filter_In.
  now apply descendants_height.
Qed.

Lemma mapThrows_ext_in {A B} (f g : A -> Throws B) (l : list A) :
  (forall x, In x l -> f x = g x) -> mapThrows f l = mapThrows g l.
Proof.
  induction l as [|x r IH]; intros H; [reflexivity|].
  simpl. rewrite (H x) by now left. rewrite IH; [reflexivity|].
  intros y Hy. apply H. now right.
Qed.

Section Agreement.

Variable options : ConversionOptions.
Variable collaborators : Collaborators.
Variables rec1 rec2 : Dom.Element -> nat -> Throws (list Node).
Variable h : nat.
Hypothesis agree : agreeUpTo h rec1 rec2.

Lemma tableCells_agree colIds indentLevel cells columnIndex :
  (forall cell : Dom.Element,
      In cell cells -> nodeHeight (Dom.ofElement cell) <= h) ->
  tableCells rec1 colIds indentLevel columnIndex cells
  = tableCells rec2 colIds indentLevel columnIndex cells.
Proof.
  revert columnIndex. induction cells as [|cell rest IH]; intros columnIndex Hh;
    [reflexivity|].
  simpl. rewrite IH by (intros c Hc; apply Hh; now right).
  rewrite (agree cell) by (apply Hh; now left). reflexivity.
Qed.

Lemma translate_table_agree (tableNode : Dom.Element) result indentLevel :
  nodeHeight (Dom.ofElement tableNode) <= h ->
  translate_table options rec1 tableNode result indentLevel
  = translate_table options rec2 tableNode result indentLevel.
Proof.
  intros Hh. unfold translate_table.
  set (colIds := if enableTableColumnTracking options then _ else _).
  assert (mapThrows
            (fun row => tableCells rec1 colIds indentLevel (Js.Int 0)
                          (Dom.querySelectorAll ["th"; "td"] row))
            (Dom.querySelectorAll ["tr"] tableNode)
          = mapThrows
              (fun row => tableCells rec2 colIds indentLevel (Js.Int 0)
                            (Dom.querySelectorAll ["th"; "td"] row))
              (Dom.querySelectorAll ["tr"] tableNode)) as ->; [|reflexivity].
  apply mapThrows_ext_in. intros row Hrow. apply tableCells_agree.
  intros cell Hcell.
  apply querySelectorAll_height in Hrow, Hcell. lia.
Qed.

Lemma listTranslator_agree (listNode : Dom.Element) result indentLevel :
  nodeHeight (Dom.ofElement listNode) <= h ->
  listTranslator rec1 listNode result indentLevel
  = listTranslator rec2 listNode result indentLevel.
Proof.
  intros Hh. unfold listTranslator.
  rewrite (mapThrows_ext_in (fun li => rec1 li (indentLevel + 1))
             (fun li => rec2 li (indentLevel + 1))); [reflexivity|].
  intros li Hli. apply agree.
  apply children_height in Hli. lia.
Qed.

Lemma translators_agree :
  Forall2 (fun e1 e2 => fst e1 = fst e2 /\ sameTranslation h (snd e1) (snd e2))
    (translators options rec1) (translators options rec2).
Proof.
  unfold translators.
  repeat (constructor; [split; [reflexivity|]|]); try constructor;
    unfold sameTranslation; intros child result indentLevel Hh; simpl;
    try reflexivity;
    try (apply translate_table_agree; assumption);
    try (apply listTranslator_agree; assumption);
    unfold translate_p, translate_a, translate_blockquote, headingTranslator,
      formattingTranslator, semanticHtmlTranslator;
    rewrite ?(agree child) by assumption; reflexivity.
Qed.

Lemma lookupTranslator_agree tagName :
  match lookupTranslator options rec1 tagName,
        lookupTranslator options rec2 tagName with
  | Some (Callable t1), Some (Callable t2) => sameTranslation h t1 t2
  | Some NotCallable, Some NotCallable => True
  | None, None => True
  | _, _ => False
  end.
Proof.
  unfold lookupTranslator.
  induction translators_agree as [|e1 e2 l1 l2 [Hk Ht] _ IH].
  - simpl. destruct (String.eqb tagName "constructor"); [now intros ? ? ? _|].
    now destruct (String.eqb tagName "__proto__").
  - simpl. rewrite <- Hk. destruct (String.eqb (fst e1) tagName); [exact Ht|exact IH].
Qed.

Lemma processElement_agree indentLevel (child : Dom.Element) result :
  nodeHeight (Dom.ofElement child) <= h ->
  processElement options collaborators rec1 indentLevel child result
  = processElement options collaborators rec2 indentLevel child result.
Proof.
  intros Hh. unfold processElement.
  destruct (match overrideElementProcessing options with
            | Some hook => hook child indentLevel
            | None => OverrideUndefined
            end); try reflexivity.
  destruct (match excludeTagNames options with
            | Some names => existsb _ names
            | None => false
            end); [reflexivity|].
  destruct (if String.eqb _ "head" then _ else _); [reflexivity|].
  destruct (_ && _); [reflexivity|].
  pose proof (lookupTranslator_agree (Js.toLowerCase (Dom.tagName child))) as Ht.
  destruct (lookupTranslator options rec1 _) as [[t1|]|],
           (lookupTranslator options rec2 _) as [[t2|]|]; try contradiction.
  - now apply Ht.
  - reflexivity.
  - destruct (match processUnhandledElement options with
              | Some hook => hook child indentLevel
              | None => None
              end); [reflexivity|].
    now rewrite (agree child) by assumption.
Qed.

Lemma processChild_agree indentLevel (child : Dom.Node) :
  forall result,
    nodeHeight child <= h ->
    processChild options collaborators rec1 indentLevel child result
    = processChild options collaborators rec2 indentLevel child result.
Proof.
  induction child as [data| |d sh asg ch _ IHasg _] using Node_nested_ind;
    intros result Hh; try reflexivity.
  simpl. destruct (isSlotElement _).
  - rewrite nodeHeight_elem in Hh.
    assert (maxHeight asg <= h) as Ha by lia. clear Hh.
    revert result. induction IHasg as [|c r Hc _ IHr]; intros result; [reflexivity|].
    simpl in Ha. rewrite Hc by lia.
    destruct (processChild options collaborators rec2 indentLevel c result);
      [reflexivity|]. apply IHr. lia.
  - apply (processElement_agree indentLevel (Dom.mkElement d sh asg ch) result Hh).
Qed.

End Agreement.

Lemma htmlToMarkdownAST_body_agree options collaborators rec1 rec2 h
    (element : Dom.Element) indentLevel :
  agreeUpTo h rec1 rec2 ->
  nodeHeight (Dom.ofElement element) <= S h ->
  htmlToMarkdownAST_body options collaborators rec1 element indentLevel
  = htmlToMarkdownAST_body options collaborators rec2 element indentLevel.
Proof.
  intros Hagree Hh. unfold htmlToMarkdownAST_body.
  unfold Dom.ofElement in Hh. rewrite nodeHeight_elem in Hh.
  set (childNodes := match Dom.shadowRoot element with
                     | Some l => l
                     | None => Dom.childNodes element
                     end).
  assert (maxHeight childNodes <= h) as Hc.
  { subst childNodes. destruct (Dom.shadowRoot element); lia. }
  clearbody childNodes. generalize (@nil Node) as result.
  induction childNodes as [|c r IH]; intros result; [reflexivity|].
  simpl in Hc |- *.
  rewrite (processChild_agree options collaborators rec1 rec2 h Hagree) by lia.
  destruct (processChild options collaborators rec2 indentLevel c result);
    [reflexivity|]. apply IH. lia.
Qed.

(** Any fuel that reaches the height of an element gives the same
    translation of it. *)
Lemma htmlToMarkdownAST_fuel_enough collaborators options h :
  forall fuel1 fuel2,
    h <= fuel1 -> h <= fuel2 ->
    agreeUpTo h (htmlToMarkdownAST_fuel fuel1 collaborators options)
      (htmlToMarkdownAST_fuel fuel2 collaborators options).
Proof.
  induction h as [|h IH]; intros fuel1 fuel2 H1 H2 element indentLevel Hh.
  - unfold Dom.ofElement in Hh. rewrite nodeHeight_elem in Hh. lia.
  - destruct fuel1 as [|fuel1]; [lia|]. destruct fuel2 as [|fuel2]; [lia|].
    simpl. apply (htmlToMarkdownAST_body_agree _ _ _ _ h); [|assumption].
    apply IH; lia.
Qed.

(** [htmlToMarkdownAST] satisfies the recursive equation of the source:
    its body, with itself for the recursive calls. *)
Theorem htmlToMarkdownAST_unfold collaborators (element : Dom.Element) options
    indentLevel :
  htmlToMarkdownAST collaborators element options indentLevel
  = htmlToMarkdownAST_body options collaborators
      (fun child level => htmlToMarkdownAST collaborators child options level)
      element indentLevel.
Proof.
  unfold htmlToMarkdownAST.
  destruct (nodeHeight (Dom.ofElement element)) as [|h] eqn:E.
  { unfold Dom.ofElement in E. rewrite nodeHeight_elem in E. discriminate. }
  change (htmlToMarkdownAST_fuel (S h) collaborators options element indentLevel)
    with (htmlToMarkdownAST_body options collaborators
            (htmlToMarkdownAST_fuel h collaborators options) element indentLevel).
  apply (htmlToMarkdownAST_body_agree _ _ _ _ h); [|lia].
  intros child level Hh.
  exact (htmlToMarkdownAST_fuel_enough collaborators options
           (nodeHeight (Dom.ofElement child)) h (nodeHeight (Dom.ofElement child))
           Hh (le_n _) child level (le_n _)).
Qed.

(** In a document translated without hooks and filters, an anchor is
    handled by [translate_a] with the translator itself for the recursive
    calls. *)
Lemma processChild_anchor options collaborators indentLevel d sh asg ch result :
  overrideElementProcessing options = None ->
  excludeTagNames options = None ->
  excludeInvisibleElements options = false ->
  Js.toLowerCase (Dom.tagName d) = "a" ->
  processChild options collaborators
    (fun child level => htmlToMarkdownAST collaborators child options level)
    indentLevel (Dom.Elem d sh asg ch) result
  = translate_a options
      (fun child level => htmlToMarkdownAST collaborators child options level)
      (Dom.mkElement d sh asg ch) result indentLevel.
Proof.
  intros Ho He Hv Ht. simpl.
  assert (isSlotElement (Dom.mkElement d sh asg ch) = false) as ->.
  { unfold isSlotElement. simpl. destruct (String.eqb_spec (Dom.tagName d) "SLOT") as [E|];
      [|reflexivity]. rewrite E in Ht. discriminate Ht. }
  now apply processElement_anchor.
Qed.

(** ** What URL refification leaves alone *)

Lemma forEach_eraseUrls {S} (f : Node -> State S Node) (l : list Node) (s : S) :
  Forall (fun x => forall s, eraseUrls (fst (f x s)) = eraseUrls x) l ->
  List.map eraseUrls (fst (forEach f l s)) = List.map eraseUrls l.
Proof.
  intros Hall. revert s. induction Hall as [|x r Hx _ IH]; intros s; [reflexivity|].
  simpl. specialize (Hx s). destruct (f x s) as [y s1].
  specialize (IH s1). destruct (forEach f r s1) as [ys s2].
  simpl in *. now rewrite Hx, IH.
Qed.

(** [refifyUrls] changes nothing but href and src fields. *)
Lemma refifyUrlsNode_eraseUrls (node : Node) :
  forall urlMap, eraseUrls (fst (refifyUrlsNode node urlMap)) = eraseUrls node.
Proof.
  revert node. fix IH 1. intros node.
  assert (forall l, Forall (fun x => forall s, eraseUrls (fst (refifyUrlsNode x s))
                                              = eraseUrls x) l) as Hall.
  { induction l as [|x r IHl]; constructor; [apply IH|assumption]. }
  assert (forall l s, List.map eraseUrls (fst (forEach refifyUrlsNode l s))
                      = List.map eraseUrls l) as Hlist.
  { intros l s. apply forEach_eraseUrls, Hall. }
  clear IH Hall.
  destruct node as [s|c|c|c|lv c|h c|src a|src p ctl|o items|rows ids|lang c i|c|t c|j|m];
    intros urlMap; try reflexivity.
  - simpl. unfold bind. destruct (processUrl h urlMap) as [h' m1].
    specialize (Hlist c m1). destruct (forEach refifyUrlsNode c m1) as [c' m2].
    simpl in *. now rewrite Hlist.
  - simpl. unfold bind. now destruct (processUrl src urlMap).
  - simpl. unfold bind. now destruct (processUrl src urlMap).
  - simpl. unfold bind.
    assert (forall s, List.map (List.map eraseUrls)
                        (fst (forEach (forEach refifyUrlsNode) items s))
                      = List.map (List.map eraseUrls) items) as Hitems.
    { induction items as [|item rest IHi]; intros s; [reflexivity|].
      simpl. specialize (Hlist item s).
      destruct (forEach refifyUrlsNode item s) as [item' s1].
      specialize (IHi s1).
      destruct (forEach (forEach refifyUrlsNode) rest s1) as [rest' s2].
      simpl in *. now rewrite Hlist, IHi. }
    specialize (Hitems urlMap).
    destruct (forEach (forEach refifyUrlsNode) items urlMap) as [items' m1].
    simpl in *. now rewrite Hitems.
  - simpl. unfold bind.
    set (cellStep := fun cell : TableCellNode Node => _).
    set (eraseCell := fun cell : TableCellNode Node => _).
    assert (forall cell s, eraseCell (fst (cellStep cell s)) = eraseCell cell) as Hcell.
    { intros [[s0|content] cid cs rs] s; subst cellStep eraseCell; simpl;
        [reflexivity|].
      unfold bind. specialize (Hlist content s).
      destruct (forEach refifyUrlsNode content s) as [content' s1].
      simpl in *. now rewrite Hlist. }
    assert (forall row s, List.map eraseCell (fst (forEach cellStep row s))
                          = List.map eraseCell row) as Hrow.
    { induction row as [|cell rest IHr]; intros s; [reflexivity|].
      simpl. specialize (Hcell cell s). destruct (cellStep cell s) as [cell' s1].
      specialize (IHr s1). destruct (forEach cellStep rest s1) as [rest' s2].
      simpl in *. now rewrite Hcell, IHr. }
    assert (forall rws s, List.map (List.map eraseCell)
                            (fst (forEach (forEach cellStep) rws s))
                          = List.map (List.map eraseCell) rws) as Hrows.
    { induction rws as [|row rest IHr]; intros s; [reflexivity|].
      simpl. specialize (Hrow row s). destruct (forEach cellStep row s) as [row' s1].
      specialize (IHr s1). destruct (forEach (forEach cellStep) rest s1) as [rest' s2].
      simpl in *. now rewrite Hrow, IHr. }
    specialize (Hrows rows urlMap).
    destruct (forEach (forEach cellStep) rows urlMap) as [rows' m1].
    simpl in Hrows. simpl. f_equal. exact Hrows.
  - simpl. unfold bind. specialize (Hlist c urlMap).
    destruct (forEach refifyUrlsNode c urlMap) as [c' m1].
    simpl in *. now rewrite Hlist.
  - simpl. unfold bind. specialize (Hlist c urlMap).
    destruct (forEach refifyUrlsNode c urlMap) as [c' m1].
    simpl in *. now rewrite Hlist.
Qed.

(** Refification changes nothing but the href and src fields: with every
    href and src blanked, the nodes it returns are the nodes it was
    given. *)
Lemma refifyUrls_eraseUrls (nodes : list Node) urlMap :
  List.map eraseUrls (fst (refifyUrls nodes urlMap)) = List.map eraseUrls nodes.
Proof.
  unfold refifyUrls. apply forEach_eraseUrls.
  apply List.Forall_forall. intros node _. apply refifyUrlsNode_eraseUrls.
Qed.

(* ===================================================================== *)
(** * Further properties *)
(* ===================================================================== *)

(** ** The score *)

(** The score of an element lies between 0 and 90. *)
Theorem calculateScore_bounds (element : Dom.Element) :
  (0 <= calculateScore element <= 90)%Z.
Proof.
  rewrite calculateScore_sum.
  assert (highImpactMatches element <= 5) as Hm.
  { unfold highImpactMatches.
    etransitivity; [apply List.filter_length_le|]. reflexivity. }
  unfold otherContributions, tagContribution, paragraphContribution,
    textContribution, linkDensityContribution, dataAttributeContribution,
    roleContribution.
  set (len := Z.of_nat (String.length (Js.trim (Dom.textContent element)))).
  assert (0 <= len)%Z by (subst len; lia).
  assert (0 <= len / 200)%Z by (apply Z.div_pos; lia).
  destruct (existsb _ highImpactTags);
    destruct (len >? 200)%Z;
    destruct (densityBelow3Tenths _);
    destruct (_ || _);
    destruct (Dom.getAttribute "role" element) as [role|];
    try destruct (Js.includes role "main");
    lia.
Qed.

(** ** The candidates *)

Lemma collectCandidatesNode_filter minScore n :
  forall path candidates,
    collectCandidatesNode path n candidates minScore
    = candidates ++ List.filter (reachesMinScore minScore) (subtreeRefs path n).
Proof.
  induction n as [data| |d sh asg ch _ _ IHch] using Node_nested_ind;
    intros path candidates; simpl; try (now rewrite app_nil_r).
  set (element := Dom.mkElement d sh asg ch).
  set (forEachChild := fix forEachChild (i : nat) (l : list Dom.Node)
                           (candidates : list Dom.ElementRef) :=
         match l with
         | [] => candidates
         | c :: r =>
             match c with
             | Dom.Elem _ _ _ _ =>
                 forEachChild (S i) r
                   (collectCandidatesNode (path ++ [i]) c candidates minScore)
             | _ => forEachChild i r candidates
             end
         end).
  set (below := fix below (i : nat) (l : list Dom.Node) : list Dom.ElementRef :=
         match l with
         | [] => []
         | c :: r =>
             match c with
             | Dom.Elem _ _ _ _ => subtreeRefs (path ++ [i]) c ++ below (S i) r
             | _ => below i r
             end
         end).
  assert (forall i cands,
             forEachChild i ch cands
             = cands ++ List.filter (reachesMinScore minScore) (below i ch)) as Hin.
  { induction IHch as [|c r Hc _ IHr]; intros i cands; simpl;
      [now rewrite app_nil_r|].
    destruct c; try apply IHr.
    rewrite IHr, Hc, List.filter_app, app_assoc. reflexivity. }
  rewrite Hin. unfold reachesMinScore at 2. simpl. fold element.
  destruct (calculateScore element >=? minScore)%Z; [|reflexivity].
  now rewrite <- app_assoc.
Qed.

(** The candidates are the elements of the subtree of the root, the root
    included, whose score reaches the minimal score, in document order. *)
Theorem collectCandidates_filter (rootElement : Dom.ElementRef) (minScore : Z) :
  collectCandidates rootElement [] minScore
  = List.filter (reachesMinScore minScore)
      (subtreeRefs (Dom.refPath rootElement) (Dom.ofElement rootElement)).
Proof. unfold collectCandidates. now rewrite collectCandidatesNode_filter. Qed.

(** ** References *)

Lemma resolve_app p q (element : Dom.Element) :
  resolve (p ++ q) element
  = match resolve p element with
    | Some below => resolve q below
    | None => None
    end.
Proof.
  revert element. induction p as [|i p IH]; intros element; [reflexivity|].
  simpl. destruct (Dom.children element !! i); [apply IH|reflexivity].
Qed.

Lemma leadsFrom_refl (r : Dom.ElementRef) : leadsFrom r r.
Proof. exists []. split; [now rewrite app_nil_r|reflexivity]. Qed.

Lemma leadsFrom_trans (a b c : Dom.ElementRef) :
  leadsFrom a b -> leadsFrom b c -> leadsFrom a c.
Proof.
  intros (q1 & E1 & R1) (q2 & E2 & R2). exists (q1 ++ q2). split.
  - now rewrite E2, E1, app_assoc.
  - now rewrite resolve_app, R1.
Qed.

Lemma isPrefix_app p q : Dom.isPrefix p (p ++ q) = true.
Proof. induction p as [|x p IH]; [reflexivity|]. simpl. now rewrite Nat.eqb_refl. Qed.

Lemma leadsFrom_contains (root r : Dom.ElementRef) :
  leadsFrom root r -> Dom.contains root r = true.
Proof. intros (q & E & _). unfold Dom.contains. rewrite E. apply isPrefix_app. Qed.

(** Every reference of [subtreeRefs] leads from the root of the subtree to
    its element. *)
Lemma subtreeRefs_leads n :
  forall path (element : Dom.Element) (r : Dom.ElementRef),
    Dom.asElement n = Some element ->
    In r (subtreeRefs path n) ->
    exists q, Dom.refPath r = path ++ q
              /\ resolve q element = Some (Dom.refElement r).
Proof.
  induction n as [data| |d sh asg ch _ _ IHch] using Node_nested_ind;
    intros path element r Ha; try discriminate Ha.
  injection Ha as <-. simpl. intros [<-|Hin].
  { exists []. split; [now rewrite app_nil_r|reflexivity]. }
  assert (forall before l,
             ch = before ++ l ->
             Forall (fun c => forall path (element : Dom.Element) r,
                         Dom.asElement c = Some element ->
                         In r (subtreeRefs path c) ->
                         exists q, Dom.refPath r = path ++ q
                                   /\ resolve q element = Some (Dom.refElement r)) l ->
             In r ((fix below (i : nat) (l : list Dom.Node) : list Dom.ElementRef :=
                      match l with
                      | [] => []
                      | c :: r =>
                          match c with
                          | Dom.Elem _ _ _ _ =>
                              subtreeRefs (path ++ [i]) c ++ below (S i) r
                          | _ => below i r
                          end
                      end) (length (omap Dom.asElement before)) l) ->
             exists q, Dom.refPath r = path ++ q
                       /\ resolve q (Dom.mkElement d sh asg ch)
                          = Some (Dom.refElement r)) as Hgen.
  { intros before l. revert before.
    induction l as [|c rest IHl]; intros before Hch Hall Hr; [destruct Hr|].
    inversion Hall as [|? ? Hc Hrest]; subst.
    assert (forall extra,
               length (omap Dom.asElement (before ++ [c]))
               = length (omap Dom.asElement before) + extra ->
               In r ((fix below (i : nat) (l : list Dom.Node) : list Dom.ElementRef :=
                        match l with
                        | [] => []
                        | c :: r =>
                            match c with
                            | Dom.Elem _ _ _ _ =>
                                subtreeRefs (path ++ [i]) c ++ below (S i) r
                            | _ => below i r
                            end
                        end) (length (omap Dom.asElement before) + extra) rest) ->
               exists q, Dom.refPath r = path ++ q
                         /\ resolve q (Dom.mkElement d sh asg (before ++ c :: rest))
                            = Some (Dom.refElement r)) as Hnext.
    { intros extra Hlen Hr'. rewrite <- Hlen in Hr'.
      apply (IHl (before ++ [c])); [now rewrite <- app_assoc|assumption|assumption]. }
    destruct c as [data| |d' sh' asg' ch'].
    - apply (Hnext 0); [|now rewrite Nat.add_0_r].
      rewrite omap_app. simpl. rewrite app_nil_r. lia.
    - apply (Hnext 0); [|now rewrite Nat.add_0_r].
      rewrite omap_app. simpl. rewrite app_nil_r. lia.
    - apply in_app_iff in Hr as [Hr|Hr].
      + destruct (Hc (path ++ [length (omap Dom.asElement before)])
                    (Dom.mkElement d' sh' asg' ch') r eq_refl Hr) as (q & Eq & Rq).
        exists (length (omap Dom.asElement before) :: q). split.
        * now rewrite Eq, <- app_assoc.
        * simpl. unfold Dom.children. simpl. rewrite omap_app. simpl.
          rewrite lookup_app_r by lia. rewrite Nat.sub_diag. simpl. exact Rq.
      + apply (Hnext 1); [|now rewrite Nat.add_1_r].
        rewrite omap_app, length_app. simpl. lia. }
  apply (Hgen [] ch eq_refl IHch Hin).
Qed.

Lemma subtreeRefs_leadsFrom (root r : Dom.ElementRef) :
  In r (subtreeRefs (Dom.refPath root) (Dom.ofElement root)) -> leadsFrom root r.
Proof.
  intros Hin. apply (subtreeRefs_leads _ _ (Dom.refElement root)) in Hin;
    [exact Hin|]. now destruct root as [p [d sh asg ch]].
Qed.

(** ** The element that the locator returns *)

Lemma detectStep_among (candidates : list Dom.ElementRef)
    (best : Dom.ElementRef) (i : nat) :
  detectStep candidates best i = best \/ In (detectStep candidates best i) candidates.
Proof.
  unfold detectStep. destruct (candidates !! i) as [ci|] eqn:E; [|now left].
  destruct (negb _); [|now left].
  destruct (_ >? _)%Z; [right|now left].
  apply list_elem_of_In. eapply list_elem_of_lookup_2, E.
Qed.

Lemma fold_detectStep_among (candidates : list Dom.ElementRef) indexes :
  forall best : Dom.ElementRef,
    In best candidates ->
    In (fold_left (detectStep candidates) indexes best) candidates.
Proof.
  induction indexes as [|i r IH]; intros best Hb; [exact Hb|].
  simpl. apply IH. destruct (detectStep_among candidates best i) as [->|H]; assumption.
Qed.

Lemma detectMainContent_among (rootElement : Dom.ElementRef) :
  detectMainContent rootElement = rootElement
  \/ In (detectMainContent rootElement) (collectCandidates rootElement [] 20).
Proof.
  unfold detectMainContent. cbv zeta.
  destruct (collectCandidates rootElement [] 20) as [|c0 cs] eqn:Ec; [now left|].
  rewrite <- Ec.
  destruct (Js_Array.sort byDescendingScore (collectCandidates rootElement [] 20))
    as [|first rest] eqn:Es; [now left|].
  right. apply list_elem_of_In.
  rewrite <- (sort_perm scoreOf (collectCandidates rootElement [] 20)),
    <- byDescendingScore_key, Es.
  apply list_elem_of_In, fold_detectStep_among. now left.
Qed.

Lemma detectMainContent_leads (rootElement : Dom.ElementRef) :
  leadsFrom rootElement (detectMainContent rootElement)
  /\ (detectMainContent rootElement = rootElement
      \/ (20 <= calculateScore (detectMainContent rootElement))%Z).
Proof.
  destruct (detectMainContent_among rootElement) as [->|Hin].
  - split; [apply leadsFrom_refl|now left].
  - unfold collectCandidates in Hin.
    rewrite collectCandidatesNode_filter, app_nil_l in Hin.
    apply filter_In in Hin as [Hin Hscore]. split.
    + now apply subtreeRefs_leadsFrom.
    + right. unfold reachesMinScore in Hscore. lia.
Qed.

(** The element that [detectMainContent] returns is the root element or
    an element below it: its reference leads from the root to it, the root
    contains it, and unless it is the root itself its score is at
    least 20. *)
Theorem detectMainContent_in_subtree (rootElement : Dom.ElementRef) :
  leadsFrom rootElement (detectMainContent rootElement)
  /\ Dom.contains rootElement (detectMainContent rootElement) = true
  /\ (detectMainContent rootElement = rootElement
      \/ (20 <= calculateScore (detectMainContent rootElement))%Z).
Proof.
  destruct (detectMainContent_leads rootElement) as [Hl Hs].
  split; [exact Hl|]. split; [now apply leadsFrom_contains|exact Hs].
Qed.

Lemma head_filter_app {A} (p : A -> bool) (l1 l2 : list A) :
  head (List.filter p (l1 ++ l2))
  = match head (List.filter p l1) with
    | Some x => Some x
    | None => head (List.filter p l2)
    end.
Proof.
  rewrite List.filter_app. now destruct (List.filter p l1).
Qed.

(** [querySelector] finds the first matching element below the node, in
    document order. *)
Lemma querySelectorRefNode_first names n :
  forall path,
    querySelectorRefNode names path n
    = head (List.filter (fun r : Dom.ElementRef => Dom.hasTag names r)
              (tail (subtreeRefs path n))).
Proof.
  induction n as [data| |d sh asg ch _ _ IHch] using Node_nested_ind;
    intros path; try reflexivity.
  simpl. generalize 0.
  induction IHch as [|c r Hc _ IHr]; intros i; [reflexivity|].
  destruct c as [data| |d' sh' asg' ch']; try apply IHr.
  rewrite head_filter_app.
  change (Dom.asElement (Dom.Elem d' sh' asg' ch'))
    with (Some (Dom.mkElement d' sh' asg' ch')). cbv iota beta.
  change (subtreeRefs (path ++ [i]) (Dom.Elem d' sh' asg' ch'))
    with (Dom.mkRef (path ++ [i]) (Dom.mkElement d' sh' asg' ch')
          :: tail (subtreeRefs (path ++ [i]) (Dom.Elem d' sh' asg' ch'))).
  cbn [List.filter Dom.refElement].
  destruct (Dom.hasTag names (Dom.mkElement d' sh' asg' ch')); [reflexivity|].
  rewrite Hc.
  destruct (head (List.filter _ (tail (subtreeRefs (path ++ [i]) _))));
    [reflexivity|apply IHr].
Qed.

Lemma documentQuerySelector_first names (doc : Dom.Document) :
  documentQuerySelector names doc
  = head (List.filter (fun r : Dom.ElementRef => Dom.hasTag names r)
            (subtreeRefs [] (Dom.ofElement (Dom.documentElement doc)))).
Proof.
  unfold documentQuerySelector. rewrite querySelectorRefNode_first.
  destruct (Dom.documentElement doc) as [d sh asg ch] eqn:E.
  unfold Dom.ofElement. cbn [Dom.data Dom.shadowRoot Dom.assignedNodes Dom.childNodes].
  change (subtreeRefs [] (Dom.Elem d sh asg ch))
    with (Dom.mkRef [] (Dom.mkElement d sh asg ch)
          :: tail (subtreeRefs [] (Dom.Elem d sh asg ch))).
  cbn [List.filter Dom.refElement]. unfold Dom.rootRef. rewrite E.
  now destruct (Dom.hasTag names (Dom.mkElement d sh asg ch)).
Qed.

(** When the document has a [main] element, [findMainContent] returns the
    first one in document order, whatever the scores. *)
Theorem findMainContent_explicit_main (document : Dom.Document)
    (mainElement : Dom.ElementRef) :
  head (List.filter (fun r : Dom.ElementRef => Dom.hasTag ["main"] r)
          (subtreeRefs [] (Dom.ofElement (Dom.documentElement document))))
  = Some mainElement ->
  findMainContent document = mainElement
  /\ Js.toLowerCase (Dom.tagName mainElement) = "main".
Proof.
  intros H. split.
  - unfold findMainContent. now rewrite documentQuerySelector_first, H.
  - assert (In mainElement
              (List.filter (fun r : Dom.ElementRef => Dom.hasTag ["main"] r)
                 (subtreeRefs [] (Dom.ofElement (Dom.documentElement document)))))
      as Hin.
    { destruct (List.filter _ _) as [|x l]; [discriminate H|].
      injection H as ->. now left. }
    apply filter_In in Hin as [_ Ht]. unfold Dom.hasTag in Ht. simpl in Ht.
    rewrite orb_false_r in Ht. now apply String.eqb_eq in Ht.
Qed.

(** A document with a [main] element in its body, next to a section of a
    higher score. *)
Lemma findMainContent_explicit_main_witness :
  let document :=
    Dom.mkDocument
      (Dom.mkElement (Sample.data "HTML" "" [] []) None []
         [Sample.plain "HEAD" [];
          Sample.plain "BODY"
            [Sample.element "SECTION" "main-content" ["article"] [] [];
             Sample.plain "MAIN" [Dom.Text "x"]]]) in
  let mainElement :=
    Dom.mkRef [1; 1]
      (Dom.mkElement (Sample.data "MAIN" "" [] []) None [] [Dom.Text "x"]) in
  findMainContent document = mainElement
  /\ Js.toLowerCase (Dom.tagName mainElement) = "main".
Proof.
  apply findMainContent_explicit_main. vm_compute. reflexivity.
Defined.

(** The element that [findMainContent] returns is an element of the
    document: its reference leads from the root element to it. *)
Theorem findMainContent_in_document (document : Dom.Document) :
  resolve (Dom.refPath (findMainContent document)) (Dom.documentElement document)
  = Some (Dom.refElement (findMainContent document)).
Proof.
  assert (leadsFrom (Dom.rootRef document) (findMainContent document))
    as (q & E & R); [|simpl in E; now rewrite E].
  unfold findMainContent. rewrite documentQuerySelector_first.
  destruct (head (List.filter _ _)) as [m|] eqn:Hm.
  - apply subtreeRefs_leadsFrom. simpl.
    destruct (List.filter _ _) as [|x l] eqn:Hf; [discriminate Hm|].
    injection Hm as ->.
    assert (In m (m :: l)) as Hin by now left.
    rewrite <- Hf in Hin. now apply filter_In in Hin as [Hin _].
  - destruct (Dom.body document) as [body|] eqn:Hb; [|apply leadsFrom_refl].
    apply (leadsFrom_trans _ body); [|apply detectMainContent_leads].
    unfold Dom.body in Hb. apply find_some in Hb as [Hin _].
    unfold Dom.childRefs in Hin.
    apply list_elem_of_In, list_elem_of_lookup in Hin as [i Hi].
    rewrite list_lookup_imap in Hi.
    destruct (Dom.children (Dom.rootRef document) !! i) as [child|] eqn:Hc;
      [|discriminate Hi].
    injection Hi as <-. exists [i]. split; [reflexivity|].
    simpl in *. now rewrite Hc.
Qed.

(** ** What escaping gives *)

Lemma escapeChar_shape c :
  (escapeChar c = "&amp;" /\ c = "&"%char)
  \/ (escapeChar c = "&lt;" /\ c = "<"%char)
  \/ (escapeChar c = "&gt;" /\ c = ">"%char)
  \/ (escapeChar c = String "\" (String c EmptyString) /\ isMarkdownSpecial c = true)
  \/ (escapeChar c = String c EmptyString /\ isEscapable c = false).
Proof.
  unfold escapeChar, isEscapable, isHtmlSpecial.
  destruct (Ascii.eqb_spec c "&") as [->|]; [now left|].
  destruct (Ascii.eqb_spec c "<") as [->|]; [now right; left|].
  destruct (Ascii.eqb_spec c ">") as [->|]; [now right; right; left|].
  simpl. destruct (isMarkdownSpecial c); [now right; right; right; left|].
  now right; right; right; right.
Qed.

Lemma notEscapable_plain c :
  isEscapable c = false ->
  isMarkdownSpecial c = false /\ Ascii.eqb c "&" = false
  /\ Ascii.eqb c "<" = false /\ Ascii.eqb c ">" = false /\ Ascii.eqb c "\" = false.
Proof. destruct c as [[] [] [] [] [] [] [] []]; vm_compute; intuition congruence. Qed.

Lemma escapeEach_wellEscaped s : wellEscaped (escapeEach s) = true.
Proof.
  induction s as [|c r IH]; [reflexivity|]. simpl.
  destruct (escapeChar_shape c)
    as [[-> _]|[[-> _]|[[-> _]|[[-> Hs]|[-> Hp]]]]];
    rewrite ?append_cons, ?append_nil_l; try (simpl; exact IH).
  - simpl. now rewrite Hs, IH.
  - apply notEscapable_plain in Hp as (H1 & _ & H3 & H4 & H5).
    simpl. now rewrite H5, H1, H3, H4, IH.
Qed.

Lemma whitespaceOnly_wellEscaped s :
  whitespaceOnly s = true -> wellEscaped s = true.
Proof.
  induction s as [|c r IH]; [reflexivity|].
  rewrite whitespaceOnly_cons. intros [Hc Hr]%andb_true_iff.
  assert (isEscapable c = false) as He.
  { unfold isEscapable.
    destruct (isHtmlSpecial c) eqn:E1;
      [apply htmlSpecial_not_whiteSpace in E1; congruence|].
    destruct (isMarkdownSpecial c) eqn:E2; [|reflexivity].
    apply markdownSpecial_not_whiteSpace in E2. congruence. }
  apply notEscapable_plain in He as (H1 & _ & H3 & H4 & H5).
  simpl. now rewrite H5, H1, H3, H4, IH.
Qed.

(** In a text that was escaped, every Markdown character stands behind a
    backslash of its own and no angle bracket is left. *)
Theorem escapeMarkdownCharacters_wellEscaped (text : string) :
  wellEscaped (escapeMarkdownCharacters text false) = true.
Proof.
  rewrite escapeMarkdownCharacters_each.
  destruct (whitespaceOnly text) eqn:W;
    [now apply whitespaceOnly_wellEscaped|apply escapeEach_wellEscaped].
Qed.

Lemma unescape_escapeEach s : unescape (escapeEach s) = s.
Proof.
  induction s as [|c r IH]; [reflexivity|]. simpl.
  destruct (escapeChar_shape c)
    as [[-> ->]|[[-> ->]|[[-> ->]|[[-> Hs]|[-> Hp]]]]];
    rewrite ?append_cons, ?append_nil_l; try (simpl; now rewrite IH).
  apply notEscapable_plain in Hp as (_ & H2 & _ & _ & H5).
  apply Ascii.eqb_neq in H2, H5.
  destruct c as [[] [] [] [] [] [] [] []]; try congruence;
    simpl; now rewrite IH.
Qed.

Lemma unescape_whitespaceOnly s : whitespaceOnly s = true -> unescape s = s.
Proof.
  intros W. rewrite <- (escapeEach_noEscapable s) at 1
    by now apply whitespaceOnly_noEscapable.
  apply unescape_escapeEach.
Qed.

(** Escaping loses nothing: [unescape] gives the text back, so two texts
    with the same escaped form are the same text. *)
Theorem escapeMarkdownCharacters_injective (t u : string) :
  unescape (escapeMarkdownCharacters t false) = t
  /\ (escapeMarkdownCharacters t false = escapeMarkdownCharacters u false -> t = u).
Proof.
  assert (forall s, unescape (escapeMarkdownCharacters s false) = s) as Hround.
  { intros s. rewrite escapeMarkdownCharacters_each.
    destruct (whitespaceOnly s) eqn:W;
      [now apply unescape_whitespaceOnly|apply unescape_escapeEach]. }
  split; [apply Hround|].
  intros E. rewrite <- (Hround t), <- (Hround u). now rewrite E.
Qed.

(** ** The URL map *)

Lemma ofNat_inj n n' : Js.ofNat n = Js.ofNat n' -> n = n'.
Proof.
  unfold Js.ofNat. intros E.
  assert (forall k, Nat.to_uint k <> Decimal.Nil) as Hnn.
  { intros k. rewrite <- (DecimalNat.Unsigned.of_to k) at 1.
    rewrite DecimalNat.Unsigned.to_of. apply DecimalFacts.unorm_nonnil. }
  apply DecimalNat.Unsigned.to_uint_inj.
  assert (Some (Nat.to_uint n) = Some (Nat.to_uint n')) as [=]; [|assumption].
  rewrite <- (NilZero.usu _ (Hnn n)), <- (NilZero.usu _ (Hnn n')). now rewrite E.
Qed.

Lemma token_inj i j : "ref" +:+ Js.ofNat i = "ref" +:+ Js.ofNat j -> i = j.
Proof. intros E. apply ofNat_inj. now injection E. Qed.

Lemma wfUrlMap_empty : wfUrlMap ∅.
Proof. split; intros *; rewrite lookup_empty; discriminate. Qed.

Lemma split_nonempty sep s : Js.split sep s <> [].
Proof.
  destruct s as [|c r]; simpl; [discriminate|].
  destruct (Ascii.eqb c sep); [discriminate|].
  destruct (Js.split sep r); discriminate.
Qed.

Lemma getProperty_own m k v : m !! k = Some v -> Js.getProperty m k = Js.Own v.
Proof. intros E. unfold Js.getProperty. now rewrite E. Qed.

Lemma getProperty_notInherited m k :
  m !! k = None -> notInherited k = true -> Js.getProperty m k = Js.Undefined.
Proof.
  intros E H. unfold Js.getProperty, notInherited in *. rewrite E.
  now destruct (existsb (String.eqb k) Js.objectPrototypeKeys).
Qed.

Lemma wfUrlMap_truthy m k v : wfUrlMap m -> m !! k = Some v -> Js.truthy v = true.
Proof. intros [Hv _] E. destruct (Hv k v E) as (i & _ & ->). reflexivity. Qed.

(** What [addRefPrefix] makes of every prefix and map. *)
Lemma addRefPrefix_cases prefix m :
  (exists token,
      Js.truthy token = true
      /\ fst (addRefPrefix prefix m) = Js.Own token
      /\ snd (addRefPrefix prefix m) !! prefix = Some token)
  \/ (notInherited prefix = false /\ m !! prefix = None
      /\ addRefPrefix prefix m = (Js.Inherited prefix, m)).
Proof.
  unfold addRefPrefix, Js.getProperty, notInherited.
  destruct (m !! prefix) as [v|] eqn:E.
  - left. destruct (Js.truthy v) eqn:T; simpl.
    + now exists v.
    + eexists. split; [|split; [reflexivity|apply lookup_insert_eq]]. reflexivity.
  - destruct (existsb (String.eqb prefix) Js.objectPrototypeKeys); simpl.
    + right. now repeat split.
    + left. eexists. split; [|split; [reflexivity|apply lookup_insert_eq]]. reflexivity.
Qed.

(** Whatever the prefix, [addRefPrefix] answers a token that the map then
    holds for the prefix or, for a prefix that the map does not hold and
    that names a property of [Object.prototype], what the object inherits,
    and then adds nothing; asking again answers the same and leaves the map
    as it is. *)
Theorem addRefPrefix_again (prefix : string) (m : gmap string string) :
  addRefPrefix prefix (snd (addRefPrefix prefix m))
  = (fst (addRefPrefix prefix m), snd (addRefPrefix prefix m))
  /\ match fst (addRefPrefix prefix m) with
     | Js.Own token =>
         Js.truthy token = true
         /\ snd (addRefPrefix prefix m) !! prefix = Some token
     | Js.Inherited key =>
         key = prefix /\ m !! prefix = None /\ snd (addRefPrefix prefix m) = m
         /\ In prefix Js.objectPrototypeKeys
     | Js.Undefined => False
     end.
Proof.
  destruct (addRefPrefix_cases prefix m) as [(token & Ht & Ef & El)|(Hn & En & E)].
  - rewrite Ef. split; [|now split].
    unfold addRefPrefix at 1. rewrite (getProperty_own _ _ _ El), Ht. reflexivity.
  - rewrite E. simpl. split; [exact E|]. repeat split; try assumption.
    unfold notInherited in Hn. apply negb_false_iff, existsb_exists in Hn
      as (key & Hin & ->%String.eqb_eq). exact Hin.
Qed.

Lemma addRefPrefix_wf prefix m :
  wfUrlMap m -> notInherited prefix = true ->
  wfUrlMap (snd (addRefPrefix prefix m))
  /\ m ⊆ snd (addRefPrefix prefix m)
  /\ exists i, fst (addRefPrefix prefix m) = Js.Own ("ref" +:+ Js.ofNat i)
               /\ snd (addRefPrefix prefix m) !! prefix = Some ("ref" +:+ Js.ofNat i).
Proof.
  intros Hwf Hn. pose proof Hwf as [Hv Hi].
  unfold addRefPrefix.
  destruct (m !! prefix) as [v|] eqn:E.
  - rewrite (getProperty_own _ _ _ E), (wfUrlMap_truthy _ _ _ Hwf E). simpl.
    split; [exact Hwf|]. split; [reflexivity|].
    destruct (Hv _ _ E) as (i & _ & ->). now exists i.
  - rewrite (getProperty_notInherited _ _ E Hn). simpl.
    split; [|split; [now apply insert_subseteq|eexists; split;
                                               [reflexivity|apply lookup_insert_eq]]].
    split.
    + intros k v. rewrite map_size_insert_None by assumption.
      destruct (decide (k = prefix)) as [->|Hne].
      * rewrite lookup_insert_eq. intros [= <-]. exists (size m). split; [lia|reflexivity].
      * rewrite lookup_insert_ne by congruence. intros Hk.
        destruct (Hv _ _ Hk) as (i & Hlt & ->). exists i. split; [lia|reflexivity].
    + intros k1 k2 v.
      destruct (decide (k1 = prefix)) as [->|Hne1];
        destruct (decide (k2 = prefix)) as [->|Hne2];
        rewrite ?lookup_insert_eq, ?lookup_insert_ne by congruence;
        try reflexivity.
      * intros [= <-] H2. destruct (Hv _ _ H2) as (i & Hlt & Ei).
        apply token_inj in Ei. lia.
      * intros H1 [= <-]. destruct (Hv _ _ H1) as (i & Hlt & Ei).
        apply token_inj in Ei. lia.
      * apply Hi.
Qed.

(** The prefixes that [processUrl] hands to [addRefPrefix] are empty or
    start with [http]; none of them names a property of
    [Object.prototype]. *)
Lemma startsWith_http_notInherited prefix :
  Js.startsWith prefix "http" = true -> notInherited prefix = true.
Proof.
  intros H. unfold notInherited. apply negb_true_iff.
  destruct (existsb (String.eqb prefix) Js.objectPrototypeKeys) eqn:E; [|reflexivity].
  apply existsb_exists in E as (key & Hin & ->%String.eqb_eq).
  assert (forallb (fun k => negb (Js.startsWith k "http")) Js.objectPrototypeKeys = true)
    as Hall by reflexivity.
  rewrite forallb_forall in Hall. specialize (Hall key Hin).
  rewrite H in Hall. discriminate Hall.
Qed.

Lemma split_http (rest : string) :
  exists h t, Js.split "/" ("http" +:+ rest) = ("http" +:+ h) :: t.
Proof.
  pose proof (split_nonempty "/" rest) as Hne.
  destruct (Js.split "/" rest) as [|h t] eqn:E; [contradiction|].
  exists h, t. rewrite !append_cons, append_nil_l. simpl. now rewrite E.
Qed.

Lemma prefix_append p s : String.prefix p (p +:+ s) = true.
Proof.
  induction p as [|c p IH]; [now destruct s|].
  rewrite append_cons. cbn [String.prefix].
  destruct (ascii_dec c c); [exact IH|congruence].
Qed.

Lemma prefix_cons_inv a p s :
  String.prefix (String a p) s = true ->
  exists r, s = String a r /\ String.prefix p r = true.
Proof.
  destruct s as [|b r]; [discriminate|]. cbn [String.prefix].
  destruct (ascii_dec a b) as [<-|]; [|discriminate]. intros H. now exists r.
Qed.

Lemma startsWith_http (url : string) :
  Js.startsWith url "http" = true -> exists rest, url = "http" +:+ rest.
Proof.
  unfold Js.startsWith.
  intros (r1 & -> & (r2 & -> & (r3 & -> & (r4 & -> & _)%prefix_cons_inv)
                       %prefix_cons_inv)%prefix_cons_inv)%prefix_cons_inv.
  now exists r4.
Qed.

Lemma directory_notInherited (url : string) :
  Js.startsWith url "http" = true ->
  notInherited (Js.join "/" (Js.initSlice (Js.split "/" url))) = true.
Proof.
  intros (rest & ->)%startsWith_http.
  destruct (split_http rest) as (h & t & ->).
  unfold Js.initSlice. destruct t as [|x t']; [reflexivity|].
  apply startsWith_http_notInherited.
  change (removelast (("http" +:+ h) :: x :: t'))
    with (("http" +:+ h) :: removelast (x :: t')).
  unfold Js.startsWith.
  destruct (removelast (x :: t')); cbn [Js.join];
    rewrite ?append_assoc; apply prefix_append.
Qed.

Lemma processUrl_cases url m :
  processUrl url m
  = if negb (Js.startsWith url "http") then (url, m)
    else if hasMediaSuffix url then
      (refText (fst (addRefPrefix (Js.join "/" (Js.initSlice (Js.split "/" url))) m))
         +:+ "://" +:+ Js.join "" (Js.lastSlice (Js.split "/" url)),
       snd (addRefPrefix (Js.join "/" (Js.initSlice (Js.split "/" url))) m))
    else if Nat.ltb 4 (length (Js.split "/" url)) then
      (refText (fst (addRefPrefix url m)), snd (addRefPrefix url m))
    else (url, m).
Proof.
  unfold processUrl, hasMediaSuffix.
  destruct (negb _); [reflexivity|].
  destruct (match Js.lastSlice (Js.split "." url) with
            | [] => false
            | s :: _ => Js.truthy s && existsb (String.eqb s) mediaSuffixes
            end).
  - unfold bind, ret.
    now destruct (addRefPrefix (Js.join "/" (Js.initSlice (Js.split "/" url))) m).
  - destruct (Nat.ltb 4 _); [|reflexivity].
    unfold bind, ret. now destruct (addRefPrefix url m).
Qed.

Lemma processUrl_settles url : settles processUrl url.
Proof.
  intros m Hwf. rewrite processUrl_cases.
  destruct (negb (Js.startsWith url "http")) eqn:Hh.
  { simpl. split; [exact Hwf|]. split; [reflexivity|].
    intros m2. now rewrite processUrl_cases, Hh. }
  apply negb_false_iff in Hh.
  destruct (hasMediaSuffix url) eqn:Hm.
  { destruct (addRefPrefix_wf (Js.join "/" (Js.initSlice (Js.split "/" url))) m Hwf
                (directory_notInherited url Hh))
      as (Hwf' & Hsub & i & Ei & _).
    simpl. split; [exact Hwf'|]. split; [exact Hsub|].
    intros m2. rewrite Ei. reflexivity. }
  destruct (Nat.ltb 4 (length (Js.split "/" url))) eqn:Hl.
  { destruct (addRefPrefix_wf url m Hwf (startsWith_http_notInherited url Hh))
      as (Hwf' & Hsub & i & Ei & _).
    split; [exact Hwf'|]. split; [exact Hsub|].
    intros m2. simpl. rewrite Ei. reflexivity. }
  simpl. split; [exact Hwf|]. split; [reflexivity|].
  intros m2. rewrite processUrl_cases, Hm, Hl. now rewrite Hh.
Qed.

Lemma addRefPrefix_own prefix m :
  notInherited prefix = true ->
  exists token,
    fst (addRefPrefix prefix m) = Js.Own token
    /\ snd (addRefPrefix prefix m) !! prefix = Some token.
Proof.
  intros Hn.
  destruct (addRefPrefix_cases prefix m) as [(token & _ & Ef & El)|(Hn' & _)];
    [now exists token|congruence].
Qed.

Lemma forEach_settles {A} (f : A -> State (gmap string string) A) (l : list A) :
  Forall (settles f) l -> settles (forEach f) l.
Proof.
  induction 1 as [|x r Hx _ IH]; intros m Hwf.
  { simpl. split; [exact Hwf|]. split; reflexivity. }
  simpl. destruct (Hx m Hwf) as (Hwf1 & Hsub1 & Hagain1).
  destruct (f x m) as [y m1] eqn:E1. simpl in *.
  destruct (IH m1 Hwf1) as (Hwf2 & Hsub2 & Hagain2).
  destruct (forEach f r m1) as [ys m2] eqn:E2. simpl in *.
  split; [exact Hwf2|]. split; [now transitivity m1|].
  intros m3. now rewrite Hagain1, Hagain2.
Qed.

(** Induction on a node of the AST with the property at hand for the nodes
    of its content. *)
Lemma AstNode_nested_ind (P : Node -> Prop) :
  (forall content, P (text content)) ->
  (forall content, contentForall P content -> P (bold content)) ->
  (forall content, contentForall P content -> P (italic content)) ->
  (forall content, contentForall P content -> P (strikethrough content)) ->
  (forall level content, contentForall P content -> P (heading level content)) ->
  (forall href content, Forall P content -> P (link href content)) ->
  (forall src alt, P (image src alt)) ->
  (forall src poster controls, P (video src poster controls)) ->
  (forall ordered items, Forall (Forall P) items -> P (list_ ordered items)) ->
  (forall rows colIds,
      Forall (Forall (fun cell => contentForall P (cellContent cell))) rows ->
      P (table rows colIds)) ->
  (forall language content inline, P (code language content inline)) ->
  (forall content, Forall P content -> P (blockquote content)) ->
  (forall htmlType content, Forall P content -> P (semanticHtml htmlType content)) ->
  (forall content, P (custom content)) ->
  (forall content, P (meta content)) ->
  forall node, P node.
Proof.
  intros Htext Hbold Hitalic Hstrike Hheading Hlink Himage Hvideo Hlist Htable
    Hcode Hquote Hsem Hcustom Hmeta.
  fix IH 1. intros node.
  assert (forall l, Forall P l) as Hall.
  { induction l as [|x r IHl]; constructor; [apply IH|assumption]. }
  assert (forall c, contentForall P c) as Hcontent.
  { intros [s|l]; [exact I|apply Hall]. }
  destruct node.
  - apply Htext.
  - apply Hbold, Hcontent.
  - apply Hitalic, Hcontent.
  - apply Hstrike, Hcontent.
  - apply Hheading, Hcontent.
  - apply Hlink, Hall.
  - apply Himage.
  - apply Hvideo.
  - apply Hlist. induction items as [|item rest IHi]; constructor;
      [apply Hall|assumption].
  - apply Htable. induction rows as [|row rest IHr]; constructor; [|assumption].
    induction row as [|cell more IHc]; constructor; [apply Hcontent|assumption].
  - apply Hcode.
  - apply Hquote, Hall.
  - apply Hsem, Hall.
  - apply Hcustom.
  - apply Hmeta.
Qed.

Lemma settles_ret {A} (f : A -> State (gmap string string) A) (x : A) :
  (forall m, f x m = (x, m)) -> settles f x.
Proof.
  intros Hf m Hwf. rewrite !Hf. simpl. split; [exact Hwf|]. split; [reflexivity|].
  intros m2. apply Hf.
Qed.

Lemma refifyUrlsNode_settles (node : Node) : settles refifyUrlsNode node.
Proof.
  induction node as [s|c _|c _|c _|lv c _|h c IHc|src a|src p ctl|o items IHi
                    |rows ids IHr|lang c i|c IHc|t c IHc|j|m']
    using AstNode_nested_ind;
    try (apply settles_ret; reflexivity).
  - apply forEach_settles in IHc. intros m Hwf. simpl. unfold bind.
    destruct (processUrl_settles h m Hwf) as (Hwf1 & Hsub1 & Hagain1).
    destruct (processUrl h m) as [h' m1]. simpl in *.
    destruct (IHc m1 Hwf1) as (Hwf2 & Hsub2 & Hagain2).
    destruct (forEach refifyUrlsNode c m1) as [c' m2]. simpl in *.
    split; [exact Hwf2|]. split; [now transitivity m1|].
    intros m3. unfold bind. now rewrite Hagain1, Hagain2.
  - intros m Hwf. simpl. unfold bind.
    destruct (processUrl_settles src m Hwf) as (Hwf1 & Hsub1 & Hagain1).
    destruct (processUrl src m) as [src' m1]. simpl in *.
    split; [exact Hwf1|]. split; [exact Hsub1|].
    intros m3. unfold bind. now rewrite Hagain1.
  - intros m Hwf. simpl. unfold bind.
    destruct (processUrl_settles src m Hwf) as (Hwf1 & Hsub1 & Hagain1).
    destruct (processUrl src m) as [src' m1]. simpl in *.
    split; [exact Hwf1|]. split; [exact Hsub1|].
    intros m3. unfold bind. now rewrite Hagain1.
  - assert (settles (forEach (forEach refifyUrlsNode)) items) as Hitems.
    { apply forEach_settles. eapply List.Forall_impl; [|exact IHi].
      intros item. apply forEach_settles. }
    intros m Hwf. simpl. unfold bind.
    destruct (Hitems m Hwf) as (Hwf1 & Hsub1 & Hagain1).
    destruct (forEach (forEach refifyUrlsNode) items m) as [items' m1]. simpl in *.
    split; [exact Hwf1|]. split; [exact Hsub1|].
    intros m3. unfold bind. now rewrite Hagain1.
  - intros m Hwf. simpl. unfold bind.
    set (cellStep := fun cell : TableCellNode Node => _).
    assert (forall cell,
               contentForall (settles refifyUrlsNode) (cellContent cell) ->
               settles cellStep cell) as Hcell.
    { intros [[s0|content] cid cs rs] Hc m0 Hwf0; subst cellStep; simpl in *.
      - split; [exact Hwf0|]. split; reflexivity.
      - apply forEach_settles in Hc. unfold bind.
        destruct (Hc m0 Hwf0) as (Hwf1 & Hsub1 & Hagain1).
        destruct (forEach refifyUrlsNode content m0) as [content' m1]. simpl in *.
        split; [exact Hwf1|]. split; [exact Hsub1|].
        intros m3. unfold bind. now rewrite Hagain1. }
    assert (settles (forEach (forEach cellStep)) rows) as Hrows.
    { apply forEach_settles. eapply List.Forall_impl; [|exact IHr].
      intros row Hrow. apply forEach_settles.
      eapply List.Forall_impl; [|exact Hrow]. exact Hcell. }
    destruct (Hrows m Hwf) as (Hwf1 & Hsub1 & Hagain1).
    destruct (forEach (forEach cellStep) rows m) as [rows' m1]. simpl in *.
    split; [exact Hwf1|]. split; [exact Hsub1|].
    intros m3. unfold bind. fold cellStep. now rewrite Hagain1.
  - apply forEach_settles in IHc. intros m Hwf. simpl. unfold bind.
    destruct (IHc m Hwf) as (Hwf1 & Hsub1 & Hagain1).
    destruct (forEach refifyUrlsNode c m) as [c' m1]. simpl in *.
    split; [exact Hwf1|]. split; [exact Hsub1|].
    intros m3. unfold bind. now rewrite Hagain1.
  - apply forEach_settles in IHc. intros m Hwf. simpl. unfold bind.
    destruct (IHc m Hwf) as (Hwf1 & Hsub1 & Hagain1).
    destruct (forEach refifyUrlsNode c m) as [c' m1]. simpl in *.
    split; [exact Hwf1|]. split; [exact Hsub1|].
    intros m3. unfold bind. now rewrite Hagain1.
Qed.

(** The map that refification returns holds the entries of the map it was
    given, its tokens are [ref0], [ref1], ... without a gap, and no two
    prefixes have the same token. *)
Theorem refifyUrls_map_grows (nodes : list Node) (urlMap : gmap string string) :
  wfUrlMap urlMap ->
  wfUrlMap (snd (refifyUrls nodes urlMap))
  /\ urlMap ⊆ snd (refifyUrls nodes urlMap).
Proof.
  intros Hwf. unfold refifyUrls.
  assert (settles (forEach refifyUrlsNode) nodes) as Hs.
  { apply forEach_settles, List.Forall_forall. intros n _.
    apply refifyUrlsNode_settles. }
  destruct (Hs urlMap Hwf) as (H1 & H2 & _). now split.
Qed.

Lemma refifyUrls_map_grows_witness :
  wfUrlMap (snd (refifyUrls [link "http://example.com/a/b/c" [text "x"]] ∅))
  /\ ∅ ⊆ snd (refifyUrls [link "http://example.com/a/b/c" [text "x"]] ∅).
Proof.
  apply (refifyUrls_map_grows [link "http://example.com/a/b/c" [text "x"]] ∅).
  apply wfUrlMap_empty.
Defined.

(** Refifying what was refified from a well-formed map changes nothing,
    whatever the map of the second pass: no node changes and no entry is
    added.  (From a map whose tokens are URLs themselves, a second pass
    can refify a token.) *)
Theorem refifyUrls_second_pass (nodes : list Node) (urlMap urlMap2 : gmap string string) :
  wfUrlMap urlMap ->
  refifyUrls (fst (refifyUrls nodes urlMap)) urlMap2
  = (fst (refifyUrls nodes urlMap), urlMap2).
Proof.
  intros Hwf. unfold refifyUrls.
  assert (settles (forEach refifyUrlsNode) nodes) as Hs.
  { apply forEach_settles, List.Forall_forall. intros n _.
    apply refifyUrlsNode_settles. }
  destruct (Hs urlMap Hwf) as (_ & _ & H). apply H.
Qed.

Lemma refifyUrls_second_pass_witness :
  refifyUrls
    (fst (refifyUrls [image "http://example.com/a/b/c.png" None] ∅)) ∅
  = (fst (refifyUrls [image "http://example.com/a/b/c.png" None] ∅), ∅).
Proof.
  apply (refifyUrls_second_pass [image "http://example.com/a/b/c.png" None] ∅ ∅).
  apply wfUrlMap_empty.
Defined.

(** ** Getting the URL back *)

Lemma join_split sep s :
  Js.join (String sep EmptyString) (Js.split sep s) = s.
Proof.
  induction s as [|c r IH]; [reflexivity|]. simpl.
  pose proof (split_nonempty sep r) as Hne.
  destruct (Ascii.eqb_spec c sep) as [->|Hc].
  - destruct (Js.split sep r) as [|h t]; [contradiction|].
    cbn [Js.join]. rewrite append_nil_l, append_cons, append_nil_l. now rewrite <- IH.
  - destruct (Js.split sep r) as [|h t]; [contradiction|].
    rewrite <- IH. destruct t; [reflexivity|]. cbn [Js.join]. now rewrite append_cons.
Qed.

Lemma split_with_separator sep s :
  Js.includes s (String sep EmptyString) = true ->
  2 <= length (Js.split sep s).
Proof.
  induction s as [|c r IH]; [discriminate|]. simpl.
  pose proof (split_nonempty sep r) as Hne.
  destruct (Ascii.eqb_spec c sep) as [->|Hc].
  - intros _. destruct (Js.split sep r); [contradiction|]. simpl. lia.
  - destruct (ascii_dec sep c) as [E|_]; [congruence|]. simpl.
    intros H. specialize (IH H).
    destruct (Js.split sep r); [contradiction|]. exact IH.
Qed.

Lemma join_snoc sep (l : list string) (x : string) :
  l <> [] -> Js.join sep (l ++ [x]) = Js.join sep l +:+ sep +:+ x.
Proof.
  induction l as [|y r IH]; [contradiction|]. intros _.
  destruct r as [|z r']; [reflexivity|].
  change ((y :: z :: r') ++ [x]) with (y :: ((z :: r') ++ [x])).
  cbn [Js.join app]. cbn [Js.join app] in IH.
  rewrite IH by discriminate. now rewrite !append_assoc.
Qed.

Lemma slices_snoc {A} (l : list A) (x : A) :
  Js.initSlice (l ++ [x]) = l /\ Js.lastSlice (l ++ [x]) = [x].
Proof.
  split; [apply removelast_last|].
  unfold Js.lastSlice. now rewrite rev_unit.
Qed.

(** A URL that [processUrl] rewrites can be got back from the result and
    the map, as long as a URL with a media suffix has a slash. *)
Theorem processUrl_recoverable (url : string) (m : gmap string string) :
  (hasMediaSuffix url = true -> Js.includes url "/" = true) ->
  recoverable url (fst (processUrl url m)) (snd (processUrl url m)).
Proof.
  intros Hslash. rewrite processUrl_cases.
  destruct (negb (Js.startsWith url "http")) eqn:Hh; [now left|].
  apply negb_false_iff in Hh.
  destruct (hasMediaSuffix url).
  - right; right. specialize (Hslash eq_refl).
    apply split_with_separator in Hslash.
    destruct (addRefPrefix_own _ m (directory_notInherited url Hh))
      as (token & Ef & El).
    cbn [fst snd]. rewrite Ef. cbn [refText].
    destruct (exists_last (split_nonempty "/" url)) as (parts & file & E).
    rewrite E in Hslash, El |- *. rewrite length_app in Hslash. simpl in Hslash.
    destruct (slices_snoc parts file) as [Ei ->]. rewrite Ei in El |- *.
    exists (Js.join "/" parts), file, token.
    split; [|split].
    + rewrite <- (join_split "/" url), E. apply join_snoc.
      destruct parts; [simpl in Hslash; lia|discriminate].
    + reflexivity.
    + exact El.
  - destruct (Nat.ltb 4 _); [|now left].
    right; left.
    destruct (addRefPrefix_own url m (startsWith_http_notInherited url Hh))
      as (token & Ef & El).
    cbn [fst snd]. rewrite Ef. exact El.
Qed.

Lemma processUrl_recoverable_witness :
  recoverable "http://example.com/img/logo.png"
    (fst (processUrl "http://example.com/img/logo.png" ∅))
    (snd (processUrl "http://example.com/img/logo.png" ∅)).
Proof.
  apply (processUrl_recoverable "http://example.com/img/logo.png" ∅).
  reflexivity.
Defined.

(** ** The renderer only appends *)

Lemma fold_appends {A} (step : string -> A -> string) (l : list A) :
  (forall acc x, exists suffix, step acc x = acc +:+ suffix) ->
  forall acc, exists suffix, fold_left step l acc = acc +:+ suffix.
Proof.
  intros Hstep. induction l as [|x r IH]; intros acc.
  - exists EmptyString. now rewrite append_nil_r.
  - simpl. destruct (Hstep acc x) as [s1 ->]. destruct (IH (acc +:+ s1)) as [s2 ->].
    exists (s1 +:+ s2). now rewrite append_assoc.
Qed.

Lemma fold_indexed_appends {A} (step : nat * string -> A -> nat * string)
    (l : list A) :
  (forall i acc x, exists suffix, snd (step (i, acc) x) = acc +:+ suffix) ->
  forall i acc, exists suffix, snd (fold_left step l (i, acc)) = acc +:+ suffix.
Proof.
  intros Hstep. induction l as [|x r IH]; intros i acc.
  - exists EmptyString. simpl. now rewrite append_nil_r.
  - simpl. destruct (Hstep i acc x) as [s1 E1].
    destruct (step (i, acc) x) as [i' acc']. simpl in E1. subst acc'.
    destruct (IH i' (acc +:+ s1)) as [s2 ->].
    exists (s1 +:+ s2). now rewrite append_assoc.
Qed.

(** Whatever the node, the options and the hooks, rendering a node leaves
    the output so far as it is and appends to it. *)
Lemma renderNode_suffix (options : ConversionOptions) (node : Node)
    (indentLevel : nat) (markdownString : string) :
  exists suffix,
    renderNode options node indentLevel markdownString = markdownString +:+ suffix.
Proof.
  destruct node; simpl; destruct (nodeRenderingOverride options _ indentLevel);
    try (eexists; reflexivity).
  - (* heading *)
    destruct (String.eqb _ LF); eexists; rewrite ?append_assoc; reflexivity.
  - (* image *)
    destruct (_ || _); [eexists; reflexivity|].
    exists EmptyString. now rewrite append_nil_r.
  - (* video *)
    destruct poster as [p|]; [destruct (Js.truthy p)|];
      destruct controls as [[]|]; eexists; rewrite ?append_assoc; reflexivity.
  - (* list *)
    match goal with
    | |- exists s, snd (fold_left ?step ?l (0, ?a0)) +:+ LF = _ =>
        assert (forall i acc x,
                   exists suffix, snd (step (i, acc) x) = acc +:+ suffix) as Hstep;
        [|destruct (fold_indexed_appends step l Hstep 0 a0) as [s ->]]
    end.
    + intros i acc x. simpl.
      destruct (String.eqb _ LF); destruct (Js.truthy _);
        try (eexists; rewrite ?append_assoc; reflexivity).
      exists EmptyString. now rewrite append_nil_r.
    + eexists. rewrite append_assoc. reflexivity.
  - (* table *)
    match goal with
    | |- exists s, fold_left ?step ?l ?a0 +:+ LF = _ =>
        assert (forall acc x, exists suffix, step acc x = acc +:+ suffix) as Hstep;
        [|destruct (fold_appends step l Hstep a0) as [s ->]]
    end.
    + intros acc row. eexists. reflexivity.
    + eexists. rewrite append_assoc. reflexivity.
  - (* code *)
    destruct inline; [|eexists; reflexivity].
    destruct (Js.testWhiteSpace _); eexists; rewrite ?append_assoc; reflexivity.
  - (* semanticHtml *)
    destruct htmlType; eexists; reflexivity.
  - (* custom *)
    destruct (match renderCustomNode options with
              | Some hook => hook content indentLevel
              | None => None
              end); [eexists; reflexivity|].
    exists EmptyString. now rewrite append_nil_r.
  - (* meta *)
    exists EmptyString. now rewrite append_nil_r.
Qed.

(** The renderer only appends: whatever the nodes, the options and the
    hooks, the rendering of the first nodes of a list is the beginning of
    the rendering of the whole list. *)
Theorem markdownContentASTToString_prefix (options : ConversionOptions)
    (nodes more : list Node) (indentLevel : nat) :
  exists suffix,
    markdownContentASTToString options (nodes ++ more) indentLevel
    = markdownContentASTToString options nodes indentLevel +:+ suffix.
Proof.
  unfold markdownContentASTToString. rewrite fold_left_app.
  apply fold_appends. intros acc node. apply renderNode_suffix.
Qed.

(** ** The translation, child by child *)

Lemma pushedOnto_nil (pushed : Throws (list Node)) : pushedOnto [] pushed = pushed.
Proof. now destruct pushed. Qed.

Lemma pushedOnto_inr (result nodes : list Node) :
  pushedOnto result (inr nodes) = inr (result ++ nodes).
Proof. reflexivity. Qed.

Section PushesOnly.

Variable options : ConversionOptions.
Variable collaborators : Collaborators.
Variable rec : Dom.Element -> nat -> Throws (list Node).

Lemma translators_pushOnly :
  Forall (fun entry => pushesOnly (snd entry)) (translators options rec).
Proof.
  unfold translators.
  repeat (constructor;
          [unfold pushesOnly, pushedOnto; intros child result indentLevel; simpl;
           unfold translate_p, translate_a, translate_img, translate_video,
             translate_br, translate_hr, translate_table, translate_blockquote,
             translate_code, headingTranslator, listTranslator,
             formattingTranslator, semanticHtmlTranslator, noop;
           repeat match goal with
             | |- context [if ?b then _ else _] => destruct b
             | |- context [match ?x with _ => _ end] => destruct x
             end;
           rewrite ?app_nil_l, ?app_nil_r, ?app_assoc; reflexivity|]).
  constructor.
Qed.

Lemma lookupTranslator_pushesOnly tagName translator :
  lookupTranslator options rec tagName = Some (Callable translator) ->
  pushesOnly translator.
Proof.
  unfold lookupTranslator. intros H.
  destruct (List.find _ (translators options rec)) as [[name t]|] eqn:E.
  - injection H as <-. apply find_some in E as [Hin _].
    pose proof translators_pushOnly as Hall. rewrite List.Forall_forall in Hall.
    exact (Hall _ Hin).
  - destruct (String.eqb tagName "constructor").
    + injection H as <-. intros child result indentLevel. simpl.
      now rewrite app_nil_r.
    + destruct (String.eqb tagName "__proto__"); discriminate H.
Qed.

Lemma processElement_pushesOnly indentLevel (child : Dom.Element) result :
  processElement options collaborators rec indentLevel child result
  = pushedOnto result (processElement options collaborators rec indentLevel child []).
Proof.
  unfold processElement.
  destruct (match overrideElementProcessing options with
            | Some hook => hook child indentLevel
            | None => OverrideUndefined
            end); try (simpl; now rewrite ?app_nil_r).
  destruct (match excludeTagNames options with
            | Some names => existsb _ names
            | None => false
            end); [simpl; now rewrite app_nil_r|].
  destruct (if String.eqb _ "head" then _ else _); [reflexivity|].
  destruct (_ && _); [simpl; now rewrite app_nil_r|].
  destruct (lookupTranslator options rec _) as [[t|]|] eqn:E.
  - apply (lookupTranslator_pushesOnly _ _ E).
  - reflexivity.
  - destruct (match processUnhandledElement options with
              | Some hook => hook child indentLevel
              | None => None
              end); [reflexivity|].
    now destruct (rec child (indentLevel + 1)).
Qed.

Lemma processChild_pushesOnly indentLevel (child : Dom.Node) :
  forall result,
    processChild options collaborators rec indentLevel child result
    = pushedOnto result (processChild options collaborators rec indentLevel child []).
Proof.
  induction child as [data| |d sh asg ch _ IHasg _] using Node_nested_ind;
    intros result.
  - simpl. destruct (Js.truthy _); simpl; [reflexivity|now rewrite app_nil_r].
  - simpl. now rewrite app_nil_r.
  - simpl. destruct (isSlotElement _); [|apply processElement_pushesOnly].
    set (forEachAssigned :=
           fix forEachAssigned (l : list Dom.Node) (result : list Node)
             : Throws (list Node) :=
             match l with
             | [] => inr result
             | c :: r =>
                 match processChild options collaborators rec indentLevel c result with
                 | inl thrown => inl thrown
                 | inr result0 => forEachAssigned r result0
                 end
             end).
    revert result.
    induction IHasg as [|c r Hc _ IHr]; intros result;
      [simpl; now rewrite app_nil_r|].
    cbn [forEachAssigned]. rewrite Hc.
    destruct (processChild options collaborators rec indentLevel c []) as [e|pushed];
      [reflexivity|].
    cbn [pushedOnto]. rewrite (IHr (result ++ pushed)), (IHr pushed).
    destruct (forEachAssigned r []) as [e|more]; [reflexivity|].
    simpl. now rewrite app_assoc.
Qed.

Lemma forEachChild_concat indentLevel (childNodes : list Dom.Node) :
  forall result,
    forEachChild options collaborators rec indentLevel childNodes result
    = pushedOnto result
        (concatThrows
           (List.map
              (fun child => processChild options collaborators rec indentLevel child [])
              childNodes)).
Proof.
  induction childNodes as [|c r IH]; intros result; [simpl; now rewrite app_nil_r|].
  cbn [forEachChild List.map concatThrows]. rewrite processChild_pushesOnly.
  destruct (processChild options collaborators rec indentLevel c []) as [e|pushed];
    [reflexivity|].
  cbn [pushedOnto]. rewrite IH.
  destruct (concatThrows _) as [e|more]; [reflexivity|].
  simpl. now rewrite app_assoc.
Qed.

Lemma htmlToMarkdownAST_body_concat (element : Dom.Element) indentLevel :
  htmlToMarkdownAST_body options collaborators rec element indentLevel
  = concatThrows
      (List.map
         (fun child => processChild options collaborators rec indentLevel child [])
         (walkedChildNodes element)).
Proof.
  unfold htmlToMarkdownAST_body. fold (walkedChildNodes element).
  rewrite forEachChild_concat. apply pushedOnto_nil.
Qed.

End PushesOnly.

(** The translation of an element is what its child nodes contribute, each
    on its own, in document order, up to the first that throws; the child
    nodes are those of the shadow root when the element has one.  A
    child throws when the translation reaches an element whose tag is
    [__proto__]. *)
Theorem htmlToMarkdownAST_child_by_child (collaborators : Collaborators)
    (element : Dom.Element) (options : ConversionOptions) (indentLevel : nat) :
  htmlToMarkdownAST collaborators element options indentLevel
  = concatThrows
      (List.map
         (fun child =>
            processChild options collaborators
              (fun below level => htmlToMarkdownAST collaborators below options level)
              indentLevel child [])
         (walkedChildNodes element)).
Proof.
  rewrite htmlToMarkdownAST_unfold. apply htmlToMarkdownAST_body_concat.
Qed.

(** ** The exceptions of the translation *)

Lemma withoutProtoTag_elem d sh asg ch :
  withoutProtoTag (Dom.Elem d sh asg ch)
  = negb (String.eqb (Js.toLowerCase (Dom.tagName d)) "__proto__")
    && match sh with Some l => forallb withoutProtoTag l | None => true end
    && forallb withoutProtoTag asg && forallb withoutProtoTag ch.
Proof.
  cbn [withoutProtoTag].
  assert (forall l,
             (fix all (l : list Dom.Node) : bool :=
                match l with
                | [] => true
                | c :: r => withoutProtoTag c && all r
                end) l = forallb withoutProtoTag l) as H
    by (induction l as [|c r IH]; [reflexivity|]; simpl; now rewrite IH).
  rewrite !H. now destruct sh.
Qed.

Lemma withoutProtoTag_parts (element : Dom.Element) :
  withoutProtoTag (Dom.ofElement element) = true ->
  Js.toLowerCase (Dom.tagName element) <> "__proto__"
  /\ (forall c, In c (walkedChildNodes element) -> withoutProtoTag c = true)
  /\ (forall c, In c (Dom.assignedNodes element) -> withoutProtoTag c = true)
  /\ (forall c, In c (Dom.childNodes element) -> withoutProtoTag c = true).
Proof.
  unfold Dom.ofElement. rewrite withoutProtoTag_elem.
  intros [[[Ht Hs]%andb_true_iff Ha]%andb_true_iff Hc]%andb_true_iff.
  rewrite forallb_forall in Ha, Hc. split; [|split; [|split; assumption]].
  - apply negb_true_iff in Ht. intros E. rewrite E in Ht. discriminate Ht.
  - unfold walkedChildNodes. destruct (Dom.shadowRoot element); [|exact Hc].
    now rewrite forallb_forall in Hs.
Qed.

Lemma withoutProtoTag_descendants n (e : Dom.Element) :
  withoutProtoTag n = true -> In e (Dom.descendants n) ->
  withoutProtoTag (Dom.ofElement e) = true.
Proof.
  induction n as [data| |d sh asg ch _ _ IHch] using Node_nested_ind;
    try (intros _ []).
  rewrite withoutProtoTag_elem. intros [_ Hc]%andb_true_iff Hin.
  simpl in Hin. revert Hc Hin.
  induction IHch as [|c r Hc' _ IHr]; [intros _ []|].
  cbn [forallb]. intros [Hc Hr]%andb_true_iff [H|H]%in_app_iff; [|now apply IHr].
  destruct (Dom.asElement c) as [e'|] eqn:E; [|destruct H].
  apply asElement_ofElement in E. destruct H as [->|H]; [now rewrite E|].
  now apply Hc'.
Qed.

Lemma withoutProtoTag_children (element child : Dom.Element) :
  withoutProtoTag (Dom.ofElement element) = true ->
  In child (Dom.children element) ->
  withoutProtoTag (Dom.ofElement child) = true.
Proof.
  intros H Hin. unfold Dom.children in Hin.
  apply list_elem_of_In, list_elem_of_omap in Hin as (c & Hc & E).
  apply asElement_ofElement in E. rewrite E.
  destruct (withoutProtoTag_parts element H) as (_ & _ & _ & Hch).
  apply Hch. now apply list_elem_of_In.
Qed.

Lemma withoutProtoTag_querySelectorAll names (element found : Dom.Element) :
  withoutProtoTag (Dom.ofElement element) = true ->
  In found (Dom.querySelectorAll names element) ->
  withoutProtoTag (Dom.ofElement found) = true.
Proof.
  unfold Dom.querySelectorAll. intros H [Hin _]%filter_In.
  now apply (withoutProtoTag_descendants _ _ H).
Qed.

Lemma mapThrows_returns {A B} (f : A -> Throws B) (l : list A) :
  (forall x, In x l -> returns (f x)) -> returns (mapThrows f l).
Proof.
  induction l as [|x r IH]; intros H; [now eexists|].
  simpl. destruct (H x (or_introl eq_refl)) as [y ->].
  destruct IH as [ys ->]; [intros; apply H; now right|]. now eexists.
Qed.

Lemma mapThrows_throwsOnly Q {A B} (f : A -> Throws B) (l : list A) :
  (forall x, throwsOnly Q (f x)) -> throwsOnly Q (mapThrows f l).
Proof.
  intros H. induction l as [|x r IH]; [exact I|].
  simpl. specialize (H x). destruct (f x); [exact H|].
  destruct (mapThrows f r); [exact IH|exact I].
Qed.

Section Thrown.

Variable options : ConversionOptions.
Variable collaborators : Collaborators.
Variable rec : Dom.Element -> nat -> Throws (list Node).
Variable Q : Exception -> Prop.
Hypothesis recThrows : forall element level, throwsOnly Q (rec element level).
Hypothesis typeError : Q TypeError.

Lemma tableCells_throwsOnly colIds indentLevel cells columnIndex :
  throwsOnly Q (tableCells rec colIds indentLevel columnIndex cells).
Proof.
  revert columnIndex. induction cells as [|cell rest IH]; intros columnIndex;
    [exact I|].
  cbn [tableCells]. cbv zeta.
  specialize (IH (Js.add columnIndex (Js.parseInt (spanAttribute "colspan" cell)))).
  destruct (isTextNode (Dom.ofElement cell)).
  - destruct (tableCells rec colIds indentLevel _ rest); [exact IH|exact I].
  - pose proof (recThrows cell (indentLevel + 1)) as Hc.
    destruct (rec cell (indentLevel + 1)); [exact Hc|].
    destruct (tableCells rec colIds indentLevel _ rest); [exact IH|exact I].
Qed.

Lemma translators_throwOnly :
  Forall (fun entry =>
            forall child result indentLevel,
              throwsOnly Q (snd entry child result indentLevel))
    (translators options rec).
Proof.
  unfold translators.
  repeat (constructor;
          [intros child result indentLevel; simpl;
           unfold translate_p, translate_a, translate_img, translate_video,
             translate_br, translate_hr, translate_table, translate_blockquote,
             translate_code, headingTranslator, listTranslator,
             formattingTranslator, semanticHtmlTranslator, noop;
           try match goal with
             | |- context [mapThrows ?f ?l] =>
                 let H := fresh in
                 assert (throwsOnly Q (mapThrows f l)) as H
                   by (apply mapThrows_throwsOnly; intros;
                       first [apply recThrows|apply tableCells_throwsOnly]);
                 destruct (mapThrows f l); [exact H|]
             end;
           try match goal with
             | |- context [rec ?e ?l] =>
                 let H := fresh in
                 pose proof (recThrows e l) as H; destruct (rec e l); [|]
             end;
           repeat match goal with
             | |- context [if ?b then _ else _] => destruct b
             | |- context [match ?x with _ => _ end] => destruct x
             end;
           simpl; auto|]).
  constructor.
Qed.

Lemma processElement_throwsOnly indentLevel (child : Dom.Element) result :
  throwsOnly Q (processElement options collaborators rec indentLevel child result).
Proof.
  unfold processElement.
  destruct (match overrideElementProcessing options with
            | Some hook => hook child indentLevel
            | None => OverrideUndefined
            end); try exact I.
  destruct (match excludeTagNames options with
            | Some names => existsb _ names
            | None => false
            end); [exact I|].
  destruct (if String.eqb _ "head" then _ else _); [exact I|].
  destruct (_ && _); [exact I|].
  unfold lookupTranslator.
  destruct (List.find _ (translators options rec)) as [[name t]|] eqn:E.
  - apply find_some in E as [Hin _].
    pose proof translators_throwOnly as Hall. rewrite List.Forall_forall in Hall.
    apply (Hall _ Hin).
  - destruct (String.eqb _ "constructor"); [exact I|].
    destruct (String.eqb _ "__proto__"); [exact typeError|].
    destruct (match processUnhandledElement options with
              | Some hook => hook child indentLevel
              | None => None
              end); [exact I|].
    pose proof (recThrows child (indentLevel + 1)) as H.
    now destruct (rec child (indentLevel + 1)).
Qed.

Lemma processChild_throwsOnly indentLevel (child : Dom.Node) :
  forall result,
    throwsOnly Q (processChild options collaborators rec indentLevel child result).
Proof.
  induction child as [data| |d sh asg ch _ IHasg _] using Node_nested_ind;
    intros result.
  - simpl. now destruct (Js.truthy _).
  - exact I.
  - simpl. destruct (isSlotElement _); [|apply processElement_throwsOnly].
    revert result. induction IHasg as [|c r Hc _ IHr]; intros result; [exact I|].
    specialize (Hc result).
    destruct (processChild options collaborators rec indentLevel c result);
      [exact Hc|apply IHr].
Qed.

Lemma htmlToMarkdownAST_body_throwsOnly (element : Dom.Element) indentLevel :
  throwsOnly Q (htmlToMarkdownAST_body options collaborators rec element indentLevel).
Proof.
  unfold htmlToMarkdownAST_body.
  generalize (@nil Node) as result.
  induction (match Dom.shadowRoot element with
             | Some l => l
             | None => Dom.childNodes element
             end) as [|c r IH]; intros result; [exact I|].
  simpl. pose proof (processChild_throwsOnly indentLevel c result) as Hc.
  destruct (processChild options collaborators rec indentLevel c result);
    [exact Hc|apply IH].
Qed.

End Thrown.

Section Returned.

Variable options : ConversionOptions.
Variable collaborators : Collaborators.
Variable rec : Dom.Element -> nat -> Throws (list Node).
Hypothesis recReturns :
  forall (element : Dom.Element) level,
    withoutProtoTag (Dom.ofElement element) = true -> returns (rec element level).

Lemma tableCells_returns colIds indentLevel cells columnIndex :
  (forall cell : Dom.Element,
      In cell cells -> withoutProtoTag (Dom.ofElement cell) = true) ->
  returns (tableCells rec colIds indentLevel columnIndex cells).
Proof.
  revert columnIndex. induction cells as [|cell rest IH]; intros columnIndex H;
    [now eexists|].
  cbn [tableCells]. cbv zeta.
  destruct (IH (Js.add columnIndex (Js.parseInt (spanAttribute "colspan" cell))))
    as [more Hmore]; [intros; apply H; now right|].
  destruct (isTextNode (Dom.ofElement cell)).
  - rewrite Hmore. now eexists.
  - destruct (recReturns cell (indentLevel + 1)) as [nodes ->]; [apply H; now left|].
    rewrite Hmore. now eexists.
Qed.

Lemma translate_table_returns (tableNode : Dom.Element) result indentLevel :
  withoutProtoTag (Dom.ofElement tableNode) = true ->
  returns (translate_table options rec tableNode result indentLevel).
Proof.
  intros Hsafe. unfold translate_table.
  set (colIds := if enableTableColumnTracking options then _ else _).
  destruct (mapThrows_returns
              (fun row => tableCells rec colIds indentLevel (Js.Int 0)
                            (Dom.querySelectorAll ["th"; "td"] row))
              (Dom.querySelectorAll ["tr"] tableNode)) as [made ->].
  - intros row Hrow. apply tableCells_returns. intros cell Hcell.
    apply (withoutProtoTag_querySelectorAll ["th"; "td"] row); [|exact Hcell].
    now apply (withoutProtoTag_querySelectorAll ["tr"] tableNode).
  - now eexists.
Qed.

Lemma translators_return :
  Forall (fun entry =>
            forall (child : Dom.Element) result indentLevel,
              withoutProtoTag (Dom.ofElement child) = true ->
              returns (snd entry child result indentLevel))
    (translators options rec).
Proof.
  unfold translators.
  repeat (constructor;
          [intros child result indentLevel Hsafe; simpl;
           try (now apply translate_table_returns);
           unfold translate_p, translate_a, translate_img, translate_video,
             translate_br, translate_hr, translate_table, translate_blockquote,
             translate_code, headingTranslator, listTranslator,
             formattingTranslator, semanticHtmlTranslator, noop;
           try match goal with
             | |- context [mapThrows ?f ?l] =>
                 let ys := fresh "ys" in
                 let H := fresh in
                 assert (returns (mapThrows f l)) as [ys H];
                 [apply mapThrows_returns; intros x Hx;
                  first [apply recReturns;
                         apply (withoutProtoTag_children child); assumption
                        |apply tableCells_returns; intros cell Hcell;
                         apply (withoutProtoTag_querySelectorAll _ x);
                         [apply (withoutProtoTag_querySelectorAll _ child);
                          assumption|assumption]]
                 |rewrite H]
             end;
           try match goal with
             | |- context [rec child ?l] =>
                 let nodes := fresh "nodes" in
                 let H := fresh in
                 destruct (recReturns child l Hsafe) as [nodes H]; rewrite H
             end;
           repeat match goal with
             | |- context [if ?b then _ else _] => destruct b
             | |- context [match ?x with _ => _ end] => destruct x
             end;
           now eexists|]).
  constructor.
Qed.

Lemma processElement_returns indentLevel (child : Dom.Element) result :
  withoutProtoTag (Dom.ofElement child) = true ->
  returns (processElement options collaborators rec indentLevel child result).
Proof.
  intros Hsafe. unfold processElement.
  destruct (match overrideElementProcessing options with
            | Some hook => hook child indentLevel
            | None => OverrideUndefined
            end); try (now eexists).
  destruct (match excludeTagNames options with
            | Some names => existsb _ names
            | None => false
            end); [now eexists|].
  destruct (if String.eqb _ "head" then _ else _); [now eexists|].
  destruct (_ && _); [now eexists|].
  unfold lookupTranslator.
  destruct (List.find _ (translators options rec)) as [[name t]|] eqn:E.
  - apply find_some in E as [Hin _].
    pose proof translators_return as Hall. rewrite List.Forall_forall in Hall.
    apply (Hall _ Hin). exact Hsafe.
  - destruct (String.eqb _ "constructor"); [now eexists|].
    destruct (withoutProtoTag_parts child Hsafe) as [Htag _].
    destruct (String.eqb_spec (Js.toLowerCase (Dom.tagName child)) "__proto__");
      [contradiction|].
    destruct (match processUnhandledElement options with
              | Some hook => hook child indentLevel
              | None => None
              end); [now eexists|].
    destruct (recReturns child (indentLevel + 1) Hsafe) as [nodes ->]. now eexists.
Qed.

Lemma processChild_returns indentLevel (child : Dom.Node) :
  forall result,
    withoutProtoTag child = true ->
    returns (processChild options collaborators rec indentLevel child result).
Proof.
  induction child as [data| |d sh asg ch _ IHasg _] using Node_nested_ind;
    intros result Hsafe.
  - simpl. destruct (Js.truthy _); now eexists.
  - now eexists.
  - simpl. destruct (isSlotElement _).
    + destruct (withoutProtoTag_parts (Dom.mkElement d sh asg ch) Hsafe)
        as (_ & _ & Hasg & _). simpl in Hasg. clear Hsafe.
      revert result. induction IHasg as [|c r Hc _ IHr]; intros result; [now eexists|].
      destruct (Hc result) as [result' ->]; [apply Hasg; now left|].
      apply IHr. intros; apply Hasg; now right.
    + now apply (processElement_returns indentLevel (Dom.mkElement d sh asg ch)).
Qed.

Lemma htmlToMarkdownAST_body_returns (element : Dom.Element) indentLevel :
  withoutProtoTag (Dom.ofElement element) = true ->
  returns (htmlToMarkdownAST_body options collaborators rec element indentLevel).
Proof.
  intros Hsafe. unfold htmlToMarkdownAST_body.
  destruct (withoutProtoTag_parts element Hsafe) as (_ & Hwalk & _).
  unfold walkedChildNodes in Hwalk.
  generalize (@nil Node) as result.
  induction (match Dom.shadowRoot element with
             | Some l => l
             | None => Dom.childNodes element
             end) as [|c r IH]; intros result; [now eexists|].
  simpl. destruct (processChild_returns indentLevel c result) as [result' ->];
    [apply Hwalk; now left|].
  apply IH. intros; apply Hwalk; now right.
Qed.

End Returned.

Lemma htmlToMarkdownAST_throwsOnly (collaborators : Collaborators)
    (element : Dom.Element) (options : ConversionOptions) (indentLevel : nat) :
  throwsOnly (fun thrown => thrown = TypeError)
    (htmlToMarkdownAST collaborators element options indentLevel).
Proof.
  unfold htmlToMarkdownAST.
  generalize (nodeHeight (Dom.ofElement element)) as fuel. intros fuel.
  revert element indentLevel.
  induction fuel as [|fuel IH]; intros element indentLevel; [exact I|].
  simpl. apply htmlToMarkdownAST_body_throwsOnly; [exact IH|reflexivity].
Qed.

Lemma htmlToMarkdownAST_returns (collaborators : Collaborators)
    (element : Dom.Element) (options : ConversionOptions) (indentLevel : nat) :
  withoutProtoTag (Dom.ofElement element) = true ->
  returns (htmlToMarkdownAST collaborators element options indentLevel).
Proof.
  unfold htmlToMarkdownAST.
  generalize (nodeHeight (Dom.ofElement element)) as fuel. intros fuel.
  revert element indentLevel.
  induction fuel as [|fuel IH]; intros element indentLevel Hsafe; [now eexists|].
  simpl. apply htmlToMarkdownAST_body_returns; [|exact Hsafe].
  intros child level Hchild. now apply IH.
Qed.

(** The translation of an element returns when no element of the tree has
    the tag [__proto__], and whatever the tree it throws nothing but the
    [TypeError] of calling what is no function. *)
Theorem htmlToMarkdownAST_throws_for_proto_only (collaborators : Collaborators)
    (element : Dom.Element) (options : ConversionOptions) (indentLevel : nat) :
  throwsOnly (fun thrown => thrown = TypeError)
    (htmlToMarkdownAST collaborators element options indentLevel)
  /\ (withoutProtoTag (Dom.ofElement element) = true ->
      returns (htmlToMarkdownAST collaborators element options indentLevel)).
Proof.
  split; [apply htmlToMarkdownAST_throwsOnly|apply htmlToMarkdownAST_returns].
Qed.

Lemma htmlToMarkdownAST_throws_for_proto_only_witness :
  throwsOnly (fun thrown => thrown = TypeError)
    (htmlToMarkdownAST Sample.noCollaborators
       (Sample.container [Sample.plain "P" [Dom.Text "x"]]) Sample.noOptions 0)
  /\ returns
       (htmlToMarkdownAST Sample.noCollaborators
          (Sample.container [Sample.plain "P" [Dom.Text "x"]]) Sample.noOptions 0).
Proof.
  destruct (htmlToMarkdownAST_throws_for_proto_only Sample.noCollaborators
              (Sample.container [Sample.plain "P" [Dom.Text "x"]])
              Sample.noOptions 0) as [Hthrows Hreturns].
  split; [exact Hthrows|apply Hreturns; reflexivity].
Defined.

(** An element with the tag [__proto__] makes the translation throw, where
    it stands among the children and where it stands in a paragraph; an
    element with the tag [constructor] is passed over with all that it
    holds. *)
Example proto_tag_throws :
  htmlToMarkdownAST Sample.noCollaborators
    (Sample.container [Dom.Text "a"; Sample.plain "__PROTO__" [Dom.Text "b"]])
    Sample.noOptions 0
  = inl TypeError
  /\ convertElementToMarkdown Sample.noCollaborators
       (Sample.container [Sample.plain "P" [Sample.plain "__proto__" []]])
       Sample.noOptions
     = inl TypeError
  /\ htmlToMarkdownAST Sample.noCollaborators
       (Sample.container [Dom.Text "a"; Sample.plain "CONSTRUCTOR" [Dom.Text "b"]])
       Sample.noOptions 0
     = inr [text "a"].
Proof. vm_compute. repeat split; reflexivity. Qed.

(** ** Tables from the translator *)







(** The numbers of the spans are doubles: a rowspan beyond [2^53] is
    stored rounded, and from [10^21] on it is printed with an exponent. *)
Example rowspan_beyond_the_integers :
  convertElementToMarkdown Sample.noCollaborators
    (tableWithRowspan "9007199254740993") Sample.noOptions
  = inr ("| x <!-- rowspan: 9007199254740992 --> |" +:+ LF +:+ LF, None)
  /\ convertElementToMarkdown Sample.noCollaborators
       (tableWithRowspan "1000000000000000000000") Sample.noOptions
     = inr ("| x <!-- rowspan: 1e+21 --> |" +:+ LF +:+ LF, None)
  /\ Js.parseInt "9007199254740993" = Js.Int 9007199254740992.
Proof. vm_compute. repeat split; reflexivity. Qed.

(** ** Headings *)

Lemma lowerChar_digit c d :
  In d (list_ascii_of_string "123456") -> Js.lowerChar c = d -> c = d.
Proof.
  intros Hd <-. simpl in Hd.
  destruct c as [[] [] [] [] [] [] [] []]; vm_compute in Hd |- *;
    try reflexivity; exfalso; intuition discriminate.
Qed.

(** For an element whose tag is [h1] to [h6], in upper or lower case, the
    table of translators has the heading translator, and the heading node
    it pushes has the level of the tag and the translation of the element
    for content; it throws when that translation throws. *)
Theorem heading_level (options : ConversionOptions)
    (rec : Dom.Element -> nat -> Throws (list Node)) (headingNode : Dom.Element)
    (result : list Node) (indentLevel : nat) (level : nat) :
  1 <= level <= 6 ->
  Js.toLowerCase (Dom.tagName headingNode) = "h" +:+ Js.ofNat level ->
  exists translator,
    lookupTranslator options rec (Js.toLowerCase (Dom.tagName headingNode))
    = Some (Callable translator)
    /\ translator headingNode result indentLevel
       = match rec headingNode 0 with
         | inl thrown => inl thrown
         | inr content => inr (result ++ [heading level (inr content)])
         end.
Proof.
  intros Hl Ht. exists (headingTranslator rec). split.
  - rewrite Ht.
    destruct level as [|[|[|[|[|[|[|]]]]]]]; try lia; reflexivity.
  - unfold headingTranslator.
    destruct (Dom.tagName headingNode) as [|c1 [|c2 [|c3 rest]]];
      try (destruct level as [|[|[|[|[|[|[|]]]]]]]; try lia; discriminate Ht).
    simpl in Ht. cbn [Js.substringFrom].
    destruct level as [|[|[|[|[|[|[|]]]]]]]; try lia;
      injection Ht as _ Hc2;
      apply lowerChar_digit in Hc2; try (simpl; tauto); subst c2; reflexivity.
Qed.

Lemma heading_level_witness :
  exists translator,
    lookupTranslator Sample.noOptions (fun _ _ => inr [])
      (Js.toLowerCase
         (Dom.tagName (Dom.mkElement (Sample.data "H3" "" [] []) None [] [])))
    = Some (Callable translator)
    /\ translator (Dom.mkElement (Sample.data "H3" "" [] []) None [] []) [] 0
       = inr ([] ++ [heading 3 (inr [])]).
Proof.
  apply (heading_level Sample.noOptions (fun _ _ => inr [])
           (Dom.mkElement (Sample.data "H3" "" [] []) None [] []) [] 0 3);
    [lia|reflexivity].
Defined.

(** ** Searching the AST *)

Lemma head_app {A} (l1 l2 : list A) :
  head (l1 ++ l2) = match head l1 with Some x => Some x | None => head l2 end.
Proof. now destruct l1. Qed.

Section Find.

Variable checker : Node -> bool.

Abbreviation findAgree := (findAgree checker).

Lemma findAgree_list (l : list Node) :
  Forall findAgree l ->
  (fix loopCheck (z : list Node) : option Node :=
     match z with
     | [] => None
     | element :: rest =>
         match findInASTNode checker element with
         | Some found => Some found
         | None => loopCheck rest
         end
     end) l
  = head (flat_map (findAllInASTNode checker) l)
  /\ Forall (fun found => checker found = true)
       (flat_map (findAllInASTNode checker) l).
Proof.
  induction 1 as [|x r [Hx1 Hx2] _ [IH1 IH2]]; [split; [reflexivity|apply List.Forall_nil]|].
  split.
  - cbn [flat_map]. rewrite head_app, <- Hx1, IH1. reflexivity.
  - cbn [flat_map]. apply Forall_app. now split.
Qed.

Lemma findAgree_node (node : Node) : findAgree node.
Proof.
  induction node as [s|c _|c _|c _|lv c _|h c IHc|src a|src p ctl|o items IHi
                    |rows ids IHr|lang c i|c IHc|t c IHc|j|m']
    using AstNode_nested_ind;
    unfold findAgree; simpl;
    match goal with
    | |- context [checker ?n] => destruct (checker n) eqn:Hck
    end;
    try (split; [reflexivity|repeat constructor; assumption]);
    try (split; [reflexivity|constructor]).
  - apply findAgree_list, IHc.
  - clear Hck.
    induction IHi as [|item rest Hitem _ [IH1 IH2]]; [split; [reflexivity|apply List.Forall_nil]|].
    destruct (findAgree_list item Hitem) as [H1 H2].
    cbn [flat_map]. split.
    + rewrite head_app, <- H1, IH1. reflexivity.
    + apply Forall_app. now split.
  - clear Hck.
    induction IHr as [|row rest Hrow _ [IH1 IH2]]; [split; [reflexivity|apply List.Forall_nil]|].
    assert ((fix inCells (cells : list (TableCellNode Node)) : option Node :=
               match cells with
               | [] => None
               | cell :: more =>
                   match
                     match cellContent cell with
                     | inl _ => None
                     | inr content =>
                         (fix loopCheck (z : list Node) : option Node :=
                            match z with
                            | [] => None
                            | element :: rest =>
                                match findInASTNode checker element with
                                | Some found => Some found
                                | None => loopCheck rest
                                end
                            end) content
                     end
                   with
                   | Some found => Some found
                   | None => inCells more
                   end
               end) row
            = head (flat_map
                      (fun cell =>
                         match cellContent cell with
                         | inl _ => []
                         | inr content => flat_map (findAllInASTNode checker) content
                         end) row)
            /\ Forall (fun found => checker found = true)
                 (flat_map
                    (fun cell =>
                       match cellContent cell with
                       | inl _ => []
                       | inr content => flat_map (findAllInASTNode checker) content
                       end) row)) as [H1 H2].
    { clear IH1 IH2.
      induction Hrow as [|cell more Hcell _ [IHc1 IHc2]];
        [split; [reflexivity|apply List.Forall_nil]|].
      cbn [flat_map]. destruct (cellContent cell) as [s0|content].
      - simpl. now split.
      - destruct (findAgree_list content Hcell) as [Hc1 Hc2]. split.
        + rewrite head_app, <- Hc1, IHc1. reflexivity.
        + apply Forall_app. now split. }
    cbn [flat_map]. split.
    + rewrite head_app, <- H1, IH1. reflexivity.
    + apply Forall_app. now split.
  - apply findAgree_list, IHc.
  - apply findAgree_list, IHc.
Qed.

End Find.

(** [findInAST] gives the first of the nodes that [findAllInAST] gives,
    and every node that they give passes the check; so [findInAST] finds
    nothing exactly when [findAllInAST] finds nothing. *)
Theorem findInAST_first_of_all (checker : Node -> bool) (nodes : list Node) :
  findInAST checker nodes = head (findAllInAST checker nodes)
  /\ Forall (fun found => checker found = true) (findAllInAST checker nodes)
  /\ (findInAST checker nodes = None <-> findAllInAST checker nodes = []).
Proof.
  assert (findInAST checker nodes = head (findAllInAST checker nodes)
          /\ Forall (fun found => checker found = true)
               (findAllInAST checker nodes)) as [H1 H2].
  { unfold findAllInAST.
    induction nodes as [|x r [IH1 IH2]]; [split; [reflexivity|apply List.Forall_nil]|].
    destruct (findAgree_node checker x) as [Hx1 Hx2]. cbn [flat_map findInAST].
    split.
    - rewrite head_app, <- Hx1, IH1. reflexivity.
    - apply Forall_app. now split. }
  split; [exact H1|]. split; [exact H2|].
  rewrite H1. destruct (findAllInAST checker nodes); split; intros; try reflexivity;
    discriminate.
Qed.

(** Neither search looks into the content of a heading, or of bold, italic
    or strikethrough text. *)
Lemma findInAST_skips_heading_content :
  findInAST isMeta [heading 1 (inr [meta (mkMeta None None None None)])] = None
  /\ findAllInAST isMeta [bold (inr [meta (mkMeta None None None None)])] = [].
Proof. split; reflexivity. Qed.

(** ** The website domain *)

Lemma prefix_substringFrom d s :
  String.prefix d s = true -> d +:+ Js.substringFrom (String.length d) s = s.
Proof.
  revert s. induction d as [|c d IH]; intros s; [reflexivity|].
  destruct s as [|c' s]; [discriminate|]. simpl.
  destruct (ascii_dec c c') as [->|]; [|discriminate].
  intros H. rewrite append_cons. now rewrite IH.
Qed.

Lemma stripWebsiteDomain_urlGiven (options : ConversionOptions) (url : string) :
  Js.startsWith url "data:image" = false ->
  urlGiven options (Some url) (stripWebsiteDomain options url).
Proof.
  intros Hdata. unfold stripWebsiteDomain.
  destruct (websiteDomain options) as [domain|] eqn:Hd;
    [|apply givenSame; [exact Hdata|now rewrite Hd]].
  destruct (Js.truthy domain) eqn:T; simpl.
  - destruct (Js.startsWith url domain) eqn:P.
    + pose proof (prefix_substringFrom _ _ P) as E.
      rewrite <- E at 1. apply givenRest; [now rewrite E|exact Hd|].
      intros ->. discriminate T.
    + apply givenSame; [exact Hdata|rewrite Hd; now right].
  - apply givenSame; [exact Hdata|]. rewrite Hd. left.
    destruct domain; [reflexivity|discriminate T].
Qed.

(** The href of the link node that the anchor translator pushes, and the
    src of the image node that the image translator pushes: a dash in
    place of a [data:image] URL, a hash where the anchor has no href, and
    otherwise the URL of the element, without the website domain of the
    options where it starts with it. Nothing else is taken from the
    URL. *)
Theorem translators_url (options : ConversionOptions)
    (rec : Dom.Element -> nat -> Throws (list Node))
    (element : Dom.Element) (result : list Node) (indentLevel : nat) :
  match translate_a options rec element result indentLevel with
  | inl thrown => rec element 0 = inl thrown
  | inr pushed =>
      pushed = result
      \/ exists given content,
           pushed = result ++ [link given content]
           /\ urlGiven options (Dom.href element) given
  end
  /\ exists given alt,
       translate_img options element result indentLevel
       = inr (result ++ [image given alt])
       /\ urlGiven options (Some (Dom.src element)) given.
Proof.
  split.
  - unfold translate_a.
    destruct (Dom.href element) as [h|] eqn:Hh.
    + destruct (Js.startsWith h "data:image") eqn:Hdata.
      * destruct (rec element 0) as [thrown|content]; [reflexivity|].
        right. eexists _, _. split; [reflexivity|]. now apply givenDash.
      * destruct (forallb isTextNode (Dom.childNodes element)).
        -- right. eexists _, _. split; [reflexivity|].
           now apply stripWebsiteDomain_urlGiven.
        -- destruct (rec element 0) as [thrown|[|node content]];
             [reflexivity|now left|].
           right. eexists _, _. split; [reflexivity|].
           now apply stripWebsiteDomain_urlGiven.
    + destruct (forallb isTextNode (Dom.childNodes element)).
      * right. eexists _, _. split; [reflexivity|]. apply givenHash.
      * destruct (rec element 0) as [thrown|[|node content]];
          [reflexivity|now left|].
        right. eexists _, _. split; [reflexivity|]. apply givenHash.
  - unfold translate_img.
    destruct (Js.startsWith (Dom.src element) "data:image") eqn:Hdata.
    + eexists _, _. split; [reflexivity|]. now apply givenDash.
    + eexists _, _. split; [reflexivity|]. now apply stripWebsiteDomain_urlGiven.
Qed.

(** ** The main content of a rendered page *)

Example getMainContent_samples :
  getMainContent ("a" +:+ "<-nav->" +:+ "menu" +:+ "</-nav->" +:+ "b"
                  +:+ "<-aside->" +:+ "x") = "ab<-aside->x"
  /\ getMainContent ("a<-main->b<-main->c</-main->d</-main->") = "b<-main->c"
  /\ getMainContent "a<-main->b" = EmptyString.
Proof. vm_compute. repeat split; reflexivity. Qed.

Lemma noAngleOpen_cons c r :
  noAngleOpen (String c r) = negb (Ascii.eqb c "<") && noAngleOpen r.
Proof. reflexivity. Qed.

Lemma prefix_angle_false p c r :
  Ascii.eqb c "<" = false -> String.prefix (String "<" p) (String c r) = false.
Proof.
  intros H.
  change (String.prefix (String "<" p) (String c r))
    with (if ascii_dec "<" c then String.prefix p r else false).
  destruct (ascii_dec "<" c) as [<-|]; [discriminate H|reflexivity].
Qed.

Lemma indexOf_behind before marker rest :
  noAngleOpen before = true ->
  JsSearch.indexOf (before +:+ String "<" marker +:+ rest) (String "<" marker)
  = Some (String.length before)
  /\ Js.includes (before +:+ String "<" marker +:+ rest) (String "<" marker) = true.
Proof.
  induction before as [|c r IH]; intros Hn.
  - rewrite append_nil_l.
    pose proof (prefix_append (String "<" marker) rest) as Hp0. split.
    + destruct (String "<" marker +:+ rest) eqn:E; [discriminate|].
      cbn [JsSearch.indexOf]. now rewrite Hp0.
    + pose proof (prefix_append (String "<" marker) rest) as Hp.
      destruct (String "<" marker +:+ rest) eqn:E; [discriminate|].
      cbn [Js.includes]. now rewrite Hp.
  - rewrite noAngleOpen_cons in Hn. apply andb_true_iff in Hn as [Hc Hr].
    apply negb_true_iff in Hc. destruct (IH Hr) as [IH1 IH2].
    rewrite append_cons. cbn [JsSearch.indexOf Js.includes].
    rewrite (prefix_angle_false _ _ _ Hc), IH1, IH2. now split.
Qed.

Lemma substringFrom_append a b :
  Js.substringFrom (String.length a) (a +:+ b) = b.
Proof. induction a as [|c a IH]; [now destruct b|]. now rewrite append_cons. Qed.

Lemma take_append a b : JsSearch.take (String.length a) (a +:+ b) = a.
Proof.
  induction a as [|c a IH]; [now destruct b|].
  rewrite append_cons. simpl. now rewrite IH.
Qed.

Lemma getMainContent_marked (before content behind : string) :
  noAngleOpen before = true ->
  noAngleOpen content = true ->
  getMainContent
    (before +:+ "<-main->" +:+ content +:+ "</-main->" +:+ behind)
  = content.
Proof.
  intros Hb Hc. unfold getMainContent.
  destruct (indexOf_behind before "-main->" (content +:+ "</-main->" +:+ behind) Hb)
    as [Hi Hinc].
  rewrite Hinc, Hi. cbv zeta.
  replace (String.length before + String.length "<-main->")
    with (String.length (before +:+ "<-main->"))
    by (now rewrite length_append).
  rewrite <- append_assoc, substringFrom_append.
  destruct (indexOf_behind content "/-main->" behind Hc) as [Hj _].
  rewrite Hj. apply take_append.
Qed.

(** When a page is rendered with a main region, and neither the text in
    front of its opening marker nor its content has a [<], the main
    content is the content of the region, whatever comes behind it. *)
Theorem getMainContent_region (before content behind : string) :
  noAngleOpen before = true ->
  noAngleOpen content = true ->
  getMainContent
    (before +:+ "<-main->" +:+ content +:+ "</-main->" +:+ behind)
  = content.
Proof. apply getMainContent_marked. Qed.

Lemma getMainContent_region_witness :
  getMainContent
    ("Title" +:+ "<-main->" +:+ "Story" +:+ "</-main->" +:+ "<-footer->x</-footer->")
  = "Story".
Proof. apply (getMainContent_region "Title" "Story"); reflexivity. Defined.

Lemma sectionAt_no_angle c r :
  Ascii.eqb c "<" = false -> sectionAt (String c r) = None.
Proof.
  intros H. unfold sectionAt, removedSections. cbn [fold_right].
  now rewrite !(prefix_angle_false _ _ _ H).
Qed.

Lemma includes_no_angle s marker :
  noAngleOpen s = true -> Js.includes s (String "<" marker) = false.
Proof.
  induction s as [|c r IH]; [reflexivity|].
  rewrite noAngleOpen_cons. intros [Hc Hr]%andb_true_iff.
  apply negb_true_iff in Hc. cbn [Js.includes].
  now rewrite (prefix_angle_false _ _ _ Hc), (IH Hr).
Qed.

(** A text without any [<] has no region marker, and is its own main
    content. *)
Theorem getMainContent_plain (markdownStr : string) :
  noAngleOpen markdownStr = true -> getMainContent markdownStr = markdownStr.
Proof.
  intros Hn. unfold getMainContent. rewrite (includes_no_angle _ _ Hn).
  induction markdownStr as [|c r IH]; [reflexivity|].
  rewrite noAngleOpen_cons in Hn. apply andb_true_iff in Hn as [Hc Hr].
  apply negb_true_iff in Hc. cbn [removeSectionsFrom].
  now rewrite (sectionAt_no_angle _ _ Hc), (IH Hr).
Qed.

Lemma getMainContent_plain_witness :
  getMainContent "Hello **world**" = "Hello **world**".
Proof. apply (getMainContent_plain "Hello **world**"). reflexivity. Defined.

Lemma noAngleOpen_append a b :
  noAngleOpen (a +:+ b) = noAngleOpen a && noAngleOpen b.
Proof.
  induction a as [|c a IH]; [reflexivity|].
  rewrite append_cons, !noAngleOpen_cons, IH. now rewrite andb_assoc.
Qed.

(** Rendering a main region around a text without [<] and taking the main
    content of the result gives the text back, between the line breaks of
    the region. *)
Theorem getMainContent_of_rendered (options : ConversionOptions) (content : string) :
  overrideNodeRenderer options = None ->
  noAngleOpen content = true ->
  getMainContent
    (markdownContentASTToString options [semanticHtml main [text content]] 0)
  = LF +:+ content +:+ LF +:+ LF.
Proof.
  intros Ho Hn.
  assert (markdownContentASTToString options [semanticHtml main [text content]] 0
          = (LF +:+ LF) +:+ "<-main->" +:+ (LF +:+ content +:+ LF +:+ LF)
            +:+ "</-main->" +:+ LF) as ->.
  { unfold markdownContentASTToString. cbn [fold_left]. simpl.
    unfold nodeRenderingOverride. rewrite Ho.
    rewrite ?append_assoc. reflexivity. }
  apply getMainContent_marked; [reflexivity|].
  rewrite !noAngleOpen_append, Hn. reflexivity.
Qed.

Lemma getMainContent_of_rendered_witness :
  getMainContent
    (markdownContentASTToString Sample.noOptions
       [semanticHtml main [text "Story"]] 0)
  = LF +:+ "Story" +:+ LF +:+ LF.
Proof.
  apply (getMainContent_of_rendered Sample.noOptions "Story"); reflexivity.
Defined.

(** ** Visible text *)

Lemma trimStart_fixed c r :
  Js.isWhiteSpace c = false -> Js.trimStart (String c r) = String c r.
Proof. intros H. simpl. now rewrite H. Qed.

Lemma trimStart_head s :
  Js.trimStart s = EmptyString
  \/ exists c r, Js.trimStart s = String c r /\ Js.isWhiteSpace c = false.
Proof.
  induction s as [|c r IH]; [now left|]. simpl.
  destruct (Js.isWhiteSpace c) eqn:E; [exact IH|].
  right. now exists c, r.
Qed.

Lemma trimEnd_head c r :
  Js.isWhiteSpace c = false ->
  exists r', Js.trimEnd (String c r) = String c r'.
Proof.
  intros H. simpl. destruct (Js.trimEnd r); [|now eexists].
  rewrite H. now eexists.
Qed.

Lemma trimEnd_idempotent s : Js.trimEnd (Js.trimEnd s) = Js.trimEnd s.
Proof.
  induction s as [|c r IH]; [reflexivity|]. simpl.
  destruct (Js.trimEnd r) as [|c' r'] eqn:E.
  - destruct (Js.isWhiteSpace c) eqn:W; [reflexivity|]. simpl. now rewrite W.
  - cbn [Js.trimEnd]. cbn [Js.trimEnd] in IH. rewrite IH. reflexivity.
Qed.

Lemma trim_idempotent s : Js.trim (Js.trim s) = Js.trim s.
Proof.
  unfold Js.trim.
  destruct (trimStart_head s) as [->|(c & r & -> & Hc)]; [reflexivity|].
  destruct (trimEnd_head c r Hc) as [r' E].
  rewrite E, (trimStart_fixed _ _ Hc), <- E. apply trimEnd_idempotent.
Qed.

(** The visible text of an element has no white space at its ends, and an
    element that is not visible has no visible text. *)
Theorem getVisibleText_trimmed (getComputedStyle : Dom.Element -> ComputedStyle)
    (element : Dom.Element) :
  Js.trim (DomUtils.getVisibleText getComputedStyle element)
  = DomUtils.getVisibleText getComputedStyle element
  /\ (DomUtils.isElementVisible getComputedStyle element = false ->
      DomUtils.getVisibleText getComputedStyle element = EmptyString).
Proof.
  unfold DomUtils.getVisibleText. destruct element as [d sh asg ch].
  unfold Dom.ofElement. cbn [Dom.data Dom.shadowRoot Dom.assignedNodes Dom.childNodes].
  cbn [DomUtils.getVisibleTextNode].
  destruct (DomUtils.isElementVisible getComputedStyle (Dom.mkElement d sh asg ch));
    cbn [negb]; split; try reflexivity; try discriminate.
  apply trim_idempotent.
Qed.

(** ** Metadata and the front matter *)

Lemma renderNode_meta (options : ConversionOptions) (node : Node)
    (indentLevel : nat) (markdownString : string) :
  overrideNodeRenderer options = None ->
  isMeta node = true ->
  renderNode options node indentLevel markdownString = markdownString.
Proof.
  intros Ho Hm. destruct node; try discriminate Hm.
  simpl. unfold nodeRenderingOverride. now rewrite Ho.
Qed.

(** Without a renderer hook and without front matter, the metadata nodes
    of a list never reach the output: the list renders as it does without
    them. *)
Theorem markdownASTToString_without_front_matter (collaborators : Collaborators)
    (options : ConversionOptions) (nodes : list Node) (indentLevel : nat) :
  overrideNodeRenderer options = None ->
  emitFrontMatter options = false ->
  markdownASTToString collaborators options nodes indentLevel
  = markdownASTToString collaborators options
      (List.filter (fun node => negb (isMeta node)) nodes) indentLevel.
Proof.
  intros Ho He. unfold markdownASTToString, markdownMetaASTToString.
  rewrite He. f_equal. unfold markdownContentASTToString.
  generalize EmptyString.
  induction nodes as [|node rest IH]; intros acc; [reflexivity|].
  cbn [fold_left List.filter].
  destruct (isMeta node) eqn:Hm; cbn [negb].
  - rewrite (renderNode_meta _ _ _ _ Ho Hm). apply IH.
  - cbn [fold_left]. apply IH.
Qed.

Lemma markdownASTToString_without_front_matter_witness :
  markdownASTToString Sample.noCollaborators Sample.noOptions
    [meta (mkMeta (Some [("title", "T")]) None None None); text "x"] 0
  = markdownASTToString Sample.noCollaborators Sample.noOptions
      (List.filter (fun node => negb (isMeta node))
         [meta (mkMeta (Some [("title", "T")]) None None None); text "x"]) 0.
Proof.
  apply (markdownASTToString_without_front_matter Sample.noCollaborators
           Sample.noOptions); reflexivity.
Defined.

(** ** The entry points *)

(** The parser is called at most twice, and a second time only when the
    main content is extracted and metadata is asked for. *)
Theorem convertHtmlToMarkdown_parses_at_most_twice (collaborators : Collaborators)
    (html : string) (options : ConversionOptions) :
  length (events (convertHtmlToMarkdown collaborators html options))
  <= (if extractMainContent options && hasIncludeMetaData options then 2 else 1).
Proof.
  unfold convertHtmlToMarkdown.
  destruct (match overrideDOMParser options with
            | Some p => Some p
            | None => hostDOMParser collaborators
            end) as [parser|]; [|destruct (_ && _); simpl; lia].
  cbv zeta.
  destruct (extractMainContent options); cbn [andb]; [|destruct (hasIncludeMetaData options); simpl; lia].
  destruct (hasIncludeMetaData options); cbn [andb]; [|simpl; lia].
  destruct (_ && _); [|simpl; lia].
  destruct (documentHead _); simpl; lia.
Qed.

(** The translation asks the collaborators for the metadata of the head
    only, and the rendering for the serialisation of values: the parser
    of the host plays no part in either. *)
Lemma htmlToMarkdownAST_host collaborators host (element : Dom.Element) options
    indentLevel :
  htmlToMarkdownAST (withHostParser collaborators host) element options indentLevel
  = htmlToMarkdownAST collaborators element options indentLevel.
Proof.
  unfold htmlToMarkdownAST.
  generalize (nodeHeight (Dom.ofElement element)) as fuel.
  intros fuel. revert element indentLevel.
  induction fuel as [|fuel IH]; intros element indentLevel; [reflexivity|].
  simpl.
  change (htmlToMarkdownAST_body options (withHostParser collaborators host))
    with (htmlToMarkdownAST_body options collaborators).
  apply (htmlToMarkdownAST_body_agree options collaborators _ _
           (nodeHeight (Dom.ofElement element))); [|lia].
  intros below level _. apply IH.
Qed.

Lemma convertElementToMarkdown_host collaborators host (element : Dom.Element) options :
  convertElementToMarkdown (withHostParser collaborators host) element options
  = convertElementToMarkdown collaborators element options.
Proof.
  unfold convertElementToMarkdown. rewrite htmlToMarkdownAST_host. reflexivity.
Qed.

Lemma convertElementToMarkdown_throws (collaborators : Collaborators)
    (element : Dom.Element) (options : ConversionOptions) :
  match convertElementToMarkdown collaborators element options with
  | inl thrown =>
      thrown = TypeError /\ withoutProtoTag (Dom.ofElement element) = false
  | inr _ => True
  end.
Proof.
  unfold convertElementToMarkdown.
  pose proof (htmlToMarkdownAST_throwsOnly collaborators element options 0) as Ht.
  pose proof (htmlToMarkdownAST_returns collaborators element options 0) as Hr.
  destruct (htmlToMarkdownAST collaborators element options 0) as [thrown|ast].
  - split; [exact Ht|].
    destruct (withoutProtoTag (Dom.ofElement element)); [|reflexivity].
    destruct (Hr eq_refl) as [ast E]. discriminate E.
  - destruct (refifyUrlsOption options); [|exact I].
    now destruct (refifyUrls ast _).
Qed.

(** With an overriding parser in the options, it is that parser, and not
    the parser of the host, that gets the HTML, first, and whatever is
    parsed after it; the outcome is the same with any other parser of the
    host or with none, and no [Error] is thrown. Where neither the main
    content nor the metadata is asked for, the result is the conversion of
    the body that the overriding parser made, or of its root element where
    there is no body. *)
Theorem convertHtmlToMarkdown_with_parser (collaborators : Collaborators)
    (html : string) (options : ConversionOptions) (parser : DOMParser) :
  overrideDOMParser options = Some parser ->
  (exists more,
      events (convertHtmlToMarkdown collaborators html options)
      = ParseFromString parser html :: more
      /\ Forall (fun event => exists html', event = ParseFromString parser html') more)
  /\ (forall host,
        convertHtmlToMarkdown (withHostParser collaborators host) html options
        = convertHtmlToMarkdown collaborators html options)
  /\ (forall message,
        completion (convertHtmlToMarkdown collaborators html options)
        <> inl (Error message))
  /\ (extractMainContent options = false -> includeMetaData options = None ->
      completion (convertHtmlToMarkdown collaborators html options)
      = convertElementToMarkdown collaborators
          (match Dom.body (parseFromString parser html) with
           | Some body => Dom.refElement body
           | None => Dom.documentElement (parseFromString parser html)
           end) options).
Proof.
  intros Ho. split; [|split; [|split]].
  - unfold convertHtmlToMarkdown. rewrite Ho. cbv zeta.
    destruct (extractMainContent options).
    + destruct (_ && _).
      * destruct (documentHead _); eexists; simpl; (split; [reflexivity|]);
          repeat constructor. now eexists.
      * eexists; simpl; (split; [reflexivity|]); constructor.
    + eexists; simpl; (split; [reflexivity|]); constructor.
  - intros host. unfold convertHtmlToMarkdown. rewrite Ho. cbv zeta.
    unfold headHasContent.
    change (innerHTML (withHostParser collaborators host))
      with (innerHTML collaborators).
    change (outerHTML (withHostParser collaborators host))
      with (outerHTML collaborators).
    destruct (extractMainContent options);
      [destruct (_ && _); [destruct (documentHead _)|]|];
      rewrite ?convertElementToMarkdown_host; reflexivity.
  - intros message. unfold convertHtmlToMarkdown. rewrite Ho. cbv zeta.
    assert (forall element,
               convertElementToMarkdown collaborators element options
               <> inl (Error message)) as Hc.
    { intros element E.
      pose proof (convertElementToMarkdown_throws collaborators element options) as H.
      rewrite E in H. destruct H as [H _]. discriminate H. }
    destruct (extractMainContent options).
    + destruct (_ && _).
      * destruct (documentHead _); simpl; [apply Hc|discriminate].
      * simpl. apply Hc.
    + simpl. apply Hc.
  - intros He Hm. unfold convertHtmlToMarkdown. rewrite Ho, He. cbv zeta.
    unfold hasIncludeMetaData. rewrite Hm. reflexivity.
Qed.

Lemma convertHtmlToMarkdown_with_parser_witness :
  (exists more,
      events (convertHtmlToMarkdown SampleCalls.hosted "<p>x</p>" SampleCalls.overridden)
      = ParseFromString SampleCalls.overriding "<p>x</p>" :: more
      /\ Forall (fun event =>
                   exists html', event = ParseFromString SampleCalls.overriding html')
           more)
  /\ (forall host,
        convertHtmlToMarkdown (withHostParser SampleCalls.hosted host) "<p>x</p>"
          SampleCalls.overridden
        = convertHtmlToMarkdown SampleCalls.hosted "<p>x</p>" SampleCalls.overridden)
  /\ (forall message,
        completion (convertHtmlToMarkdown SampleCalls.hosted "<p>x</p>"
                      SampleCalls.overridden)
        <> inl (Error message))
  /\ completion (convertHtmlToMarkdown SampleCalls.hosted "<p>x</p>"
                   SampleCalls.overridden)
     = convertElementToMarkdown SampleCalls.hosted
         (match Dom.body (parseFromString SampleCalls.overriding "<p>x</p>") with
          | Some body => Dom.refElement body
          | None =>
              Dom.documentElement (parseFromString SampleCalls.overriding "<p>x</p>")
          end) SampleCalls.overridden.
Proof.
  destruct (convertHtmlToMarkdown_with_parser SampleCalls.hosted "<p>x</p>"
              SampleCalls.overridden SampleCalls.overriding eq_refl)
    as (Hevents & Hhost & Herror & Hbody).
  split; [exact Hevents|]. split; [exact Hhost|]. split; [exact Herror|].
  apply Hbody; reflexivity.
Defined.

(** The page of the overriding parser is converted, not the page of the
    host. *)
Example convertHtmlToMarkdown_overrides_host :
  hostDOMParser SampleCalls.hosted = Some SampleCalls.host
  /\ completion (convertHtmlToMarkdown SampleCalls.hosted "<p>x</p>"
                   SampleCalls.overridden)
     = inr ("override" +:+ LF +:+ LF, None)
  /\ completion (convertHtmlToMarkdown SampleCalls.hosted "<p>x</p>" Sample.noOptions)
     = inr ("host" +:+ LF +:+ LF, None).
Proof. vm_compute. repeat split; reflexivity. Qed.



